(** * Client-side streaming state machine of the procurement analysis frontend

    A shallow embedding of
      - [frontend/lib/api-client.ts]  (class [APIClient], the chat stream
        decoder of [sendChatMessageStream]), and
      - [frontend/hooks/use-procurement-analysis.ts]  (the hook
        [useProcurementAnalysis]: session state, progress log, chat turns),
    together with the properties of the decoder and of the chat turn
    controller.

    Conventions.  A JavaScript string is a [text]: the list of its code
    points.  Every string operation the sources use ([indexOf] of an ASCII
    pattern, [split] on a line feed, [slice] behind an ASCII prefix, [trim])
    gives the same result on code points as on UTF-16 code units.  React state
    cells and refs are the fields of one record; a state setter is a record
    update.  An [async] function is cut at its [await]: the part before it
    returns the request it issues, the part after it takes the outcome. *)

From Stdlib Require Import String Ascii.
From Stdlib Require Import List ZArith NArith Bool Lia.
From Stdlib Require Import Init.Byte.
From Equations.Prop Require Import Equations Logic.
Import ListNotations.

Set Implicit Arguments.

(** ** JavaScript strings *)

Module JS.

Definition text := list N.

Definition txt (s : string) : text :=
  map N_of_ascii (list_ascii_of_string s).

Definition LF : N := 10%N.

Definition text_eqb (a b : text) : bool :=
  if list_eq_dec N.eq_dec a b then true else false.

(** [WhiteSpace] and [LineTerminator] of ECMAScript: what [trim],
    [trimStart] and [trimEnd] strip. *)
Definition is_whitespace (c : N) : bool :=
  ((9 <=? c) && (c <=? 13) || (c =? 32) || (c =? 160) || (c =? 5760)
   || (8192 <=? c) && (c <=? 8202) || (c =? 8232) || (c =? 8233)
   || (c =? 8239) || (c =? 8287) || (c =? 12288) || (c =? 65279))%N.

Fixpoint trimStart (s : text) : text :=
  match s with
  | [] => []
  | c :: s' => if is_whitespace c then trimStart s' else s
  end.

Definition trimEnd (s : text) : text := rev (trimStart (rev s)).

Definition trim (s : text) : text := trimEnd (trimStart s).

Fixpoint startsWith (prefix s : text) : bool :=
  match prefix, s with
  | [], _ => true
  | _ :: _, [] => false
  | p :: prefix', c :: s' => (p =? c)%N && startsWith prefix' s'
  end.

(** [s.indexOf(pattern)]; [None] stands for [-1]. *)
Fixpoint indexOf (pattern s : text) : option nat :=
  if startsWith pattern s then Some 0
  else match s with
       | [] => None
       | _ :: s' => option_map S (indexOf pattern s')
       end.

(** [s.slice(0, n)] and [s.slice(n)] for [0 <= n]. *)
Definition slice_to (n : nat) (s : text) : text := firstn n s.
Definition slice_from (n : nat) (s : text) : text := skipn n s.

(** [s.split('\n')]: never empty, [''.split('\n')] is [['']]. *)
Fixpoint split_lines (s : text) : list text :=
  match s with
  | [] => [[]]
  | c :: s' =>
      if (c =? LF)%N then [] :: split_lines s'
      else match split_lines s' with
           | [] => [[c]]
           | l :: ls => (c :: l) :: ls
           end
  end.

(** [lines.join('\n')]. *)
Fixpoint join_lines (ls : list text) : text :=
  match ls with
  | [] => []
  | [l] => l
  | l :: ls' => l ++ LF :: join_lines ls'
  end.

Definition is_empty (s : text) : bool :=
  match s with [] => true | _ => false end.

(** Decimal rendering of an integer in a template literal. *)
Fixpoint uint_text (d : Decimal.uint) : text :=
  match d with
  | Decimal.Nil => []
  | Decimal.D0 d => 48%N :: uint_text d
  | Decimal.D1 d => 49%N :: uint_text d
  | Decimal.D2 d => 50%N :: uint_text d
  | Decimal.D3 d => 51%N :: uint_text d
  | Decimal.D4 d => 52%N :: uint_text d
  | Decimal.D5 d => 53%N :: uint_text d
  | Decimal.D6 d => 54%N :: uint_text d
  | Decimal.D7 d => 55%N :: uint_text d
  | Decimal.D8 d => 56%N :: uint_text d
  | Decimal.D9 d => 57%N :: uint_text d
  end.

Definition Z_text (z : Z) : text :=
  match Z.to_int z with
  | Decimal.Pos d => uint_text d
  | Decimal.Neg d => 45%N :: uint_text d
  end.

(** A number that the code only prints.  A template literal prints an
    integer of magnitude below 1e21 in decimal digits; of any other number
    (a fraction, a magnitude from 1e21 on, [NaN], an infinity) the model
    keeps the text it prints. *)
Inductive Number :=
| Integer (z : Z) (below_1e21 : (Z.abs z <? 10 ^ 21)%Z = true)
| Printed (digits : text).

Definition Number_toString (n : Number) : text :=
  match n with
  | Integer z _ => Z_text z
  | Printed digits => digits
  end.

End JS.

Import JS.

(** ** The platform's [TextDecoder] (UTF-8, replacement mode)

    [new TextDecoder()] is the UTF-8 decoder of the Encoding Standard with
    [fatal = false] and [ignoreBOM = false].  The decoder is not code of the
    repository; it is written here after the standard's algorithm, byte by
    byte, because the decode loop relies on its streaming behaviour. *)

Module Encoding.

Record utf8_decoder := {
  code_point : N;
  bytes_seen : N;
  bytes_needed : N;
  lower_boundary : N;
  upper_boundary : N
}.

Definition utf8_fresh : utf8_decoder :=
  {| code_point := 0; bytes_seen := 0; bytes_needed := 0;
     lower_boundary := 128; upper_boundary := 191 |}.

Definition REPLACEMENT : N := 65533%N.
Definition BOM : N := 65279%N.

Definition in_range (lo hi b : N) : bool := ((lo <=? b) && (b <=? hi))%N.

(** The handler when [bytes_needed] is 0: a lead byte. *)
Definition utf8_lead (d : utf8_decoder) (b : N) : utf8_decoder * list N :=
  if in_range 0 127 b then (d, [b])
  else if in_range 194 223 b then
    ({| code_point := N.land b 31; bytes_seen := bytes_seen d;
        bytes_needed := 1;
        lower_boundary := lower_boundary d;
        upper_boundary := upper_boundary d |}, [])
  else if in_range 224 239 b then
    ({| code_point := N.land b 15; bytes_seen := bytes_seen d;
        bytes_needed := 2;
        lower_boundary := if (b =? 224)%N then 160%N else lower_boundary d;
        upper_boundary := if (b =? 237)%N then 159%N else upper_boundary d |},
     [])
  else if in_range 240 244 b then
    ({| code_point := N.land b 7; bytes_seen := bytes_seen d;
        bytes_needed := 3;
        lower_boundary := if (b =? 240)%N then 144%N else lower_boundary d;
        upper_boundary := if (b =? 244)%N then 143%N else upper_boundary d |},
     [])
  else (d, [REPLACEMENT]).

(** One byte through the handler.  A byte outside the expected range ends
    the pending sequence with U+FFFD and is read again as a lead byte. *)
Definition utf8_step (d : utf8_decoder) (b : N) : utf8_decoder * list N :=
  if (bytes_needed d =? 0)%N then utf8_lead d b
  else if negb (in_range (lower_boundary d) (upper_boundary d) b) then
    let '(d', out) := utf8_lead utf8_fresh b in (d', REPLACEMENT :: out)
  else
    let cp := N.lor (N.shiftl (code_point d) 6) (N.land b 63) in
    let seen := (bytes_seen d + 1)%N in
    if (seen =? bytes_needed d)%N then (utf8_fresh, [cp])
    else ({| code_point := cp; bytes_seen := seen;
             bytes_needed := bytes_needed d;
             lower_boundary := 128; upper_boundary := 191 |}, []).

(** End of queue: a pending sequence becomes one U+FFFD. *)
Definition utf8_eof (d : utf8_decoder) : utf8_decoder * list N :=
  if (bytes_needed d =? 0)%N then (d, [])
  else ({| code_point := code_point d; bytes_seen := bytes_seen d;
           bytes_needed := 0;
           lower_boundary := lower_boundary d;
           upper_boundary := upper_boundary d |}, [REPLACEMENT]).

Fixpoint utf8_run (d : utf8_decoder) (input : list N)
  : utf8_decoder * list N :=
  match input with
  | [] => (d, [])
  | b :: rest =>
      let '(d1, out1) := utf8_step d b in
      let '(d2, out2) := utf8_run d1 rest in
      (d2, out1 ++ out2)
  end.

(** Serialising the output queue drops one leading U+FEFF. *)
Fixpoint serialize (seen : bool) (items : list N) : bool * text :=
  match items with
  | [] => (seen, [])
  | c :: rest =>
      if seen then let '(s, out) := serialize true rest in (s, c :: out)
      else if (c =? BOM)%N then serialize true rest
      else let '(s, out) := serialize true rest in (s, c :: out)
  end.

Record TextDecoder := {
  decoder : utf8_decoder;
  BOM_seen : bool;
  do_not_flush : bool
}.

Definition new_TextDecoder : TextDecoder :=
  {| decoder := utf8_fresh; BOM_seen := false; do_not_flush := false |}.

(** [decoder.decode(input, { stream })]; [decoder.decode()] is
    [decode td [] false]. *)
Definition decode (td : TextDecoder) (input : list byte) (stream : bool)
  : TextDecoder * text :=
  let d0 := if do_not_flush td then decoder td else utf8_fresh in
  let seen0 := if do_not_flush td then BOM_seen td else false in
  let '(d1, items1) := utf8_run d0 (map Byte.to_N input) in
  let '(d2, items2) := if stream then (d1, []) else utf8_eof d1 in
  let '(seen, out) := serialize seen0 (items1 ++ items2) in
  ({| decoder := d2; BOM_seen := seen; do_not_flush := stream |}, out).

(** A decoder that is in the middle of a stream, or has not been used. *)
Definition streaming (td : TextDecoder) : Prop :=
  do_not_flush td = true \/ (decoder td = utf8_fresh /\ BOM_seen td = false).

(** The text a stream of chunks decodes to, as the reader loop collects
    it: every chunk in stream mode, then the final flush. *)
Fixpoint decode_chunks (td : TextDecoder) (chunks : list (list byte))
  : TextDecoder * text :=
  match chunks with
  | [] => (td, [])
  | value :: rest =>
      let '(td1, t1) := decode td value true in
      let '(td2, t2) := decode_chunks td1 rest in
      (td2, t1 ++ t2)
  end.

Definition streamed_text (chunks : list (list byte)) : text :=
  let '(td, t) := decode_chunks new_TextDecoder chunks in
  t ++ snd (decode td [] false).

End Encoding.

Import Encoding.

(** ** Transport client: [frontend/lib/api-client.ts] *)

Module ApiClient.

(** A JavaScript [number] that is only stored and passed on (timestamps). *)
Definition number := Z.

Record ChatStreamStartEvent := {
  start_message_id : text;
  start_timestamp : number
}.

Record ChatStreamDeltaEvent := {
  delta_message_id : text;
  delta : text
}.

Record ChatStreamCompleteEvent := {
  complete_message_id : text;
  response : text;
  complete_timestamp : number
}.

(** One invocation of a member of [ChatStreamCallbacks]. *)
Inductive callback :=
| OnStart (event : ChatStreamStartEvent)
| OnDelta (event : ChatStreamDeltaEvent)
| OnComplete (event : ChatStreamCompleteEvent)
| OnError (error : text).

(** What a rejected promise carries: [APIError] (an [Error]), the
    [DOMException] named [AbortError] of an aborted [fetch] or [read], any
    other [Error] (a [TypeError] of a lost connection), or a value that is
    no [Error] at all. *)
Inductive thrown :=
| APIError (message : text)
| AbortError (message : text)
| OtherError (message : text)
| NotAnError.

(** Computations of the decode loop: the callbacks invoked so far, in
    order, and either the exception that ended the computation or its
    value. *)
Definition M (A : Type) : Type := (list callback * (thrown + A))%type.

Definition ret {A} (a : A) : M A := ([], inr a).

Definition throw {A} (e : thrown) : M A := ([], inl e).

Definition invoke (cb : callback) : M unit := ([cb], inr tt).

Definition bind {A B} (m : M A) (f : A -> M B) : M B :=
  match m with
  | (cbs, inl e) => (cbs, inl e)
  | (cbs, inr a) => let '(cbs', r) := f a in (cbs ++ cbs', r)
  end.

Notation "x <- m ;; k" := (bind m (fun x => k))
  (at level 61, m at next level, right associativity).
Notation "m ;;; k" := (bind m (fun _ => k))
  (at level 61, right associativity).

(** The frame delimiter ['\n\n']. *)
Definition delimiter : text := [LF; LF].

Lemma startsWith_length prefix s :
  startsWith prefix s = true -> length prefix <= length s.
Proof.
  revert s. induction prefix as [| p prefix IH]; intros s H; simpl; [lia |].
  destruct s as [| c s]; simpl in H; [discriminate |].
  apply andb_true_iff in H. destruct H as [_ H].
  apply IH in H. simpl. lia.
Qed.

Lemma indexOf_bound pattern s i :
  indexOf pattern s = Some i -> i + length pattern <= length s.
Proof.
  revert i. induction s as [| c s IH]; intros i; simpl.
  - destruct pattern; simpl; [| discriminate].
    intros H. injection H as <-. simpl. lia.
  - destruct (startsWith pattern (c :: s)) eqn:Hsw.
    + intros H. injection H as <-.
      apply startsWith_length in Hsw. simpl in *. lia.
    + destruct (indexOf pattern s) as [j |] eqn:Hj; simpl; [| discriminate].
      intros H. injection H as <-. specialize (IH j eq_refl). lia.
Qed.

(** How a run of the stream call may end, as seen from its callbacks:
    [onError] is invoked last, if at all, and the call is then rejected
    with an [APIError] of the same message. *)
Definition is_OnError (cb : callback) : bool :=
  match cb with OnError _ => true | _ => false end.

Fixpoint error_is_final (cbs : list callback) (rejection : option thrown)
  : bool :=
  match cbs with
  | [] => true
  | OnError m :: rest =>
      match rest with [] => true | _ :: _ => false end &&
      match rejection with
      | Some (APIError m') => text_eqb m m'
      | _ => false
      end
  | _ :: rest => error_is_final rest rejection
  end.

Definition rejection_of {A} (outcome : thrown + A) : option thrown :=
  match outcome with inl e => Some e | inr _ => None end.

(** A computation of the decode loop that ends this way. *)
Definition well_ended {A} (m : M A) : Prop :=
  error_is_final (fst m) (rejection_of (snd m)) = true.

(** *** The frames of a body, said directly *)

(** A text made of frames, each closed by the delimiter, and of what
    follows the last delimiter. *)
Definition framed (frames : list text) (tail : text) : text :=
  concat (map (fun f => f ++ delimiter) frames) ++ tail.

(** A frame that its own delimiter closes: it holds no blank line and does
    not end in a line feed, so that the first delimiter of the frame with its
    delimiter is the one that closes it. *)
Definition unbroken (f : text) : Prop :=
  indexOf delimiter (f ++ [LF]) = None.

Section Decoder.

(** [JSON.parse] and the untyped payload it returns belong to the platform.
    [payload_error p] is the value of [p?.error] when it is truthy,
    [payload_detail p] that of [p.detail]; the [as_] functions are the
    unchecked casts [payload as ChatStream...Event]. *)
Variable payload : Type.
Variable JSON_parse : text -> option payload.
Variable payload_error : payload -> option text.
Variable payload_detail : payload -> option text.
Variable as_start : payload -> ChatStreamStartEvent.
Variable as_delta : payload -> ChatStreamDeltaEvent.
Variable as_complete : payload -> ChatStreamCompleteEvent.

(** The [for] loop over the lines of a frame: the pair is
    [(eventName, dataLines)]. *)
Definition scan_line (acc : text * list text) (rawLine : text)
  : text * list text :=
  let line := trimEnd rawLine in
  if is_empty line || startsWith (txt ":") line then acc
  else if startsWith (txt "event:") line then
    (trim (slice_from 6 line), snd acc)
  else if startsWith (txt "data:") line then
    (fst acc, snd acc ++ [trim (slice_from 5 line)])
  else acc.

Definition processSSEEvent (rawEvent : text) : M unit :=
  let lines := split_lines rawEvent in
  let '(eventName, dataLines) :=
    fold_left scan_line lines (txt "message", []) in
  match dataLines with
  | [] => ret tt
  | _ :: _ =>
      match JSON_parse (join_lines dataLines) with
      | None =>
          invoke (OnError (txt "Failed to parse stream payload")) ;;;
          throw (APIError (txt "Failed to parse stream payload"))
      | Some p =>
          if text_eqb eventName (txt "chat_start") then
            invoke (OnStart (as_start p))
          else if text_eqb eventName (txt "chat_delta") then
            invoke (OnDelta (as_delta p))
          else if text_eqb eventName (txt "chat_complete") then
            invoke (OnComplete (as_complete p))
          else if text_eqb eventName (txt "error") then
            let message :=
              match payload_error p with
              | Some e => e
              | None => txt "Stream error occurred"
              end in
            invoke (OnError message) ;;; throw (APIError message)
          else ret tt
      end
  end.

(** The inner [while (boundaryIndex !== -1)] loop on the buffer; its value
    is the buffer that is left. *)
Equations? drain (buffer : text) : M text by wf (length buffer) lt :=
  drain buffer with inspect (indexOf delimiter buffer) => {
    | exist _ None _ => ret buffer
    | exist _ (Some boundaryIndex) Hidx =>
        let rawEvent := trim (slice_to boundaryIndex buffer) in
        (if is_empty rawEvent then ret tt else processSSEEvent rawEvent) ;;;
        drain (slice_from (boundaryIndex + 2) buffer) }.
Proof.
  apply indexOf_bound in Hidx. simpl in Hidx.
  unfold slice_from. rewrite length_skipn. lia.
Qed.

(** The outer [while (true)] loop: one iteration per chunk the reader
    delivers.  Its value is what the code after the loop reads: the decoder
    and the buffer. *)
Fixpoint read_loop (decoder : TextDecoder) (buffer : text)
    (chunks : list (list byte)) : M (TextDecoder * text) :=
  match chunks with
  | [] => ret (decoder, buffer)
  | value :: rest =>
      let '(decoder', decoded) := decode decoder value true in
      buffer' <- drain (buffer ++ decoded) ;;
      read_loop decoder' buffer' rest
  end.

(** A response body as the reader delivers it: the chunks, then either
    [done] ([closing = None]) or a rejected [read()]. *)
Record body := {
  chunks : list (list byte);
  closing : option thrown
}.

(** From [response.body.getReader()] to the end of
    [sendChatMessageStream]. *)
Definition decode_body (b : body) : M unit :=
  st <- read_loop new_TextDecoder [] (chunks b) ;;
  match closing b with
  | Some e => throw e
  | None =>
      let '(decoder, buffer) := st in
      let tail := trim (buffer ++ snd (decode decoder [] false)) in
      if is_empty tail then ret tt else processSSEEvent tail
  end.

(** One frame dispatched: trimmed, and passed over when nothing is left of
    it. *)
Definition dispatch_frame (rawEvent : text) : M unit :=
  let rawEvent' := trim rawEvent in
  if is_empty rawEvent' then ret tt else processSSEEvent rawEvent'.

(** Frames dispatched one after the other, up to the first that throws. *)
Fixpoint dispatch_frames (frames : list text) : M unit :=
  match frames with
  | [] => ret tt
  | f :: rest => dispatch_frame f ;;; dispatch_frames rest
  end.

(** What [fetch] gives [sendChatMessageStream]. *)
Inductive fetch_outcome :=
| FetchRejected (e : thrown)
| NotOk (status : N) (statusText : text) (errorData : option payload)
| NoBody
| Streaming (b : body).

Definition first_truthy (a b : option text) (c : text) : text :=
  match a, b with
  | Some x, _ => x
  | None, Some y => y
  | None, None => c
  end.

Definition sendChatMessageStream (r : fetch_outcome) : M unit :=
  match r with
  | FetchRejected e => throw e
  | NotOk status statusText errorData =>
      let errorMessage :=
        txt "HTTP " ++ Z_text (Z.of_N status) ++ txt ": " ++ statusText in
      throw (APIError
               match errorData with
               | Some d =>
                   first_truthy (payload_error d) (payload_detail d)
                     errorMessage
               | None => errorMessage
               end)
  | NoBody => throw (APIError (txt "Streaming response body not available"))
  | Streaming b => decode_body b
  end.

End Decoder.

End ApiClient.

(** ** The hook: [frontend/hooks/use-procurement-analysis.ts] *)

Module Hook.

Import ApiClient.

(** *** Types of [@/types/procurement] *)

Inductive SimulationState :=
| idle | uploading | thinking | verdict | generating | complete.

Inductive ThinkingLogStatus := log_pending | log_active | log_complete.

Record ThinkingLog := {
  log_id : text;
  agent : text;
  log_message : text;
  log_timestamp : number;
  log_status : ThinkingLogStatus
}.

(** The parsed payload of a [thinking_log] event: the fields the handler
    reads, and one it does not copy. *)
Record ThinkingLogEvent := {
  ev_id : text;
  ev_agent : text;
  ev_message : text;
  ev_timestamp : number;
  ev_status : ThinkingLogStatus;
  ev_delay : option number
}.

Inductive FindingSeverity := high | medium | low.

Record Finding := {
  category : text;
  items : list text;
  severity : FindingSeverity
}.

Inductive VerdictStatus := PASS | FAIL.

Record VerdictData := {
  verdict_status : VerdictStatus;
  title : text;
  findings : list Finding;
  confidence : Number
}.

Inductive MessageType := type_user | type_ai | type_thinking | type_verdict.

Record Message := {
  msg_id : text;
  msg_type : MessageType;
  msg_content : option text;
  fileName : option text;
  msg_timestamp : number
}.

Inductive Role := user | assistant.

Record ChatMessage := {
  id : text;
  role : Role;
  content : text;
  timestamp : number
}.

Record File := { name : text }.

(** The [EventSource] of a thread and the [AbortController] of a chat
    request; the hook only holds, closes and aborts them. *)
Record EventSource := { stream_thread : text }.

Inductive AbortController := NewAbortController.

Record AnalyzeResponse := { thread_id : text; analyze_status : text }.

Record ReviewResponse := { review_status : text; gamma_link : option text }.

(** *** State cells and refs of [useProcurementAnalysis] *)

Record HookState := {
  state : SimulationState;
  thinkingLogs : list ThinkingLog;
  verdictData : option VerdictData;
  messages : list Message;
  chatMessages : list ChatMessage;
  showSplitView : bool;
  gammaLink : option text;
  error : option text;
  isConnected : bool;
  isChatLoading : bool;
  isChatInFlight : bool;
  eventSourceRef : option EventSource;
  threadIdRef : option text;
  chatAbortControllerRef : option AbortController;
  activeChatMessageIdRef : option text
}.

Definition setState (v : SimulationState) (s : HookState) : HookState :=
  {| state := v;
     thinkingLogs := thinkingLogs s;
     verdictData := verdictData s;
     messages := messages s;
     chatMessages := chatMessages s;
     showSplitView := showSplitView s;
     gammaLink := gammaLink s;
     error := error s;
     isConnected := isConnected s;
     isChatLoading := isChatLoading s;
     isChatInFlight := isChatInFlight s;
     eventSourceRef := eventSourceRef s;
     threadIdRef := threadIdRef s;
     chatAbortControllerRef := chatAbortControllerRef s;
     activeChatMessageIdRef := activeChatMessageIdRef s |}.

Definition setThinkingLogs (v : list ThinkingLog) (s : HookState) : HookState :=
  {| state := state s;
     thinkingLogs := v;
     verdictData := verdictData s;
     messages := messages s;
     chatMessages := chatMessages s;
     showSplitView := showSplitView s;
     gammaLink := gammaLink s;
     error := error s;
     isConnected := isConnected s;
     isChatLoading := isChatLoading s;
     isChatInFlight := isChatInFlight s;
     eventSourceRef := eventSourceRef s;
     threadIdRef := threadIdRef s;
     chatAbortControllerRef := chatAbortControllerRef s;
     activeChatMessageIdRef := activeChatMessageIdRef s |}.

Definition setVerdictData (v : option VerdictData)
    (s : HookState) : HookState :=
  {| state := state s;
     thinkingLogs := thinkingLogs s;
     verdictData := v;
     messages := messages s;
     chatMessages := chatMessages s;
     showSplitView := showSplitView s;
     gammaLink := gammaLink s;
     error := error s;
     isConnected := isConnected s;
     isChatLoading := isChatLoading s;
     isChatInFlight := isChatInFlight s;
     eventSourceRef := eventSourceRef s;
     threadIdRef := threadIdRef s;
     chatAbortControllerRef := chatAbortControllerRef s;
     activeChatMessageIdRef := activeChatMessageIdRef s |}.

Definition setMessages (v : list Message) (s : HookState) : HookState :=
  {| state := state s;
     thinkingLogs := thinkingLogs s;
     verdictData := verdictData s;
     messages := v;
     chatMessages := chatMessages s;
     showSplitView := showSplitView s;
     gammaLink := gammaLink s;
     error := error s;
     isConnected := isConnected s;
     isChatLoading := isChatLoading s;
     isChatInFlight := isChatInFlight s;
     eventSourceRef := eventSourceRef s;
     threadIdRef := threadIdRef s;
     chatAbortControllerRef := chatAbortControllerRef s;
     activeChatMessageIdRef := activeChatMessageIdRef s |}.

Definition setChatMessages (v : list ChatMessage) (s : HookState) : HookState :=
  {| state := state s;
     thinkingLogs := thinkingLogs s;
     verdictData := verdictData s;
     messages := messages s;
     chatMessages := v;
     showSplitView := showSplitView s;
     gammaLink := gammaLink s;
     error := error s;
     isConnected := isConnected s;
     isChatLoading := isChatLoading s;
     isChatInFlight := isChatInFlight s;
     eventSourceRef := eventSourceRef s;
     threadIdRef := threadIdRef s;
     chatAbortControllerRef := chatAbortControllerRef s;
     activeChatMessageIdRef := activeChatMessageIdRef s |}.

Definition setShowSplitView (v : bool) (s : HookState) : HookState :=
  {| state := state s;
     thinkingLogs := thinkingLogs s;
     verdictData := verdictData s;
     messages := messages s;
     chatMessages := chatMessages s;
     showSplitView := v;
     gammaLink := gammaLink s;
     error := error s;
     isConnected := isConnected s;
     isChatLoading := isChatLoading s;
     isChatInFlight := isChatInFlight s;
     eventSourceRef := eventSourceRef s;
     threadIdRef := threadIdRef s;
     chatAbortControllerRef := chatAbortControllerRef s;
     activeChatMessageIdRef := activeChatMessageIdRef s |}.

Definition setGammaLink (v : option text) (s : HookState) : HookState :=
  {| state := state s;
     thinkingLogs := thinkingLogs s;
     verdictData := verdictData s;
     messages := messages s;
     chatMessages := chatMessages s;
     showSplitView := showSplitView s;
     gammaLink := v;
     error := error s;
     isConnected := isConnected s;
     isChatLoading := isChatLoading s;
     isChatInFlight := isChatInFlight s;
     eventSourceRef := eventSourceRef s;
     threadIdRef := threadIdRef s;
     chatAbortControllerRef := chatAbortControllerRef s;
     activeChatMessageIdRef := activeChatMessageIdRef s |}.

Definition setError (v : option text) (s : HookState) : HookState :=
  {| state := state s;
     thinkingLogs := thinkingLogs s;
     verdictData := verdictData s;
     messages := messages s;
     chatMessages := chatMessages s;
     showSplitView := showSplitView s;
     gammaLink := gammaLink s;
     error := v;
     isConnected := isConnected s;
     isChatLoading := isChatLoading s;
     isChatInFlight := isChatInFlight s;
     eventSourceRef := eventSourceRef s;
     threadIdRef := threadIdRef s;
     chatAbortControllerRef := chatAbortControllerRef s;
     activeChatMessageIdRef := activeChatMessageIdRef s |}.

Definition setIsConnected (v : bool) (s : HookState) : HookState :=
  {| state := state s;
     thinkingLogs := thinkingLogs s;
     verdictData := verdictData s;
     messages := messages s;
     chatMessages := chatMessages s;
     showSplitView := showSplitView s;
     gammaLink := gammaLink s;
     error := error s;
     isConnected := v;
     isChatLoading := isChatLoading s;
     isChatInFlight := isChatInFlight s;
     eventSourceRef := eventSourceRef s;
     threadIdRef := threadIdRef s;
     chatAbortControllerRef := chatAbortControllerRef s;
     activeChatMessageIdRef := activeChatMessageIdRef s |}.

Definition setIsChatLoading (v : bool) (s : HookState) : HookState :=
  {| state := state s;
     thinkingLogs := thinkingLogs s;
     verdictData := verdictData s;
     messages := messages s;
     chatMessages := chatMessages s;
     showSplitView := showSplitView s;
     gammaLink := gammaLink s;
     error := error s;
     isConnected := isConnected s;
     isChatLoading := v;
     isChatInFlight := isChatInFlight s;
     eventSourceRef := eventSourceRef s;
     threadIdRef := threadIdRef s;
     chatAbortControllerRef := chatAbortControllerRef s;
     activeChatMessageIdRef := activeChatMessageIdRef s |}.

Definition setIsChatInFlight (v : bool) (s : HookState) : HookState :=
  {| state := state s;
     thinkingLogs := thinkingLogs s;
     verdictData := verdictData s;
     messages := messages s;
     chatMessages := chatMessages s;
     showSplitView := showSplitView s;
     gammaLink := gammaLink s;
     error := error s;
     isConnected := isConnected s;
     isChatLoading := isChatLoading s;
     isChatInFlight := v;
     eventSourceRef := eventSourceRef s;
     threadIdRef := threadIdRef s;
     chatAbortControllerRef := chatAbortControllerRef s;
     activeChatMessageIdRef := activeChatMessageIdRef s |}.

Definition set_eventSourceRef (v : option EventSource)
    (s : HookState) : HookState :=
  {| state := state s;
     thinkingLogs := thinkingLogs s;
     verdictData := verdictData s;
     messages := messages s;
     chatMessages := chatMessages s;
     showSplitView := showSplitView s;
     gammaLink := gammaLink s;
     error := error s;
     isConnected := isConnected s;
     isChatLoading := isChatLoading s;
     isChatInFlight := isChatInFlight s;
     eventSourceRef := v;
     threadIdRef := threadIdRef s;
     chatAbortControllerRef := chatAbortControllerRef s;
     activeChatMessageIdRef := activeChatMessageIdRef s |}.

Definition set_threadIdRef (v : option text) (s : HookState) : HookState :=
  {| state := state s;
     thinkingLogs := thinkingLogs s;
     verdictData := verdictData s;
     messages := messages s;
     chatMessages := chatMessages s;
     showSplitView := showSplitView s;
     gammaLink := gammaLink s;
     error := error s;
     isConnected := isConnected s;
     isChatLoading := isChatLoading s;
     isChatInFlight := isChatInFlight s;
     eventSourceRef := eventSourceRef s;
     threadIdRef := v;
     chatAbortControllerRef := chatAbortControllerRef s;
     activeChatMessageIdRef := activeChatMessageIdRef s |}.

Definition set_chatAbortControllerRef (v : option AbortController)
    (s : HookState) : HookState :=
  {| state := state s;
     thinkingLogs := thinkingLogs s;
     verdictData := verdictData s;
     messages := messages s;
     chatMessages := chatMessages s;
     showSplitView := showSplitView s;
     gammaLink := gammaLink s;
     error := error s;
     isConnected := isConnected s;
     isChatLoading := isChatLoading s;
     isChatInFlight := isChatInFlight s;
     eventSourceRef := eventSourceRef s;
     threadIdRef := threadIdRef s;
     chatAbortControllerRef := v;
     activeChatMessageIdRef := activeChatMessageIdRef s |}.

Definition set_activeChatMessageIdRef (v : option text)
    (s : HookState) : HookState :=
  {| state := state s;
     thinkingLogs := thinkingLogs s;
     verdictData := verdictData s;
     messages := messages s;
     chatMessages := chatMessages s;
     showSplitView := showSplitView s;
     gammaLink := gammaLink s;
     error := error s;
     isConnected := isConnected s;
     isChatLoading := isChatLoading s;
     isChatInFlight := isChatInFlight s;
     eventSourceRef := eventSourceRef s;
     threadIdRef := threadIdRef s;
     chatAbortControllerRef := chatAbortControllerRef s;
     activeChatMessageIdRef := v |}.

Definition initial : HookState :=
  {| state := idle; thinkingLogs := []; verdictData := None; messages := [];
     chatMessages := []; showSplitView := false; gammaLink := None;
     error := None; isConnected := false; isChatLoading := false;
     isChatInFlight := false; eventSourceRef := None; threadIdRef := None;
     chatAbortControllerRef := None; activeChatMessageIdRef := None |}.

(** The request an operation is suspended on at its [await]. *)
Inductive request :=
| UploadDocuments (files : list File)
| SubmitReview (threadId : text) (generateGamma : bool)
| ChatStream (threadId : text) (query : text).

(** [!ref.current] for a ref of type [string | null]: true for [null]
    and for the empty string; otherwise the string is at hand. *)
Definition present (r : option text) : option text :=
  match r with
  | Some (c :: t) => Some (c :: t)
  | _ => None
  end.

(** [err instanceof Error ? err.message : fallback]. *)
Definition message_of (fallback : text) (err : thrown) : text :=
  match err with
  | APIError m => m
  | AbortError m => m
  | OtherError m => m
  | NotAnError => fallback
  end.

Definition closeEventSource (s : HookState) : HookState :=
  match eventSourceRef s with
  | Some _ => setIsConnected false (set_eventSourceRef None s)
  | None => s
  end.

(** [abort()] reaches the network: the pending chat request rejects with
    an [AbortError]. *)
Definition closeChatStream (s : HookState) : HookState :=
  let s1 := match chatAbortControllerRef s with
            | Some _ => set_chatAbortControllerRef None s
            | None => s
            end in
  setIsChatInFlight false
    (setIsChatLoading false (set_activeChatMessageIdRef None s1)).

Definition reset (s : HookState) : HookState :=
  set_threadIdRef None
    (setError None
      (setGammaLink None
        (setShowSplitView false
          (setChatMessages []
            (setMessages []
              (setVerdictData None
                (setThinkingLogs []
                  (setState idle (closeChatStream (closeEventSource s)))))))))).

(** *** [uploadFiles] *)

(** Up to [await apiClient.uploadDocuments(files)].  [now] is
    [Date.now()], read at one instant for the id and the timestamp. *)
Definition uploadFiles_call (files : list File) (now : Z) (s : HookState)
  : HookState * option request :=
  let s1 := setError None s in
  match files with
  | [] => (setError (Some (txt "No PDF files selected")) s1, None)
  | firstFile :: _ =>
      let hasMore := (1 <? length files)%nat in
      let userMessage :=
        {| msg_id := txt "msg-" ++ Z_text now ++ txt "-user";
           msg_type := type_user;
           msg_content :=
             Some (if hasMore
                   then txt "Please analyze these procurement documents ("
                        ++ Z_text (Z.of_nat (length files)) ++ txt " files)"
                   else txt "Please analyze this procurement document");
           fileName :=
             Some (if hasMore
                   then name firstFile ++ txt " +"
                        ++ Z_text (Z.of_nat (length files) - 1) ++ txt " more"
                   else name firstFile);
           msg_timestamp := now |} in
      (setState uploading (setMessages [userMessage] s1),
       Some (UploadDocuments files))
  end.

(** After the upload resolved: the thread id is stored, the stream is
    connected and its handlers (below) are registered. *)
Definition uploadFiles_resolved (r : AnalyzeResponse) (s : HookState)
  : HookState :=
  setIsConnected true
    (set_eventSourceRef (Some {| stream_thread := thread_id r |})
      (setState thinking (set_threadIdRef (Some (thread_id r)) s))).

Definition uploadFiles_rejected (err : thrown) (s : HookState) : HookState :=
  setState idle (setError (Some (message_of (txt "Upload failed") err)) s).

(** An entry of that id is in the progress log. *)
Definition known (log_id' : text) (s : HookState) : bool :=
  existsb (fun l => text_eqb (log_id l) log_id') (thinkingLogs s).

(** The handlers given to [connectToStream]. *)
Definition onThinkingLog (log : ThinkingLogEvent) (s : HookState)
  : HookState :=
  let thinkingLog :=
    {| log_id := ev_id log; agent := ev_agent log;
       log_message := ev_message log; log_timestamp := ev_timestamp log;
       log_status := ev_status log |} in
  let prev := thinkingLogs s in
  setThinkingLogs
    (if existsb (fun l => text_eqb (log_id l) (ev_id log)) prev then prev
     else prev ++ [thinkingLog])
    s.

(** The [thinking_log] events of a stream, handled in arrival order. *)
Definition deliver_logs (logs : list ThinkingLogEvent) (s : HookState)
  : HookState :=
  fold_left (fun s' log => onThinkingLog log s') logs s.

Definition onStreamComplete (s : HookState) : HookState := closeEventSource s.

Definition onGammaLink (link : text) (s : HookState) : HookState :=
  setGammaLink (Some link) s.

Definition onStreamError (errorMsg : text) (s : HookState) : HookState :=
  closeEventSource (setState idle (setError (Some errorMsg) s)).

(** *** [generateReport] and [declineReport] *)

Definition generateReport_call (s : HookState) : HookState * option request :=
  match present (threadIdRef s) with
  | None => (setError (Some (txt "No analysis session found")) s, None)
  | Some threadId =>
      (setShowSplitView true (setState generating s),
       Some (SubmitReview threadId true))
  end.

Definition generateReport_resolved (r : ReviewResponse) (s : HookState)
  : HookState :=
  setState complete
    match present (gamma_link r) with
    | Some link => setGammaLink (Some link) s
    | None => s
    end.

Definition generateReport_rejected (err : thrown) (s : HookState)
  : HookState :=
  setState verdict
    (setError (Some (message_of (txt "Failed to generate report") err)) s).

(** The whole call against the outcome of [submitReview]. *)
Definition generateReport (outcome : thrown + ReviewResponse) (s : HookState)
  : HookState :=
  match generateReport_call s with
  | (s1, None) => s1
  | (s1, Some _) =>
      match outcome with
      | inr r => generateReport_resolved r s1
      | inl err => generateReport_rejected err s1
      end
  end.

Definition declineReport_call (s : HookState) : HookState * option request :=
  match present (threadIdRef s) with
  | None => (setError (Some (txt "No analysis session found")) s, None)
  | Some threadId => (s, Some (SubmitReview threadId false))
  end.

Definition declineReport_resolved (r : ReviewResponse) (s : HookState)
  : HookState :=
  setState complete s.

Definition declineReport_rejected (err : thrown) (s : HookState)
  : HookState :=
  setError (Some (message_of (txt "Failed to submit review") err)) s.

Definition declineReport (outcome : thrown + ReviewResponse) (s : HookState)
  : HookState :=
  match declineReport_call s with
  | (s1, None) => s1
  | (s1, Some _) =>
      match outcome with
      | inr r => declineReport_resolved r s1
      | inl err => declineReport_rejected err s1
      end
  end.

(** *** [sendChatMessage] *)

(** A chat turn while its stream is open: the hook state and the local
    variable [streamFinished] of the call. *)
Record Turn := {
  hook : HookState;
  streamFinished : bool
}.

Definition on_hook (f : HookState -> HookState) (t : Turn) : Turn :=
  {| hook := f (hook t); streamFinished := streamFinished t |}.

Definition finish (t : Turn) : Turn :=
  {| hook := hook t; streamFinished := true |}.

(** Up to [await apiClient.sendChatMessageStream(...)].  The guard reads
    [isChatInFlight] from the closure of the callback and not from the
    state: [inFlight] is the value of the render that made the function the
    caller holds.  The callback is made anew when the value changes (its
    dependency list), so the function of the latest render has the value of
    the state, [rendered]; a reference taken at an earlier render, or used
    again before the next one, has the earlier value.  The thread id is a
    ref and is read where the call runs. *)
Definition sendChatMessage_call (inFlight : bool) (message : text) (now : Z)
    (s : HookState) : HookState * option request :=
  match present (threadIdRef s) with
  | None => (setError (Some (txt "No analysis session found")) s, None)
  | Some threadId =>
      if inFlight then (s, None)
      else
        let userChatMessage :=
          {| id := txt "chat-" ++ Z_text now ++ txt "-user";
             role := user; content := message; timestamp := now |} in
        (set_chatAbortControllerRef (Some NewAbortController)
           (setIsChatInFlight true
             (setIsChatLoading true
               (setChatMessages (chatMessages s ++ [userChatMessage])
                 (setError None s)))),
         Some (ChatStream threadId message))
  end.

(** [activeChatMessageIdRef.current !== message_id], negated. *)
Definition is_active (message_id : text) (s : HookState) : bool :=
  match activeChatMessageIdRef s with
  | Some a => text_eqb a message_id
  | None => false
  end.

Definition has_id (message_id : text) (chatMessage : ChatMessage) : bool :=
  text_eqb (id chatMessage) message_id.

Definition onStart (event : ChatStreamStartEvent) (t : Turn) : Turn :=
  on_hook (set_activeChatMessageIdRef (Some (start_message_id event))) t.

Definition onDelta (event : ChatStreamDeltaEvent) (now : Z) (t : Turn)
  : Turn :=
  let message_id := delta_message_id event in
  if negb (is_active message_id (hook t)) then t
  else
    let prev := chatMessages (hook t) in
    let messageExists := existsb (has_id message_id) prev in
    if negb messageExists then
      if is_empty (trim (delta event)) then t
      else
        on_hook
          (fun s =>
             setChatMessages
               (prev ++ [{| id := message_id; role := assistant;
                            content := delta event; timestamp := now |}])
               (setIsChatLoading false s))
          t
    else
      on_hook
        (fun s =>
           setChatMessages
             (map (fun chatMessage =>
                     if has_id message_id chatMessage
                     then {| id := id chatMessage; role := role chatMessage;
                             content := content chatMessage ++ delta event;
                             timestamp := timestamp chatMessage |}
                     else chatMessage)
                  prev)
             (setIsChatLoading false s))
        t.

Definition onComplete (event : ChatStreamCompleteEvent) (t : Turn) : Turn :=
  let message_id := complete_message_id event in
  if negb (is_active message_id (hook t)) then t
  else
    let prev := chatMessages (hook t) in
    let messageExists := existsb (has_id message_id) prev in
    let next :=
      if negb messageExists then
        prev ++ [{| id := message_id; role := assistant;
                    content := response event;
                    timestamp := complete_timestamp event |}]
      else
        map (fun chatMessage =>
               if has_id message_id chatMessage
               then {| id := id chatMessage; role := role chatMessage;
                       content := response event;
                       timestamp := complete_timestamp event |}
               else chatMessage)
            prev in
    finish
      (on_hook
         (fun s =>
            setIsChatInFlight false
              (setIsChatLoading false
                (set_activeChatMessageIdRef None (setChatMessages next s))))
         t).

Definition onError (errorMsg : text) (t : Turn) : Turn :=
  finish
    (on_hook
       (fun s =>
          setIsChatInFlight false
            (setIsChatLoading false
              (set_activeChatMessageIdRef None (setError (Some errorMsg) s))))
       t).

(** One callback of the stream reaching the hook at time [now]. *)
Definition deliver (now : Z) (cb : callback) (t : Turn) : Turn :=
  match cb with
  | OnStart event => onStart event t
  | OnDelta event => onDelta event now t
  | OnComplete event => onComplete event t
  | OnError errorMsg => onError errorMsg t
  end.

Fixpoint deliver_all (trace : list (Z * callback)) (t : Turn) : Turn :=
  match trace with
  | [] => t
  | (now, cb) :: rest => deliver_all rest (deliver now cb t)
  end.

(** After the [await]: the stream call resolved ([inr tt]) or rejected;
    then the [finally] block. *)
Definition sendChatMessage_settle (outcome : thrown + unit) (t : Turn)
  : HookState :=
  let s := hook t in
  set_chatAbortControllerRef None
    match outcome with
    | inr _ =>
        if negb (streamFinished t) then
          setIsChatInFlight false
            (setIsChatLoading false (set_activeChatMessageIdRef None s))
        else s
    | inl (AbortError _) => s
    | inl err =>
        set_activeChatMessageIdRef None
          (setIsChatInFlight false
            (setIsChatLoading false
              (setError (Some (message_of (txt "Failed to send message") err))
                 s)))
    end.

(** A whole call of [sendChatMessage] against what the stream does:
    the callbacks it invokes, with their times, and how it ends.  This is the
    turn by itself: what other operations of the hook do to the state while
    the call is suspended is not part of it.  An [AbortError] comes from
    [closeChatStream], the only place that aborts the controller. *)
Definition sendChatMessage (inFlight : bool) (message : text) (now : Z)
    (trace : list (Z * callback)) (outcome : thrown + unit) (s : HookState)
  : HookState :=
  match sendChatMessage_call inFlight message now s with
  | (s1, None) => s1
  | (s1, Some _) =>
      sendChatMessage_settle outcome
        (deliver_all trace {| hook := s1; streamFinished := false |})
  end.

(** *** What is observed of a turn *)

(** A [chat_complete] got past the guard of [onComplete] and finalized the
    entry of its message id. *)
Fixpoint finalized (trace : list (Z * callback)) (t : Turn) : bool :=
  match trace with
  | [] => false
  | (now, cb) :: rest =>
      match cb with
      | OnComplete event => is_active (complete_message_id event) (hook t)
      | _ => false
      end
      || finalized rest (deliver now cb t)
  end.

Definition is_some {A} (o : option A) : bool :=
  match o with Some _ => true | None => false end.

(** The [catch] block returned on an [AbortError] without a word. *)
Definition cancelled (outcome : thrown + unit) : bool :=
  match outcome with
  | inl (AbortError _) => true
  | _ => false
  end.

Definition exactly_one (a b c : bool) : bool :=
  (a && negb b && negb c) || (negb a && b && negb c)
  || (negb a && negb b && c).

Definition rejected (outcome : thrown + unit) : bool :=
  match outcome with inl _ => true | inr _ => false end.

(** Rejected, and not by an abort: the [catch] block sets the error. *)
Definition failed (outcome : thrown + unit) : bool :=
  rejected outcome && negb (cancelled outcome).

(** What the closure of [sendChatMessage] holds when the function is the one
    the render of [s] returned. *)
Definition rendered (s : HookState) : bool := isChatInFlight s.

Definition turn_started (inFlight : bool) (message : text) (now : Z)
    (s : HookState) : bool :=
  is_some (snd (sendChatMessage_call inFlight message now s)).

(** What the turn started by [sendChatMessage_call] looks like when the
    call has settled: was an entry finalized, is the error set, was the turn
    cancelled. *)
Definition turn_observed (inFlight : bool) (message : text) (now : Z)
    (trace : list (Z * callback)) (outcome : thrown + unit) (s : HookState)
  : bool * bool * bool :=
  (finalized trace
     {| hook := fst (sendChatMessage_call inFlight message now s);
        streamFinished := false |},
   is_some (error (sendChatMessage inFlight message now trace outcome s)),
   cancelled outcome).

(** Terminal exclusivity as the specification words it. *)
Definition terminal_exclusivity (inFlight : bool) (message : text)
    (now : Z) (trace : list (Z * callback)) (outcome : thrown + unit)
    (s : HookState) : Prop :=
  turn_started inFlight message now s = true ->
  let '(f, e, c) := turn_observed inFlight message now trace outcome s in
  exactly_one f e c = true.

(** The first-delta rule as the specification words it: with no entry of
    that id yet, an entry is there afterwards exactly when the delta is not
    the empty string. *)
Definition first_delta_rule (event : ChatStreamDeltaEvent) (now : Z)
    (t : Turn) : Prop :=
  is_active (delta_message_id event) (hook t) = true ->
  existsb (has_id (delta_message_id event)) (chatMessages (hook t)) = false ->
  (existsb (has_id (delta_message_id event))
     (chatMessages (hook (onDelta event now t))) = true
   <-> delta event <> []).

End Hook.

(** ** The rest of the hook *)

Module HookRest.

Import ApiClient Hook.

Definition status_text (st : VerdictStatus) : text :=
  match st with PASS => txt "PASS" | FAIL => txt "FAIL" end.

(** [parts.join(separator)]. *)
Fixpoint join (separator : text) (parts : list text) : text :=
  match parts with
  | [] => []
  | [p] => p
  | p :: rest => p ++ separator ++ join separator rest
  end.

(** [filter(Boolean)] on strings keeps the non-empty ones. *)
Definition truthy (s : text) : bool := negb (is_empty s).

(** The status and the confidence go into the template literal as they
    are: the confidence is a number, printed by [Number::toString]. *)
Definition buildVerdictIntroMessage (verdict : VerdictData) : text :=
  let topCategories :=
    filter truthy (map category (firstn 2 (findings verdict))) in
  let categoryText :=
    match topCategories with
    | [] => txt "I can walk you through the key findings."
    | _ :: _ =>
        txt "Key risk areas: " ++ join (txt " and ") topCategories ++ txt "."
    end in
  txt "Analysis complete: " ++ status_text (verdict_status verdict)
  ++ txt " with " ++ Number_toString (confidence verdict)
  ++ txt "% confidence. "
  ++ categoryText ++ txt " Which part should we review first?".

(** The [onVerdict] handler given to [connectToStream]; [now] is
    [Date.now()]. *)
Definition onVerdict (verdict : VerdictData) (now : Z) (s : HookState)
  : HookState :=
  let introMessage :=
    {| id := txt "chat-" ++ Z_text now ++ txt "-verdict-intro";
       role := assistant;
       content := buildVerdictIntroMessage verdict;
       timestamp := now |} in
  setChatMessages (chatMessages s ++ [introMessage])
    (setShowSplitView true
      (setState Hook.verdict (setVerdictData (Some verdict) s))).

Definition closeSplitView (s : HookState) : HookState :=
  setShowSplitView false s.

(** The cleanup of the effect that runs on unmount. *)
Definition unmount (s : HookState) : HookState :=
  closeChatStream (closeEventSource s).

(** The [catch] block of [uploadFiles] when [connectToStream] itself
    throws: the thread id is stored and the state is [thinking] by then. *)
Definition uploadFiles_connect_failed (r : AnalyzeResponse) (err : thrown)
    (s : HookState) : HookState :=
  uploadFiles_rejected err
    (setState thinking (set_threadIdRef (Some (thread_id r)) s)).

(** A whole call of [uploadFiles] against the outcome of the upload. *)
Definition uploadFiles (files : list File) (now : Z)
    (outcome : thrown + AnalyzeResponse) (s : HookState) : HookState :=
  match uploadFiles_call files now s with
  | (s1, None) => s1
  | (s1, Some _) =>
      match outcome with
      | inr r => uploadFiles_resolved r s1
      | inl err => uploadFiles_rejected err s1
      end
  end.

End HookRest.

(** ** The plain calls: [handleResponse] and the calls built on it *)

Module ApiCalls.

Import JS ApiClient Hook HookRest.

Section HandleResponse.

(** The payload of a response is untyped as in [sendChatMessageStream]:
    [payload_error p] is the value of [p.error] when it is truthy,
    [payload_detail p] that of [p.detail], each as the [Error] constructor
    takes it for its message. *)
Variable payload : Type.
Variables payload_error payload_detail : payload -> option text.

(** A [Response] as [handleResponse] reads it; [json] is what
    [response.json()] settles to. *)
Record Response := {
  ok : bool;
  status : N;
  statusText : text;
  json : thrown + payload
}.

Definition handleResponse (response : Response) : thrown + payload :=
  if negb (ok response) then
    let errorMessage :=
      txt "HTTP " ++ Z_text (Z.of_N (status response)) ++ txt ": "
      ++ statusText response in
    inl (APIError
           match json response with
           | inr errorData =>
               first_truthy (payload_error errorData)
                 (payload_detail errorData) errorMessage
           | inl _ => errorMessage
           end)
  else json response.

(** What follows the [fetch] of [uploadDocuments], [submitReview],
    [sendChatMessage], [getStatus] and [healthCheck]: a rejected [fetch]
    rejects the call, a response goes to [handleResponse]. *)
Definition handled (fetched : thrown + Response) : thrown + payload :=
  match fetched with
  | inl e => inl e
  | inr response => handleResponse response
  end.

(** [handleResponse<T>]: the result is taken for a [T], unchecked. *)
Definition cast {T} (as_T : payload -> T) (r : thrown + payload)
  : thrown + T :=
  match r with
  | inl e => inl e
  | inr p => inr (as_T p)
  end.

Variable as_AnalyzeResponse : payload -> AnalyzeResponse.
Variable as_ReviewResponse : payload -> ReviewResponse.

Definition uploadDocuments (fetched : thrown + Response)
  : thrown + AnalyzeResponse :=
  cast as_AnalyzeResponse (handled fetched).

Definition submitReview (fetched : thrown + Response)
  : thrown + ReviewResponse :=
  cast as_ReviewResponse (handled fetched).

(** The same response when it answers the [fetch] of
    [sendChatMessageStream], which reads a response that is not [ok] by
    itself. *)
Definition not_ok (response : Response) : fetch_outcome payload :=
  NotOk (status response) (statusText response)
    match json response with
    | inr errorData => Some errorData
    | inl _ => None
    end.

End HandleResponse.

End ApiCalls.

(** ** The analysis stream: [connectToStream] *)

Module EventStream.

Import ApiClient Hook HookRest.

(** An event the [EventSource] dispatches: its type (the [event:] field,
    or [error] for a failed connection) and its [data]; the plain [Event] of
    a failed connection has none. *)
Record StreamEvent := {
  event_type : text;
  event_data : option text
}.

(** One invocation of a member of [StreamCallbacks] with an argument of
    its declared type. *)
Inductive stream_callback :=
| OnThinkingLog (log : ThinkingLogEvent)
| OnVerdict (verdict : VerdictData)
| OnStreamComplete
| OnGammaLink (link : text)
| OnStreamError (error : text).

(** What a listener hands to a handler.  The payload it parsed is passed
    on without a check: a payload that is not [null] is taken for a value of
    the handler's parameter type, and [null] is passed as it is, which the
    handlers of [thinking_log] and [verdict] do not expect. *)
Inductive invocation :=
| Typed (cb : stream_callback)
| OnThinkingLog_null
| OnVerdict_null.

(** What a listener did: the handlers it invoked, and whether it called
    [eventSource.close()]. *)
Definition reaction := (list invocation * bool)%type.

Section Listeners.

(** [JSON.parse] and the payload belong to the platform, as for the chat
    stream.  [payload_null p] tells the payload [null], on which a property
    access throws; [payload_link p] is [p.link] when truthy. *)
Variable payload : Type.
Variable JSON_parse : text -> option payload.
Variable payload_null : payload -> bool.
Variable payload_error : payload -> option text.
Variable payload_link : payload -> option text.
Variable as_log : payload -> ThinkingLogEvent.
Variable as_verdict : payload -> VerdictData.

(** [JSON.parse(event.data)]; it throws on [undefined] as on bad text. *)
Definition parse_data (e : StreamEvent) : option payload :=
  match event_data e with
  | Some d => JSON_parse d
  | None => None
  end.

Definition thinking_log_listener (e : StreamEvent) : reaction :=
  match parse_data e with
  | Some log =>
      if payload_null log then ([OnThinkingLog_null], false)
      else ([Typed (OnThinkingLog (as_log log))], false)
  | None => ([], false)
  end.

Definition verdict_listener (e : StreamEvent) : reaction :=
  match parse_data e with
  | Some v =>
      if payload_null v then ([OnVerdict_null], false)
      else ([Typed (OnVerdict (as_verdict v))], false)
  | None => ([], false)
  end.

Definition complete_listener (e : StreamEvent) : reaction :=
  match parse_data e with
  | Some _ => ([Typed OnStreamComplete], true)
  | None => ([], false)
  end.

Definition gamma_link_listener (e : StreamEvent) : reaction :=
  match parse_data e with
  | Some d =>
      if payload_null d then ([], false)
      else match payload_link d with
           | Some link => ([Typed (OnGammaLink link)], false)
           | None => ([], false)
           end
  | None => ([], false)
  end.

(** The listener added for ['error']: always closes. *)
Definition error_listener (e : StreamEvent) : reaction :=
  (match present (event_data e) with
   | Some d =>
       match JSON_parse d with
       | Some errorData =>
           if payload_null errorData then
             [Typed (OnStreamError (txt "Connection error occurred"))]
           else
             [Typed (OnStreamError
                       match payload_error errorData with
                       | Some m => m
                       | None => txt "Stream error occurred"
                       end)]
       | None => [Typed (OnStreamError (txt "Connection error occurred"))]
       end
   | None => [Typed (OnStreamError (txt "Connection error occurred"))]
   end, true).

(** [eventSource.onerror]. *)
Definition onerror (e : StreamEvent) : reaction :=
  ([Typed (OnStreamError (txt "Connection to server lost"))], true).

(** The listeners in the order [connectToStream] registers them. *)
Definition listeners : list (text * (StreamEvent -> reaction)) :=
  [ (txt "thinking_log", thinking_log_listener);
    (txt "verdict", verdict_listener);
    (txt "complete", complete_listener);
    (txt "gamma_link", gamma_link_listener);
    (txt "error", error_listener);
    (txt "error", onerror) ].

(** Dispatching an event runs every listener of its type, in order. *)
Fixpoint run_listeners (ls : list (text * (StreamEvent -> reaction)))
    (e : StreamEvent) : reaction :=
  match ls with
  | [] => ([], false)
  | (ty, l) :: rest =>
      let '(cbs', closed') := run_listeners rest e in
      if text_eqb ty (event_type e) then
        let '(cbs, closed) := l e in (cbs ++ cbs', closed || closed')
      else (cbs', closed')
  end.

Definition dispatch (e : StreamEvent) : reaction := run_listeners listeners e.

(** The handlers [uploadFiles] registers, on the hook state. *)
Definition handle (now : Z) (cb : stream_callback) (s : HookState)
  : HookState :=
  match cb with
  | OnThinkingLog log => onThinkingLog log s
  | OnVerdict v => onVerdict v now s
  | OnStreamComplete => onStreamComplete s
  | OnGammaLink link => onGammaLink link s
  | OnStreamError errorMsg => onStreamError errorMsg s
  end.

(** A handler invoked on the hook state; [None] when the hook does not
    survive it.  [onThinkingLog(null)] throws at [log.id], before it writes
    anything, and the [catch] of the listener takes the [TypeError].
    [onVerdict(null)] returns, but the updater it gave [setChatMessages]
    throws in [buildVerdictIntroMessage] when React runs it: the render that
    was to show the verdict fails, and the hook with it. *)
Definition handle_invocation (now : Z) (i : invocation) (s : HookState)
  : option HookState :=
  match i with
  | Typed cb => Some (handle now cb s)
  | OnThinkingLog_null => Some s
  | OnVerdict_null => None
  end.

Fixpoint handle_all (now : Z) (calls : list invocation) (s : HookState)
  : option HookState :=
  match calls with
  | [] => Some s
  | i :: rest =>
      match handle_invocation now i s with
      | Some s' => handle_all now rest s'
      | None => None
      end
  end.

(** One event of the stream reaching the hook at time [now]. *)
Definition on_event (now : Z) (e : StreamEvent) (s : HookState)
  : option HookState :=
  handle_all now (fst (dispatch e)) s.

(** The events of a stream, until a listener closes it or the hook is
    gone: a closed [EventSource] dispatches nothing more. *)
Fixpoint run_stream (events : list (Z * StreamEvent)) (s : HookState)
  : option HookState :=
  match events with
  | [] => Some s
  | (now, e) :: rest =>
      match on_event now e s with
      | Some s' => if snd (dispatch e) then Some s' else run_stream rest s'
      | None => None
      end
  end.

(** The [thinking_log] events of a stream, with their payloads, none of
    them [null]. *)
Definition log_events (events : list (Z * StreamEvent)) (ps : list payload)
  : Prop :=
  Forall2 (fun ne p => event_type (snd ne) = txt "thinking_log"
                       /\ parse_data (snd ne) = Some p
                       /\ payload_null p = false)
    events ps.

End Listeners.

End EventStream.

(** ** Runs of chat callbacks *)

Module ChatRuns.

Import ApiClient Hook.

(** The entry a delta is appended to. *)
Definition extended (message_id d : text) (m : ChatMessage) : ChatMessage :=
  if has_id message_id m
  then {| id := id m; role := role m; content := content m ++ d;
          timestamp := timestamp m |}
  else m.

(** The deltas of one message as the stream delivers them. *)
Definition delta_trace (message_id : text) (ds : list (Z * text))
  : list (Z * callback) :=
  map (fun nd => (fst nd,
                  OnDelta {| delta_message_id := message_id;
                             delta := snd nd |}))
      ds.

(** What identifies an entry of the transcript and says whose it is. *)
Definition key (m : ChatMessage) : text * Role := (id m, role m).

(** While the callbacks of a stream run, [streamFinished] is only up once
    the turn has been taken out of flight. *)
Definition finished_means_idle (t : Turn) : Prop :=
  streamFinished t = true ->
  isChatInFlight (hook t) = false /\ isChatLoading (hook t) = false.

End ChatRuns.

(** ** The progress widget: [components/procurement/thinking-widget.tsx] *)

Module Widget.

Import ApiClient Hook.

Record AgentLaneData := {
  agentName : text;
  displayName : text;
  lane_status : ThinkingLogStatus;
  lane_message : text;
  lane_timestamp : number;
  firstSeenTimestamp : number
}.

Definition AGENT_DISPLAY_NAMES : list (text * text) :=
  [ (txt "PDF Parser", txt "Document Extraction");
    (txt "Specification Validator", txt "Specification Validation");
    (txt "LCCA Analyzer", txt "Cost Analysis");
    (txt "Market Researcher", txt "Market Research");
    (txt "Sustainability Analyst", txt "Sustainability Check");
    (txt "Domestic Preference Checker", txt "Tatak Pinoy Verification");
    (txt "Modality Advisor", txt "Compliance Review");
    (txt "Report Compiler", txt "Report Generation");
    (txt "Gamma Generator", txt "Final Processing") ].

(** The property names every object inherits from [Object.prototype].  A
    lookup [record[name]] with one of them finds the inherited member and
    not an entry of the record; the widget is embedded for agent names that
    are none of them. *)
Definition inherited_names : list text :=
  [ txt "constructor"; txt "hasOwnProperty"; txt "isPrototypeOf";
    txt "propertyIsEnumerable"; txt "toLocaleString"; txt "toString";
    txt "valueOf"; txt "__proto__"; txt "__defineGetter__";
    txt "__defineSetter__"; txt "__lookupGetter__"; txt "__lookupSetter__" ].

Definition inherited (name : text) : bool :=
  existsb (text_eqb name) inherited_names.

(** [record[name]] on the record's own entries. *)
Fixpoint get {A} (name : text) (record : list (text * A)) : option A :=
  match record with
  | [] => None
  | (k, v) :: rest => if text_eqb k name then Some v else get name rest
  end.

(** [record[name] = v]. *)
Fixpoint put {A} (name : text) (v : A) (record : list (text * A))
  : list (text * A) :=
  match record with
  | [] => [(name, v)]
  | (k, v') :: rest =>
      if text_eqb k name then (k, v) :: rest else (k, v') :: put name v rest
  end.

(** The status the loop gives the lane of the log it is at. *)
Definition status_at (isComplete isLastLog : bool) : ThinkingLogStatus :=
  if isComplete then log_complete
  else if negb isLastLog then log_complete
  else log_active.

(** The body of [logs.forEach]: [agentOrder] and [agentData] before and
    after one log. *)
Definition visit (isComplete : bool)
    (acc : list text * list (text * AgentLaneData))
    (log : ThinkingLog) (isLastLog : bool)
  : list text * list (text * AgentLaneData) :=
  let '(agentOrder, agentData) := acc in
  match get (agent log) agentData with
  | None =>
      (agentOrder ++ [agent log],
       put (agent log)
         {| agentName := agent log;
            displayName :=
              match get (agent log) AGENT_DISPLAY_NAMES with
              | Some d => d
              | None => agent log
              end;
            lane_status := status_at isComplete isLastLog;
            lane_message := log_message log;
            lane_timestamp := log_timestamp log;
            firstSeenTimestamp := log_timestamp log |}
         agentData)
  | Some currentAgent =>
      (agentOrder,
       put (agent log)
         {| agentName := agentName currentAgent;
            displayName := displayName currentAgent;
            lane_status := status_at isComplete isLastLog;
            lane_message := log_message log;
            lane_timestamp := log_timestamp log;
            firstSeenTimestamp := firstSeenTimestamp currentAgent |}
         agentData)
  end.

Fixpoint visit_all (isComplete : bool)
    (acc : list text * list (text * AgentLaneData)) (logs : list ThinkingLog)
  : list text * list (text * AgentLaneData) :=
  match logs with
  | [] => acc
  | log :: rest =>
      visit_all isComplete
        (visit isComplete acc log (match rest with [] => true | _ => false end))
        rest
  end.

(** [sequentialAgents]: a lane per agent, or [None] when an agent name is
    outside the embedding.  A lane that [agentData] does not have would be
    [undefined]. *)
Definition sequentialAgents (logs : list ThinkingLog) (isComplete : bool)
  : option (list (option AgentLaneData)) :=
  if existsb (fun log => inherited (agent log)) logs then None
  else
    let '(agentOrder, agentData) := visit_all isComplete ([], []) logs in
    Some (map (fun name => get name agentData) agentOrder).

(** *** The lanes, said directly *)

(** The names of a list, each at its first occurrence. *)
Fixpoint first_occurrences (seen names : list text) : list text :=
  match names with
  | [] => []
  | a :: rest =>
      if existsb (text_eqb a) seen then first_occurrences seen rest
      else a :: first_occurrences (seen ++ [a]) rest
  end.

Definition logs_of (name : text) (logs : list ThinkingLog)
  : list ThinkingLog :=
  filter (fun log => text_eqb (agent log) name) logs.

Definition is_last_agent (name : text) (logs : list ThinkingLog) : bool :=
  match last (map Some logs) None with
  | Some log => text_eqb (agent log) name
  | None => false
  end.

(** The lane of an agent: named after it, with the message and time of its
    latest log and the time of its first; active only while the analysis
    runs and the latest log of all is the agent's. *)
Definition lane_of (logs : list ThinkingLog) (isComplete : bool)
    (name : text) : option AgentLaneData :=
  match logs_of name logs with
  | [] => None
  | first :: more =>
      let latest := last more first in
      Some {| agentName := name;
              displayName :=
                match get name AGENT_DISPLAY_NAMES with
                | Some d => d
                | None => name
                end;
              lane_status :=
                if isComplete then log_complete
                else if is_last_agent name logs then log_active
                else log_complete;
              lane_message := log_message latest;
              lane_timestamp := log_timestamp latest;
              firstSeenTimestamp := log_timestamp first |}
  end.

(** The keys of [agentData] are the names in [agentOrder]. *)
Definition keyed (acc : list text * list (text * AgentLaneData)) : Prop :=
  forall name,
    get name (snd acc) = None <-> existsb (text_eqb name) (fst acc) = false.

(** The lane of an agent after more logs, given the lane it had. *)
Definition merged (c : bool) (logs : list ThinkingLog) (name : text)
    (prior : option AgentLaneData) : option AgentLaneData :=
  match logs_of name logs with
  | [] => prior
  | first :: more =>
      let latest := last more first in
      Some {| agentName :=
                match prior with Some cur => agentName cur | None => name end;
              displayName :=
                match prior with
                | Some cur => displayName cur
                | None => match get name AGENT_DISPLAY_NAMES with
                          | Some d => d
                          | None => name
                          end
                end;
              lane_status :=
                if c then log_complete
                else if is_last_agent name logs then log_active
                else log_complete;
              lane_message := log_message latest;
              lane_timestamp := log_timestamp latest;
              firstSeenTimestamp :=
                match prior with
                | Some cur => firstSeenTimestamp cur
                | None => log_timestamp first
                end |}
  end.

End Widget.

(** ** Everything that writes the hook state *)

Module Machine.

Import ApiClient Hook HookRest EventStream.

(** One step of the hook: the part of an operation before its [await], the
    part after it, a callback of one of the two streams, or the cleanup.
    The steps may come in any order: what runs after an [await] runs
    whenever the request settles, whatever was called in between. *)
Inductive op :=
| UploadCall (files : list File) (now : Z)
| UploadResolved (r : AnalyzeResponse)
| UploadRejected (err : thrown)
| UploadConnectFailed (r : AnalyzeResponse) (err : thrown)
| Stream (now : Z) (cb : stream_callback)
| GenerateCall
| GenerateResolved (r : ReviewResponse)
| GenerateRejected (err : thrown)
| DeclineCall
| DeclineResolved (r : ReviewResponse)
| DeclineRejected (err : thrown)
| ChatCall (inFlight : bool) (message : text) (now : Z)
| ChatCallback (now : Z) (cb : callback) (streamFinished : bool)
| ChatSettle (outcome : thrown + unit) (streamFinished : bool)
| CloseSplitView
| Reset
| Unmount.

Definition step (o : op) (s : HookState) : HookState :=
  match o with
  | UploadCall files now => fst (uploadFiles_call files now s)
  | UploadResolved r => uploadFiles_resolved r s
  | UploadRejected err => uploadFiles_rejected err s
  | UploadConnectFailed r err => uploadFiles_connect_failed r err s
  | Stream now cb => handle now cb s
  | GenerateCall => fst (generateReport_call s)
  | GenerateResolved r => generateReport_resolved r s
  | GenerateRejected err => generateReport_rejected err s
  | DeclineCall => fst (declineReport_call s)
  | DeclineResolved r => declineReport_resolved r s
  | DeclineRejected err => declineReport_rejected err s
  | ChatCall inFlight message now =>
      fst (sendChatMessage_call inFlight message now s)
  | ChatCallback now cb fin =>
      hook (deliver now cb {| hook := s; streamFinished := fin |})
  | ChatSettle outcome fin =>
      sendChatMessage_settle outcome {| hook := s; streamFinished := fin |}
  | CloseSplitView => closeSplitView s
  | Reset => reset s
  | Unmount => unmount s
  end.

Definition run (ops : list op) (s : HookState) : HookState :=
  fold_left (fun s' o => step o s') ops s.

(** The connection flag says what the ref holds. *)
Definition connection_consistent (s : HookState) : Prop :=
  isConnected s = is_some (eventSourceRef s).

(** No two entries of the progress log share an id. *)
Definition log_ids_unique (s : HookState) : Prop :=
  NoDup (map log_id (thinkingLogs s)).

(** The loading indicator is only up while a turn is in flight, and a turn
    is only in flight on a thread. *)
Definition chat_flags_consistent (s : HookState) : Prop :=
  (isChatLoading s = true -> isChatInFlight s = true)
  /\ (isChatInFlight s = true -> is_some (threadIdRef s) = true).

End Machine.

(** ** Sample sessions and events *)

Module Samples.

Import ApiClient Hook.

(** A session that has its verdict, on thread ["t1"]. *)
Definition session : HookState :=
  {| state := verdict; thinkingLogs := [];
     verdictData :=
       Some {| verdict_status := PASS; title := txt "Compliant";
               findings := [{| category := txt "Budget";
                               items := [txt "ok"]; severity := low |}];
               confidence := Integer 92 eq_refl |};
     messages := []; chatMessages := []; showSplitView := true;
     gammaLink := None; error := None; isConnected := false;
     isChatLoading := false; isChatInFlight := false;
     eventSourceRef := None; threadIdRef := Some (txt "t1");
     chatAbortControllerRef := None; activeChatMessageIdRef := None |}.

(** The same session after a failed [declineReport]. *)
Definition session_after_failure : HookState :=
  declineReport (inl (APIError (txt "HTTP 500: Internal Server Error")))
    session.

(** The turn of ["why?"] once [chat_start] named message ["m1"]. *)
Definition turn_m1 : Turn :=
  onStart {| start_message_id := txt "m1"; start_timestamp := 1000%Z |}
    {| hook := fst (sendChatMessage_call false (txt "why?") 1000%Z session);
       streamFinished := false |}.

Definition delta_m1 (d : string) : ChatStreamDeltaEvent :=
  {| delta_message_id := txt "m1"; delta := txt d |}.

Definition complete_m1 : ChatStreamCompleteEvent :=
  {| complete_message_id := txt "m1"; response := txt "Because of X";
     complete_timestamp := 2000%Z |}.

Definition log_event (i : string) (a : string) : ThinkingLogEvent :=
  {| ev_id := txt i; ev_agent := txt a; ev_message := txt "working";
     ev_timestamp := 10%Z; ev_status := log_active; ev_delay := None |}.

(** A stand-in for the platform's JSON, to run the decoder on sample
    bodies: a payload is a text in braces, taken whole as the message id and
    as the delta or the response. *)
Definition braces (t : text) : option text :=
  if startsWith (txt "{") t then Some t else None.

Definition decode_sample : body -> M unit :=
  decode_body braces (fun _ => None)
    (fun p => {| start_message_id := p; start_timestamp := 0%Z |})
    (fun p => {| delta_message_id := p; delta := p |})
    (fun p => {| complete_message_id := p; response := p;
                 complete_timestamp := 0%Z |}).

(** [chat_start {m1}], then [chat_delta] with a euro sign in braces, cut
    inside the event name, inside the euro sign and inside the blank line. *)
Definition sample_chunks : list (list byte) :=
  [ list_byte_of_string "event: chat_start" ++ [x0a]
    ++ list_byte_of_string "data: {m1}" ++ [x0a; x0a]
    ++ list_byte_of_string "ev";
    list_byte_of_string "ent: chat_delta" ++ [x0a]
    ++ list_byte_of_string "data: {" ++ [xe2];
    [x82];
    [xac; x7d; x0a];
    [x0a] ].

(** [chat_start {m1}] closed by a blank line, then a [chat_delta] frame
    that no blank line closes: the stream ends after it.  The chunk boundary
    cuts the first frame. *)
Definition dangling_chunks : list (list byte) :=
  [ list_byte_of_string "event: chat_start" ++ [x0a]
    ++ list_byte_of_string "data: {m";
    list_byte_of_string "1}" ++ [x0a; x0a]
    ++ list_byte_of_string "event: chat_delta" ++ [x0a]
    ++ list_byte_of_string "data: {hi}" ].

Definition dangling_frames : list text :=
  [ txt "event: chat_start" ++ [LF] ++ txt "data: {m1}" ].

Definition dangling_tail : text :=
  txt "event: chat_delta" ++ [LF] ++ txt "data: {hi}".

End Samples.

(** ** More samples *)

Module MoreSamples.

Import ApiClient Hook HookRest EventStream.

(** The stand-in decoder of [Samples], one frame and one buffer at a
    time. *)
Definition frame_sample : text -> M unit :=
  processSSEEvent Samples.braces (fun _ => None)
    (fun p => {| start_message_id := p; start_timestamp := 0%Z |})
    (fun p => {| delta_message_id := p; delta := p |})
    (fun p => {| complete_message_id := p; response := p;
                 complete_timestamp := 0%Z |}).

Definition drain_sample : text -> M text :=
  drain Samples.braces (fun _ => None)
    (fun p => {| start_message_id := p; start_timestamp := 0%Z |})
    (fun p => {| delta_message_id := p; delta := p |})
    (fun p => {| complete_message_id := p; response := p;
                 complete_timestamp := 0%Z |}).

Definition line_feed : text := [LF].

(** A stand-in for the platform's JSON on the analysis stream: a payload is
    a text in braces; [{}] stands for an object without the field asked
    for, [null] is [null]. *)
Definition stream_parse (t : text) : option text :=
  if text_eqb t (txt "null") then Some t else Samples.braces t.

Definition is_null (p : text) : bool := text_eqb p (txt "null").

Definition field (p : text) : option text :=
  if text_eqb p (txt "{}") then None else Some p.

Definition log_of (p : text) : ThinkingLogEvent :=
  {| ev_id := p; ev_agent := txt "PDF Parser"; ev_message := p;
     ev_timestamp := 10%Z; ev_status := log_active; ev_delay := None |}.

Definition verdict_of (p : text) : VerdictData :=
  {| verdict_status := PASS; title := p;
     findings := [{| category := txt "Budget"; items := [txt "ok"];
                     severity := low |}];
     confidence := Integer 92 eq_refl |}.

Definition dispatch_sample : StreamEvent -> reaction :=
  dispatch stream_parse is_null field field log_of verdict_of.

Definition on_event_sample
  : Z -> StreamEvent -> HookState -> option HookState :=
  on_event stream_parse is_null field field log_of verdict_of.

Definition run_stream_sample
  : list (Z * StreamEvent) -> HookState -> option HookState :=
  run_stream stream_parse is_null field field log_of verdict_of.

Definition event (ty d : string) : StreamEvent :=
  {| event_type := txt ty; event_data := Some (txt d) |}.

(** The session of [Samples] while its analysis is running. *)
Definition analysing : HookState :=
  uploadFiles [{| name := txt "tor.pdf" |}] 900
    (inr {| thread_id := txt "t1"; analyze_status := txt "processing" |})
    initial.

(** A progress log of two agents, the first of them heard twice, and the
    two lanes the widget shows for it while the analysis runs. *)
Definition widget_logs : list ThinkingLog :=
  [ {| log_id := txt "log-1"; agent := txt "PDF Parser";
       log_message := txt "Reading the document"; log_timestamp := 1%Z;
       log_status := log_active |};
    {| log_id := txt "log-2"; agent := txt "Market Researcher";
       log_message := txt "Searching prices"; log_timestamp := 2%Z;
       log_status := log_active |};
    {| log_id := txt "log-3"; agent := txt "PDF Parser";
       log_message := txt "Extracted 12 pages"; log_timestamp := 3%Z;
       log_status := log_complete |} ].

Definition parser_lane : Widget.AgentLaneData :=
  {| Widget.agentName := txt "PDF Parser";
     Widget.displayName := txt "Document Extraction";
     Widget.lane_status := log_active;
     Widget.lane_message := txt "Extracted 12 pages";
     Widget.lane_timestamp := 3%Z;
     Widget.firstSeenTimestamp := 1%Z |}.

Definition researcher_lane : Widget.AgentLaneData :=
  {| Widget.agentName := txt "Market Researcher";
     Widget.displayName := txt "Market Research";
     Widget.lane_status := log_complete;
     Widget.lane_message := txt "Searching prices";
     Widget.lane_timestamp := 2%Z;
     Widget.firstSeenTimestamp := 2%Z |}.


(** A response of status 500 whose body is no JSON. *)
Definition server_error : ApiCalls.Response unit :=
  {| ApiCalls.ok := false; ApiCalls.status := 500%N;
     ApiCalls.statusText := txt "Internal Server Error";
     ApiCalls.json := inl (OtherError (txt "Unexpected token < in JSON")) |}.


End MoreSamples.

(** * Properties *)

(** ** Strings and the computation type *)

Module Facts.

Import ApiClient.

Lemma text_eqb_eq a b : text_eqb a b = true <-> a = b.
Proof.
  unfold text_eqb. destruct (list_eq_dec N.eq_dec a b); split; congruence.
Qed.

Lemma text_eqb_refl a : text_eqb a a = true.
Proof. apply text_eqb_eq. reflexivity. Qed.

Lemma text_eqb_neq a b : text_eqb a b = false <-> a <> b.
Proof.
  unfold text_eqb. destruct (list_eq_dec N.eq_dec a b); split; congruence.
Qed.

Lemma bind_ret_l {A B} (a : A) (f : A -> M B) : bind (ret a) f = f a.
Proof. unfold bind, ret. destruct (f a). reflexivity. Qed.

Lemma bind_ret_r {A} (m : M A) : bind m ret = m.
Proof.
  destruct m as [cbs [e | a]]; simpl; [reflexivity |].
  rewrite app_nil_r. reflexivity.
Qed.

Lemma bind_assoc {A B C} (m : M A) (f : A -> M B) (g : B -> M C) :
  bind (bind m f) g = bind m (fun a => bind (f a) g).
Proof.
  destruct m as [cbs [e | a]]; simpl; [reflexivity |].
  destruct (f a) as [cbs1 [e1 | b]]; simpl; [reflexivity |].
  destruct (g b) as [cbs2 r]. rewrite app_assoc. reflexivity.
Qed.

Lemma bind_ext {A B} (m : M A) (f g : A -> M B) :
  (forall a, f a = g a) -> bind m f = bind m g.
Proof.
  intros H. destruct m as [cbs [e | a]]; simpl; [reflexivity |].
  rewrite H. reflexivity.
Qed.

Lemma bind_throw {A B} (e : thrown) (f : A -> M B) : bind (throw e) f = throw e.
Proof. reflexivity. Qed.

Lemma startsWith_app_long prefix s b :
  length prefix <= length s ->
  startsWith prefix (s ++ b) = startsWith prefix s.
Proof.
  revert s. induction prefix as [| p prefix IH]; intros s H; [reflexivity |].
  destruct s as [| c s]; simpl in *; [lia |].
  rewrite IH by lia. reflexivity.
Qed.

(** The first occurrence of a pattern stays the first one when text is
    appended. *)
Lemma indexOf_app pattern a b i :
  indexOf pattern a = Some i -> indexOf pattern (a ++ b) = Some i.
Proof.
  revert i. induction a as [| c a IH]; intros i H.
  - simpl in H. destruct pattern; simpl in H; [| discriminate].
    destruct b; simpl; assumption.
  - pose proof (indexOf_bound _ _ H) as Hb.
    cbn [indexOf] in H. cbn [indexOf app].
    change (c :: a ++ b) with ((c :: a) ++ b).
    rewrite startsWith_app_long by lia.
    destruct (startsWith pattern (c :: a)); [assumption |].
    destruct (indexOf pattern a) as [j |]; simpl in H; [| discriminate].
    rewrite (IH j eq_refl). assumption.
Qed.

End Facts.

Import Facts.

(** ** The streaming text decoder *)

Module EncodingFacts.

Lemma utf8_run_app d a b :
  utf8_run d (a ++ b) =
  let '(d1, out1) := utf8_run d a in
  let '(d2, out2) := utf8_run d1 b in
  (d2, out1 ++ out2).
Proof.
  revert d. induction a as [| x a IH]; intros d; simpl.
  - destruct (utf8_run d b). reflexivity.
  - destruct (utf8_step d x) as [d1 o1]. rewrite IH.
    destruct (utf8_run d1 a) as [d2 o2].
    destruct (utf8_run d2 b) as [d3 o3].
    rewrite app_assoc. reflexivity.
Qed.

Lemma serialize_app seen a b :
  serialize seen (a ++ b) =
  let '(s1, out1) := serialize seen a in
  let '(s2, out2) := serialize s1 b in
  (s2, out1 ++ out2).
Proof.
  revert seen. induction a as [| c a IH]; intros seen; simpl.
  - destruct (serialize seen b). reflexivity.
  - destruct seen.
    + rewrite IH. destruct (serialize true a) as [s1 o1].
      destruct (serialize s1 b). reflexivity.
    + destruct (c =? BOM)%N.
      * apply IH.
      * rewrite IH. destruct (serialize true a) as [s1 o1].
        destruct (serialize s1 b). reflexivity.
Qed.

Lemma streaming_new : streaming new_TextDecoder.
Proof. right. split; reflexivity. Qed.

Lemma streaming_decode td input :
  streaming (fst (decode td input true)).
Proof.
  unfold decode.
  destruct (utf8_run _ _) as [d1 i1].
  destruct (serialize _ _) as [sn out]. left. reflexivity.
Qed.

(** Where a chunk ends does not matter to the text that comes out: the
    bytes of a character cut by the boundary wait in the decoder. *)
Lemma decode_stream_app td a b :
  streaming td ->
  decode td (a ++ b) true =
  let '(td1, t1) := decode td a true in
  let '(td2, t2) := decode td1 b true in
  (td2, t1 ++ t2).
Proof.
  intros Hs. unfold decode at 1 2.
  set (d0 := if do_not_flush td then decoder td else utf8_fresh).
  set (s0 := if do_not_flush td then BOM_seen td else false).
  rewrite map_app, utf8_run_app.
  destruct (utf8_run d0 (map Byte.to_N a)) as [d1 i1] eqn:E1.
  rewrite app_nil_r.
  destruct (serialize s0 i1) as [s1 o1] eqn:E2.
  unfold decode. simpl.
  destruct (utf8_run d1 (map Byte.to_N b)) as [d2 i2] eqn:E3.
  rewrite !app_nil_r. rewrite serialize_app, E2.
  destruct (serialize s1 i2) as [s2 o2]. reflexivity.
Qed.

Lemma decode_stream_nil td :
  streaming td -> snd (decode td [] true) = [] /\
  snd (decode (fst (decode td [] true)) [] false) = snd (decode td [] false).
Proof.
  intros [H | [Hd Hb]]; unfold decode; simpl.
  - rewrite H. destruct (utf8_eof (decoder td)) as [d2 i2].
    simpl. destruct (serialize (BOM_seen td) i2). split; reflexivity.
  - rewrite Hd, Hb. destruct (do_not_flush td); split; reflexivity.
Qed.

Lemma decode_final_app td a b :
  streaming td ->
  snd (decode td (a ++ b) false) =
  snd (decode td a true) ++ snd (decode (fst (decode td a true)) b false).
Proof.
  intros Hs. unfold decode at 1 2 4.
  set (d0 := if do_not_flush td then decoder td else utf8_fresh).
  set (s0 := if do_not_flush td then BOM_seen td else false).
  rewrite map_app, utf8_run_app.
  destruct (utf8_run d0 (map Byte.to_N a)) as [d1 i1].
  rewrite app_nil_r.
  destruct (serialize s0 i1) as [s1 o1] eqn:E1.
  unfold decode. simpl.
  destruct (utf8_run d1 (map Byte.to_N b)) as [d2 i2].
  destruct (utf8_eof d2) as [d3 i3].
  rewrite <- app_assoc, serialize_app, E1.
  destruct (serialize s1 (i2 ++ i3)) as [s2 o2]. reflexivity.
Qed.

Lemma decode_chunks_text td cs :
  streaming td ->
  snd (decode_chunks td cs)
  ++ snd (decode (fst (decode_chunks td cs)) [] false)
  = snd (decode td (concat cs) false).
Proof.
  revert td. induction cs as [| c cs IH]; intros td Hs; [reflexivity |].
  cbn [decode_chunks concat]. rewrite (decode_final_app c (concat cs) Hs).
  pose proof (streaming_decode td c) as Hs1.
  destruct (decode td c true) as [td1 t1]. cbn [fst snd] in *.
  specialize (IH td1 Hs1).
  destruct (decode_chunks td1 cs) as [td2 t2]. cbn [fst snd] in *.
  rewrite <- app_assoc, IH. reflexivity.
Qed.

(** However the bytes are cut into chunks, the text the loop collects is
    the text of the whole byte sequence decoded in one go: no character is
    split by a chunk boundary. *)
Lemma streamed_text_whole cs :
  streamed_text cs = snd (decode new_TextDecoder (concat cs) false).
Proof.
  unfold streamed_text.
  pose proof (decode_chunks_text cs streaming_new) as H.
  destruct (decode_chunks new_TextDecoder cs) as [td t]. exact H.
Qed.

(** The euro sign, three bytes, cut after its first byte. *)
Example streamed_text_euro :
  streamed_text [[x41; xe2]; [x82; xac; x42]] = [65; 8364; 66]%N
  /\ streamed_text [[x41; xe2; x82; xac; x42]] = [65; 8364; 66]%N.
Proof. split; reflexivity. Qed.

End EncodingFacts.

Import EncodingFacts.

(** ** The chat stream decoder *)

Module DecoderFacts.

Import ApiClient.

Section Decoder.

Variable payload : Type.
Variable JSON_parse : text -> option payload.
Variable payload_error : payload -> option text.
Variable payload_detail : payload -> option text.
Variable as_start : payload -> ChatStreamStartEvent.
Variable as_delta : payload -> ChatStreamDeltaEvent.
Variable as_complete : payload -> ChatStreamCompleteEvent.

Local Abbreviation processSSEEvent :=
  (processSSEEvent JSON_parse payload_error as_start as_delta as_complete).
Local Abbreviation drain :=
  (drain JSON_parse payload_error as_start as_delta as_complete).
Local Abbreviation read_loop :=
  (read_loop JSON_parse payload_error as_start as_delta as_complete).
Local Abbreviation decode_body :=
  (decode_body JSON_parse payload_error as_start as_delta as_complete).
Local Abbreviation dispatch_frame :=
  (dispatch_frame JSON_parse payload_error as_start as_delta as_complete).
Local Abbreviation dispatch_frames :=
  (dispatch_frames JSON_parse payload_error as_start as_delta as_complete).
Local Abbreviation sendChatMessageStream :=
  (sendChatMessageStream JSON_parse payload_error payload_detail
     as_start as_delta as_complete).

(** The decode loop, one boundary at a time. *)
Lemma drain_step (buffer : text) :
  drain buffer =
  match indexOf delimiter buffer with
  | None => ret buffer
  | Some boundaryIndex =>
      let rawEvent := trim (slice_to boundaryIndex buffer) in
      (if is_empty rawEvent then ret tt else processSSEEvent rawEvent) ;;;
      drain (slice_from (boundaryIndex + 2) buffer)
  end.
Proof.
  rewrite drain_equation_1.
  destruct (inspect (indexOf delimiter buffer)) as [[i |] e];
    simpl; rewrite e at 1; reflexivity.
Qed.

(** Draining a buffer and then the rest with more text appended is
    draining the whole: the frames are cut at the same places. *)
Lemma drain_app (a b : text) :
  (rest <- drain a ;; drain (rest ++ b)) = drain (a ++ b).
Proof.
  remember (length a) as n eqn:Hn. revert a Hn.
  induction n as [n IH] using lt_wf_ind. intros a Hn.
  rewrite (drain_step a).
  destruct (indexOf delimiter a) as [i |] eqn:Hi.
  - pose proof (indexOf_bound _ _ Hi) as Hb. simpl in Hb.
    rewrite (drain_step (a ++ b)), (indexOf_app _ _ b Hi).
    cbv zeta. unfold slice_to, slice_from.
    rewrite firstn_app, skipn_app.
    replace (i - length a) with 0 by lia.
    replace (i + 2 - length a) with 0 by lia.
    rewrite firstn_O, app_nil_r, skipn_O.
    rewrite bind_assoc. apply bind_ext. intros _.
    apply (IH (length (skipn (i + 2) a))); [| reflexivity].
    rewrite length_skipn. lia.
  - rewrite bind_ret_l. reflexivity.
Qed.

Lemma read_loop_merge td buffer a b rest :
  streaming td ->
  read_loop td buffer (a :: b :: rest) = read_loop td buffer ((a ++ b) :: rest).
Proof.
  intros Hs. cbn [ApiClient.read_loop].
  rewrite (decode_stream_app a b Hs).
  destruct (decode td a true) as [td1 t1].
  destruct (decode td1 b true) as [td2 t2].
  rewrite app_assoc, <- (drain_app (buffer ++ t1) t2), bind_assoc.
  reflexivity.
Qed.

Lemma read_loop_concat td buffer c cs :
  streaming td ->
  read_loop td buffer (c :: cs) = read_loop td buffer [c ++ concat cs].
Proof.
  intros Hs. revert c. induction cs as [| b cs IH]; intros c.
  - simpl concat. rewrite app_nil_r. reflexivity.
  - rewrite read_loop_merge by assumption. rewrite IH.
    simpl concat. rewrite app_assoc. reflexivity.
Qed.

(** *** Frames *)

Lemma startsWith_delimiter_frame c f more :
  startsWith delimiter (c :: f ++ LF :: more)
  = startsWith delimiter (c :: f ++ [LF]).
Proof. destruct f; reflexivity. Qed.

(** The first delimiter after an unbroken frame is its own. *)
Lemma indexOf_frame f rest :
  unbroken f -> indexOf delimiter (f ++ delimiter ++ rest) = Some (length f).
Proof.
  unfold unbroken. induction f as [| c f IH]; intros H; [reflexivity |].
  change ((c :: f) ++ delimiter ++ rest)
    with (c :: f ++ LF :: LF :: rest).
  change ((c :: f) ++ [LF]) with (c :: f ++ [LF]) in H.
  cbn [indexOf] in H |- *.
  rewrite startsWith_delimiter_frame.
  destruct (startsWith delimiter (c :: f ++ [LF])); [discriminate |].
  destruct (indexOf delimiter (f ++ [LF])) eqn:Hi; [discriminate |].
  change (f ++ LF :: LF :: rest) with (f ++ delimiter ++ rest).
  rewrite (IH eq_refl). reflexivity.
Qed.

(** The inner loop on a framed text: the frames in order, the tail left in
    the buffer. *)
Lemma drain_framed frames tail :
  Forall unbroken frames -> indexOf delimiter tail = None ->
  drain (framed frames tail) = (dispatch_frames frames ;;; ret tail).
Proof.
  intros Hf Ht. induction Hf as [| f frames Hu Hf IH].
  - cbn [framed map concat app dispatch_frames].
    rewrite drain_step, Ht, bind_ret_l. reflexivity.
  - replace (framed (f :: frames) tail)
      with (f ++ delimiter ++ framed frames tail)
      by (unfold framed; cbn [map concat]; rewrite <- !app_assoc;
          reflexivity).
    rewrite drain_step, (indexOf_frame _ Hu). cbv zeta.
    unfold slice_to, slice_from.
    rewrite firstn_app, firstn_all, Nat.sub_diag, firstn_O, app_nil_r.
    rewrite skipn_app, skipn_all2 by lia.
    replace (length f + 2 - length f) with 2 by lia.
    cbn [skipn delimiter app dispatch_frames].
    rewrite IH, bind_assoc. reflexivity.
Qed.

(** The final flush gives nothing, or the one U+FFFD of a character the
    stream ended in. *)
Lemma flush_shape td :
  snd (decode td [] false) = [] \/ snd (decode td [] false) = [REPLACEMENT].
Proof.
  unfold decode. cbn [map utf8_run].
  set (d0 := if do_not_flush td then decoder td else utf8_fresh).
  set (s0 := if do_not_flush td then BOM_seen td else false).
  unfold utf8_eof. destruct (bytes_needed d0 =? 0)%N.
  - left. destruct s0; reflexivity.
  - right. destruct s0; reflexivity.
Qed.

Lemma framed_snoc frames tail before c :
  framed frames tail = before ++ [c] -> c <> LF ->
  exists tail0, tail = tail0 ++ [c] /\ before = framed frames tail0.
Proof.
  intros H Hc. destruct tail as [| t tail'].
  - exfalso. unfold framed in H. rewrite app_nil_r in H.
    destruct frames as [| f0 frames0] using rev_ind.
    + destruct before; discriminate.
    + rewrite map_app, concat_app in H. cbn [map concat] in H.
      rewrite app_nil_r in H.
      change delimiter with ([LF] ++ [LF]) in H.
      rewrite !app_assoc in H. apply app_inj_tail in H.
      destruct H as [_ H]. congruence.
  - destruct (@exists_last _ (t :: tail')) as [tail0 [a Ha]];
      [discriminate |].
    rewrite Ha in *. unfold framed in H. rewrite app_assoc in H.
    apply app_inj_tail in H. destruct H as [H1 H2]. subst a.
    exists tail0. split; [reflexivity |]. symmetry. exact H1.
Qed.

(** C1.  Chunk-boundary invariance of the chat stream decoder.  Whatever
    bytes the body consists of and however the reader cuts them into chunks,
    [sendChatMessageStream]'s decode loop invokes the same callbacks, in the
    same order, and ends the same way (resolved, or rejected with the same
    error) as when all the bytes arrive as one chunk.  The bytes of a
    character cut by a chunk boundary wait in the text decoder, a frame cut by
    one waits in the buffer: when the text of the bytes is a sequence of
    frames, each closed by a blank line, and a dangling part that none
    closes, the frames are dispatched in order, one by one, and when the
    stream closes the dangling part is dispatched once, as one more frame;
    when the reader fails instead, its failure comes after the frames and the
    dangling part is not dispatched. *)
Theorem chunk_boundary_invariance (cs : list (list byte))
    (closing : option thrown) :
  decode_body {| chunks := cs; closing := closing |}
  = decode_body {| chunks := [concat cs]; closing := closing |}
  /\ (forall frames tail,
        snd (decode new_TextDecoder (concat cs) false) = framed frames tail ->
        Forall unbroken frames ->
        indexOf delimiter tail = None ->
        decode_body {| chunks := cs; closing := closing |}
        = (dispatch_frames frames ;;;
           match closing with
           | Some e => throw e
           | None => dispatch_frame tail
           end)).
Proof.
  assert (Hone : decode_body {| chunks := cs; closing := closing |}
                 = decode_body {| chunks := [concat cs];
                                  closing := closing |}).
  { destruct cs as [| c cs].
    - unfold ApiClient.decode_body. cbn [chunks ApiClient.closing concat].
      cbn [ApiClient.read_loop].
      change (decode new_TextDecoder [] true)
        with ({| decoder := utf8_fresh; BOM_seen := false;
                 do_not_flush := true |}, @nil N).
      cbn [app]. rewrite drain_step. cbn [indexOf startsWith delimiter].
      rewrite !bind_ret_l. destruct closing; reflexivity.
    - unfold ApiClient.decode_body. cbn [chunks ApiClient.closing].
      rewrite read_loop_concat by apply streaming_new. reflexivity. }
  split; [exact Hone |].
  intros frames tail Htext Hframes Htail. rewrite Hone.
  pose proof (@decode_final_app new_TextDecoder (concat cs) []
                streaming_new) as Hfull.
  rewrite app_nil_r, Htext in Hfull.
  unfold ApiClient.decode_body.
  cbn [chunks ApiClient.closing ApiClient.read_loop].
  destruct (decode new_TextDecoder (concat cs) true) as [td decoded].
  cbn [fst snd app] in *.
  assert (Hleft : exists tail0,
             decoded = framed frames tail0
             /\ indexOf delimiter tail0 = None
             /\ tail = tail0 ++ snd (decode td [] false)).
  { destruct (flush_shape td) as [F | F]; rewrite F in *.
    - exists tail. rewrite app_nil_r in *. auto.
    - destruct (@framed_snoc frames tail decoded REPLACEMENT Hfull)
        as [tail0 [-> ->]]; [discriminate |].
      exists tail0. split; [reflexivity |]. split; [| reflexivity].
      destruct (indexOf delimiter tail0) as [i |] eqn:Hi; [| reflexivity].
      rewrite (indexOf_app _ _ [REPLACEMENT] Hi) in Htail. discriminate. }
  destruct Hleft as (tail0 & -> & Htail0 & ->).
  rewrite (@drain_framed frames tail0 Hframes Htail0).
  rewrite !bind_assoc. apply bind_ext. intros _.
  rewrite !bind_ret_l. destruct closing; reflexivity.
Qed.

(** *** The shape of a run *)

Lemma error_is_final_quiet cbs rejection :
  forallb (fun cb => negb (is_OnError cb)) cbs = true ->
  error_is_final cbs rejection = true.
Proof.
  induction cbs as [| cb cbs IH]; simpl; [reflexivity |].
  intros H. apply andb_true_iff in H. destruct H as [H1 H2].
  destruct cb; simpl in H1; try discriminate; auto.
Qed.

Lemma resolved_quiet cbs :
  error_is_final cbs None = true ->
  forallb (fun cb => negb (is_OnError cb)) cbs = true.
Proof.
  induction cbs as [| cb cbs IH]; simpl; [reflexivity |].
  destruct cb; simpl; auto.
  destruct cbs; discriminate.
Qed.

Lemma error_is_final_app cbs cbs' rejection :
  forallb (fun cb => negb (is_OnError cb)) cbs = true ->
  error_is_final (cbs ++ cbs') rejection = error_is_final cbs' rejection.
Proof.
  induction cbs as [| cb cbs IH]; simpl; [reflexivity |].
  intros H. apply andb_true_iff in H. destruct H as [H1 H2].
  destruct cb; simpl in H1; try discriminate; auto.
Qed.

Lemma well_ended_bind {A B} (m : M A) (f : A -> M B) :
  well_ended m -> (forall a, well_ended (f a)) -> well_ended (bind m f).
Proof.
  unfold well_ended. destruct m as [cbs [e | a]]; simpl; intros Hm Hf.
  - assumption.
  - specialize (Hf a). destruct (f a) as [cbs' r]. simpl in *.
    rewrite error_is_final_app by (apply resolved_quiet; assumption).
    assumption.
Qed.

Lemma well_ended_ret {A} (a : A) : well_ended (ret a).
Proof. reflexivity. Qed.

Lemma well_ended_throw {A} (e : thrown) : well_ended (@throw A e).
Proof. reflexivity. Qed.

Lemma well_ended_processSSEEvent rawEvent :
  well_ended (processSSEEvent rawEvent).
Proof.
  unfold ApiClient.processSSEEvent, well_ended.
  destruct (fold_left scan_line _ _) as [eventName dataLines].
  destruct dataLines as [| l ls]; [reflexivity |].
  destruct (JSON_parse _) as [p |]; [| reflexivity].
  repeat (destruct (text_eqb eventName _); [reflexivity |]).
  destruct (text_eqb eventName _); [| reflexivity].
  simpl. apply text_eqb_refl.
Qed.

Lemma well_ended_drain buffer : well_ended (drain buffer).
Proof.
  remember (length buffer) as n eqn:Hn. revert buffer Hn.
  induction n as [n IH] using lt_wf_ind. intros buffer Hn.
  rewrite drain_step.
  destruct (indexOf delimiter buffer) as [i |] eqn:Hi; [| reflexivity].
  pose proof (indexOf_bound _ _ Hi) as Hb. simpl in Hb.
  cbv zeta. apply well_ended_bind.
  - destruct (is_empty _);
      [apply well_ended_ret | apply well_ended_processSSEEvent].
  - intros _. apply (IH (length (slice_from (i + 2) buffer))); [| reflexivity].
    unfold slice_from. rewrite length_skipn. lia.
Qed.

Lemma well_ended_read_loop td buffer cs :
  well_ended (read_loop td buffer cs).
Proof.
  revert td buffer. induction cs as [| c cs IH]; intros td buffer.
  - reflexivity.
  - cbn [ApiClient.read_loop]. destruct (decode td c true) as [td' decoded].
    apply well_ended_bind; [apply well_ended_drain | intros; apply IH].
Qed.

(** Every run of [sendChatMessageStream] ends this way. *)
Lemma sendChatMessageStream_well_ended (r : fetch_outcome payload) :
  well_ended (sendChatMessageStream r).
Proof.
  destruct r as [e | st stt ed | | b]; try reflexivity.
  unfold ApiClient.sendChatMessageStream, ApiClient.decode_body.
  apply well_ended_bind; [apply well_ended_read_loop |].
  intros [td buffer]. destruct (closing b); [reflexivity |].
  destruct (is_empty _);
    [apply well_ended_ret | apply well_ended_processSSEEvent].
Qed.

(** A body that closes at once: no callback, and the call resolves. *)
Lemma empty_body_resolves :
  sendChatMessageStream (Streaming _ {| chunks := []; closing := None |})
  = ([], inr tt).
Proof. reflexivity. Qed.

End Decoder.

(** The body that ends in a dangling frame: [chat_start] from the frame
    the blank line closes, then [chat_delta] from the dangling one. *)
Lemma chunk_boundary_invariance_witness :
  Samples.decode_sample
    {| chunks := Samples.dangling_chunks; closing := None |}
  = (dispatch_frames Samples.braces (fun _ => None)
       (fun p => {| start_message_id := p; start_timestamp := 0%Z |})
       (fun p => {| delta_message_id := p; delta := p |})
       (fun p => {| complete_message_id := p; response := p;
                    complete_timestamp := 0%Z |})
       Samples.dangling_frames ;;;
     dispatch_frame Samples.braces (fun _ => None)
       (fun p => {| start_message_id := p; start_timestamp := 0%Z |})
       (fun p => {| delta_message_id := p; delta := p |})
       (fun p => {| complete_message_id := p; response := p;
                    complete_timestamp := 0%Z |})
       Samples.dangling_tail).
Proof.
  apply (proj2 (@chunk_boundary_invariance text Samples.braces
                  (fun _ => None)
                  (fun p => {| start_message_id := p;
                               start_timestamp := 0%Z |})
                  (fun p => {| delta_message_id := p; delta := p |})
                  (fun p => {| complete_message_id := p; response := p;
                               complete_timestamp := 0%Z |})
                  Samples.dangling_chunks None)
           Samples.dangling_frames Samples.dangling_tail).
  - reflexivity.
  - repeat constructor.
  - reflexivity.
Defined.

Example decode_dangling_chunks :
  Samples.decode_sample
    {| chunks := Samples.dangling_chunks; closing := None |}
  = ([OnStart {| start_message_id := txt "{m1}"; start_timestamp := 0%Z |};
      OnDelta {| delta_message_id := txt "{hi}"; delta := txt "{hi}" |}],
     inr tt)
  /\ Samples.decode_sample
       {| chunks := Samples.dangling_chunks;
          closing := Some (OtherError (txt "network error")) |}
     = ([OnStart {| start_message_id := txt "{m1}";
                    start_timestamp := 0%Z |}],
        inl (OtherError (txt "network error"))).
Proof. split; reflexivity. Qed.

(** The sample body, as the reader cuts it and in one piece. *)
Example decode_sample_chunks :
  Samples.decode_sample
    {| chunks := Samples.sample_chunks; closing := None |}
  = ([OnStart {| start_message_id := txt "{m1}"; start_timestamp := 0%Z |};
      OnDelta {| delta_message_id := [123; 8364; 125]%N;
                 delta := [123; 8364; 125]%N |}],
     inr tt)
  /\ Samples.decode_sample
       {| chunks := [concat Samples.sample_chunks]; closing := None |}
     = Samples.decode_sample
         {| chunks := Samples.sample_chunks; closing := None |}.
Proof. split; reflexivity. Qed.

End DecoderFacts.

(** ** The progress log *)

Module ProgressLogFacts.

Import ApiClient Hook.

Lemma setThinkingLogs_same s : setThinkingLogs (thinkingLogs s) s = s.
Proof. destruct s. reflexivity. Qed.

Lemma onThinkingLog_known log s :
  known (ev_id log) s = true -> onThinkingLog log s = s.
Proof.
  unfold known, onThinkingLog. intros H. rewrite H.
  apply setThinkingLogs_same.
Qed.

Lemma onThinkingLog_new log s :
  known (ev_id log) s = false ->
  thinkingLogs (onThinkingLog log s) =
  thinkingLogs s ++
  [{| log_id := ev_id log; agent := ev_agent log;
      log_message := ev_message log; log_timestamp := ev_timestamp log;
      log_status := ev_status log |}].
Proof.
  unfold known, onThinkingLog. intros H. rewrite H. reflexivity.
Qed.

Lemma known_after log s : known (ev_id log) (onThinkingLog log s) = true.
Proof.
  unfold known, onThinkingLog. cbn [thinkingLogs setThinkingLogs].
  destruct (existsb _ (thinkingLogs s)) eqn:H; cbv iota; [exact H |].
  rewrite existsb_app. cbn [existsb log_id]. rewrite text_eqb_refl.
  rewrite orb_true_r. reflexivity.
Qed.

Lemma known_kept x log s :
  known x s = true -> known x (onThinkingLog log s) = true.
Proof.
  unfold known, onThinkingLog. cbn [thinkingLogs setThinkingLogs].
  intros H.
  destruct (existsb (fun l => text_eqb (log_id l) (ev_id log))
              (thinkingLogs s));
    cbv iota; [exact H |].
  rewrite existsb_app, H. reflexivity.
Qed.

Lemma known_kept_all x logs s :
  known x s = true -> known x (deliver_logs logs s) = true.
Proof.
  revert s. induction logs as [| l logs IH]; intros s H; [assumption |].
  apply IH, known_kept, H.
Qed.

(** C2.  Idempotent ingestion of progress entries.  A [thinking_log] event
    whose id is new is appended at the end of the log; once an event has been
    handled, handling an event of the same id again, at once or after any
    other events, leaves the whole state as it is: nothing is appended,
    nothing moves, nothing fails. *)
Theorem thinking_log_ingestion_idempotent
    (s : HookState) (log : ThinkingLogEvent) :
  (known (ev_id log) s = false ->
   thinkingLogs (onThinkingLog log s) =
   thinkingLogs s ++
   [{| log_id := ev_id log; agent := ev_agent log;
       log_message := ev_message log; log_timestamp := ev_timestamp log;
       log_status := ev_status log |}])
  /\ onThinkingLog log (onThinkingLog log s) = onThinkingLog log s
  /\ (forall between again,
        ev_id again = ev_id log ->
        deliver_logs (log :: between ++ [again]) s =
        deliver_logs (log :: between) s).
Proof.
  split; [apply onThinkingLog_new |].
  split; [apply onThinkingLog_known, known_after |].
  intros between again Hid. unfold deliver_logs.
  cbn [fold_left]. rewrite fold_left_app. cbn [fold_left].
  apply onThinkingLog_known. rewrite Hid.
  apply (known_kept_all _ between), known_after.
Qed.

Lemma thinking_log_ingestion_idempotent_witness :
  thinkingLogs (onThinkingLog (Samples.log_event "l1" "planner")
                  Samples.session)
  = [{| log_id := txt "l1"; agent := txt "planner";
        log_message := txt "working"; log_timestamp := 10%Z;
        log_status := log_active |}]
  /\ deliver_logs [Samples.log_event "l1" "planner";
                   Samples.log_event "l2" "budget";
                   Samples.log_event "l1" "planner"] Samples.session
     = deliver_logs [Samples.log_event "l1" "planner";
                     Samples.log_event "l2" "budget"] Samples.session.
Proof.
  destruct (thinking_log_ingestion_idempotent Samples.session
              (Samples.log_event "l1" "planner")) as (Hnew & _ & Hagain).
  split.
  - apply Hnew. reflexivity.
  - apply (Hagain [Samples.log_event "l2" "budget"]
                  (Samples.log_event "l1" "planner")).
    reflexivity.
Defined.

End ProgressLogFacts.

(** ** Chat turns *)

Module ChatTurnFacts.

Import ApiClient Hook.

Lemma is_active_iff message_id s :
  is_active message_id s = true <->
  activeChatMessageIdRef s = Some message_id.
Proof.
  unfold is_active. destruct (activeChatMessageIdRef s) as [a |].
  - rewrite text_eqb_eq. split; congruence.
  - split; discriminate.
Qed.

Lemma is_active_false message_id s :
  is_active message_id s = false <->
  activeChatMessageIdRef s <> Some message_id.
Proof.
  rewrite <- is_active_iff. destruct (is_active message_id s); split;
    congruence.
Qed.

Lemma present_some r threadId : present r = Some threadId -> r = Some threadId.
Proof.
  destruct r as [[| c t] |]; simpl; intros H; try discriminate.
  congruence.
Qed.

Lemma sendChatMessage_call_started inFlight message now s s1 req :
  sendChatMessage_call inFlight message now s = (s1, Some req) ->
  exists threadId,
    threadIdRef s = Some threadId /\ present (threadIdRef s) = Some threadId
    /\ inFlight = false
    /\ req = ChatStream threadId message
    /\ s1 =
       set_chatAbortControllerRef (Some NewAbortController)
         (setIsChatInFlight true
           (setIsChatLoading true
             (setChatMessages
                (chatMessages s ++
                 [{| id := txt "chat-" ++ Z_text now ++ txt "-user";
                     role := user; content := message; timestamp := now |}])
                (setError None s)))).
Proof.
  unfold sendChatMessage_call.
  destruct (present (threadIdRef s)) as [threadId |] eqn:Hp;
    [| discriminate].
  destruct inFlight; [discriminate |].
  intros H. injection H as <- <-. exists threadId.
  apply present_some in Hp as Hr. auto.
Qed.

(** What the guard of [sendChatMessage] does for the function of the
    current render.  While the in-flight flag is up, a call through that
    function returns at once: it opens no request, appends no user entry and
    leaves the state alone.  A call that starts a turn raises the flag, and
    the flag stays up while the stream delivers [chat_start] and
    [chat_delta]: only an accepted [chat_complete] or an [error] lowers it.
    So a call through the function of any render in between is turned
    away. *)
Lemma guard_of_the_current_render :
  (forall s message now,
     isChatInFlight s = true ->
     sendChatMessage_call (rendered s) message now s
     = (match present (threadIdRef s) with
        | Some _ => s
        | None => setError (Some (txt "No analysis session found")) s
        end, None))
  /\ (forall inFlight s message now s1 req,
        sendChatMessage_call inFlight message now s = (s1, Some req) ->
        isChatInFlight s1 = true
        /\ (forall message' now',
              sendChatMessage_call (rendered s1) message' now' s1
              = (s1, None)))
  /\ (forall t now cb,
        isChatInFlight (hook t) = true ->
        isChatInFlight (hook (deliver now cb t)) = true
        \/ (exists event,
              cb = OnComplete event
              /\ is_active (complete_message_id event) (hook t) = true)
        \/ (exists m, cb = OnError m)).
Proof.
  split; [| split].
  - intros s message now Hf. unfold sendChatMessage_call, rendered.
    rewrite Hf. destruct (present (threadIdRef s)); reflexivity.
  - intros inFlight s message now s1 req H.
    apply sendChatMessage_call_started in H.
    destruct H as (threadId & Hr & Hp & Hf & -> & ->).
    split; [reflexivity |]. intros message' now'.
    unfold sendChatMessage_call, rendered.
    cbn [threadIdRef set_chatAbortControllerRef setIsChatInFlight
         setIsChatLoading setChatMessages setError isChatInFlight].
    rewrite Hp. reflexivity.
  - intros t now cb Hf. destruct cb as [event | event | event | m].
    + left. exact Hf.
    + left. unfold deliver, onDelta.
      destruct (negb (is_active (delta_message_id event) (hook t)));
        [exact Hf |].
      destruct (existsb _ _); [exact Hf |].
      destruct (is_empty _); exact Hf.
    + unfold deliver, onComplete.
      destruct (is_active (complete_message_id event) (hook t)) eqn:Ha.
      * right. left. exists event. split; [reflexivity | exact Ha].
      * left. exact Hf.
    + right. right. exists m. reflexivity.
Qed.

(** C4 on the code.  The guard reads the flag its closure holds, so the
    function of one render, called twice, passes the guard twice.  In the
    sample session [sendChatMessage] is called with ["why?"] and, before the
    caller has the function of the next render, with ["and then?"]: the
    first call raises the flag, and the second opens a request all the same
    and appends a second user entry while the first turn is in flight.  The
    function of the render that followed the first call would have turned
    the second call away. *)
Theorem stale_guard_admits_a_second_turn :
  let first := sendChatMessage_call false (txt "why?") 1000 Samples.session in
  let second :=
    sendChatMessage_call false (txt "and then?") 1200 (fst first) in
  snd first = Some (ChatStream (txt "t1") (txt "why?"))
  /\ isChatInFlight (fst first) = true
  /\ snd second = Some (ChatStream (txt "t1") (txt "and then?"))
  /\ chatMessages (fst second)
     = [ {| id := txt "chat-1000-user"; role := user;
            content := txt "why?"; timestamp := 1000%Z |};
         {| id := txt "chat-1200-user"; role := user;
            content := txt "and then?"; timestamp := 1200%Z |} ]
  /\ sendChatMessage_call (rendered (fst first)) (txt "and then?") 1200
       (fst first)
     = (fst first, None).
Proof.
  cbv zeta. repeat split; vm_compute; reflexivity.
Qed.

(** C6.  Stale delta rejection.  A [chat_delta] whose message id is not
    the active one is dropped: the turn, and with it the transcript and the
    error, are exactly as before.  After [closeChatStream] no id is active,
    so every late delta is dropped. *)
Theorem stale_delta_rejected :
  (forall event now t,
     activeChatMessageIdRef (hook t) <> Some (delta_message_id event) ->
     onDelta event now t = t)
  /\ (forall event now t,
        onDelta event now (on_hook closeChatStream t)
        = on_hook closeChatStream t).
Proof.
  split.
  - intros event now t H. apply is_active_false in H.
    unfold onDelta. rewrite H. reflexivity.
  - intros event now t. unfold onDelta.
    replace (is_active _ _) with false; reflexivity.
Qed.

Lemma map_has_id_In message_id (f : ChatMessage -> ChatMessage) prev m :
  (forall x, id (f x) = id x) ->
  In m (map (fun x => if has_id message_id x then f x else x) prev) ->
  id m = message_id ->
  exists x, In x prev /\ has_id message_id x = true /\ m = f x.
Proof.
  intros Hf Hin Hid. apply in_map_iff in Hin.
  destruct Hin as (x & Hx & Hin). exists x.
  destruct (has_id message_id x) eqn:Hh.
  - auto.
  - subst m. unfold has_id in Hh. rewrite Hid in Hh.
    rewrite text_eqb_refl in Hh. discriminate.
Qed.

Lemma filter_others_map message_id (f : ChatMessage -> ChatMessage) prev :
  (forall x, id (f x) = id x) ->
  filter (fun m => negb (has_id message_id m))
    (map (fun x => if has_id message_id x then f x else x) prev)
  = filter (fun m => negb (has_id message_id m)) prev.
Proof.
  intros Hf. induction prev as [| x prev IH]; [reflexivity |].
  cbn [map filter]. destruct (has_id message_id x) eqn:Hh.
  - unfold has_id in *. rewrite Hf, Hh. simpl. apply IH.
  - rewrite Hh. simpl. rewrite IH. reflexivity.
Qed.

(** C5.  Authoritative finalization on [chat_complete].  When the event's
    message id is the active one, the transcript afterwards has an entry of
    that id, every entry of that id carries the event's final response text
    and timestamp whatever had been accumulated from deltas, an entry that
    was there is replaced in place, the other entries are untouched, the
    active id is cleared, the turn is no longer in flight, and the error
    is left as it was. *)
Theorem chat_complete_is_authoritative
    (event : ChatStreamCompleteEvent) (t : Turn) :
  activeChatMessageIdRef (hook t) = Some (complete_message_id event) ->
  (exists m, In m (chatMessages (hook (onComplete event t)))
             /\ id m = complete_message_id event)
  /\ (forall m, In m (chatMessages (hook (onComplete event t))) ->
                id m = complete_message_id event ->
                content m = response event
                /\ timestamp m = complete_timestamp event)
  /\ (existsb (has_id (complete_message_id event)) (chatMessages (hook t))
      = true ->
      chatMessages (hook (onComplete event t)) =
      map (fun m => if has_id (complete_message_id event) m
                    then {| id := id m; role := role m;
                            content := response event;
                            timestamp := complete_timestamp event |}
                    else m)
          (chatMessages (hook t)))
  /\ filter (fun m => negb (has_id (complete_message_id event) m))
       (chatMessages (hook (onComplete event t)))
     = filter (fun m => negb (has_id (complete_message_id event) m))
         (chatMessages (hook t))
  /\ activeChatMessageIdRef (hook (onComplete event t)) = None
  /\ isChatInFlight (hook (onComplete event t)) = false
  /\ error (hook (onComplete event t)) = error (hook t)
  /\ streamFinished (onComplete event t) = true.
Proof.
  intros Ha. apply is_active_iff in Ha. unfold onComplete. rewrite Ha.
  cbn [negb hook on_hook finish chatMessages setIsChatInFlight
       setIsChatLoading set_activeChatMessageIdRef setChatMessages
       activeChatMessageIdRef isChatInFlight error streamFinished].
  set (mid := complete_message_id event).
  set (prev := chatMessages (hook t)).
  destruct (existsb (has_id mid) prev) eqn:He; cbn [negb].
  - repeat split; try reflexivity.
    + apply existsb_exists in He. destruct He as (x & Hx & Hh).
      eexists. split.
      * apply in_map_iff. exists x. split; [reflexivity | exact Hx].
      * rewrite Hh. unfold has_id in Hh. apply text_eqb_eq in Hh. exact Hh.
    + apply (@map_has_id_In mid
               (fun x => {| id := id x; role := role x;
                            content := response event;
                            timestamp := complete_timestamp event |})
               prev m)
        in H; [| reflexivity | assumption].
      destruct H as (x & _ & _ & ->). reflexivity.
    + apply (@map_has_id_In mid
               (fun x => {| id := id x; role := role x;
                            content := response event;
                            timestamp := complete_timestamp event |})
               prev m)
        in H; [| reflexivity | assumption].
      destruct H as (x & _ & _ & ->). reflexivity.
    + apply (@filter_others_map mid
               (fun x => {| id := id x; role := role x;
                            content := response event;
                            timestamp := complete_timestamp event |})
               prev).
      reflexivity.
  - assert (Hnone : forall m, In m prev -> id m = mid -> False).
    { intros m Hin Hid.
      assert (existsb (has_id mid) prev = true) as Hc; [| congruence].
      apply existsb_exists. exists m. split; [assumption |].
      unfold has_id. rewrite Hid. apply text_eqb_refl. }
    repeat split; try reflexivity.
    + eexists. split; [apply in_or_app; right; left; reflexivity |].
      reflexivity.
    + apply in_app_or in H. destruct H as [H | [<- | []]]; [| reflexivity].
      exfalso. eauto.
    + apply in_app_or in H. destruct H as [H | [<- | []]]; [| reflexivity].
      exfalso. eauto.
    + discriminate.
    + rewrite filter_app. cbn [filter]. unfold has_id at 2. cbn [id].
      rewrite text_eqb_refl. apply app_nil_r.
Qed.

(** C10.  A [chat_complete] for the active id finalizes the turn also when
    the transcript has no entry of that id yet: an assistant entry with the
    event's final response text and timestamp is appended at the end, and the
    turn ends as in the other case. *)
Theorem chat_complete_without_entry
    (event : ChatStreamCompleteEvent) (t : Turn) :
  activeChatMessageIdRef (hook t) = Some (complete_message_id event) ->
  existsb (has_id (complete_message_id event)) (chatMessages (hook t))
  = false ->
  chatMessages (hook (onComplete event t)) =
  chatMessages (hook t) ++
  [{| id := complete_message_id event; role := assistant;
      content := response event; timestamp := complete_timestamp event |}]
  /\ activeChatMessageIdRef (hook (onComplete event t)) = None
  /\ isChatInFlight (hook (onComplete event t)) = false
  /\ streamFinished (onComplete event t) = true.
Proof.
  intros Ha He. apply is_active_iff in Ha. unfold onComplete.
  rewrite Ha, He. repeat split.
Qed.

Lemma trim_nil : trim [] = [].
Proof. reflexivity. Qed.

(** C7, as the code has it.  For a [chat_delta] of the active id: when the
    transcript has no entry of that id, an assistant entry holding the delta
    is appended exactly when the delta has a character that is not white
    space, and a delta that is empty or all white space changes nothing;
    when the entry is there, the delta is appended to the content of the
    entry, after what earlier deltas put there. *)
Theorem first_delta_creates_entry_unless_blank
    (event : ChatStreamDeltaEvent) (now : Z) (t : Turn) :
  activeChatMessageIdRef (hook t) = Some (delta_message_id event) ->
  (existsb (has_id (delta_message_id event)) (chatMessages (hook t)) = false ->
   (trim (delta event) = [] -> onDelta event now t = t)
   /\ (delta event = [] -> onDelta event now t = t)
   /\ (trim (delta event) <> [] ->
       chatMessages (hook (onDelta event now t)) =
       chatMessages (hook t) ++
       [{| id := delta_message_id event; role := assistant;
           content := delta event; timestamp := now |}]))
  /\ (existsb (has_id (delta_message_id event)) (chatMessages (hook t)) = true ->
      chatMessages (hook (onDelta event now t)) =
      map (fun m => if has_id (delta_message_id event) m
                    then {| id := id m; role := role m;
                            content := content m ++ delta event;
                            timestamp := timestamp m |}
                    else m)
          (chatMessages (hook t))).
Proof.
  intros Ha. apply is_active_iff in Ha. unfold onDelta. rewrite Ha.
  cbn [negb]. split; intros He; rewrite He; cbn [negb].
  - split; [| split].
    + intros Hb. rewrite Hb. reflexivity.
    + intros Hb. rewrite Hb. reflexivity.
    + intros Hb. destruct (trim (delta event)); [congruence |]. reflexivity.
  - reflexivity.
Qed.

Lemma first_delta_creates_entry_unless_blank_witness :
  chatMessages (hook (onDelta (Samples.delta_m1 "Be") 1500%Z Samples.turn_m1)) =
  chatMessages (hook Samples.turn_m1) ++
  [{| id := txt "m1"; role := assistant; content := txt "Be";
      timestamp := 1500%Z |}].
Proof.
  refine (proj2 (proj2 (proj1
    (@first_delta_creates_entry_unless_blank
       (Samples.delta_m1 "Be") 1500%Z Samples.turn_m1 _) _)) _).
  - reflexivity.
  - reflexivity.
  - vm_compute. discriminate.
Defined.

(** Counterexample to C7 as stated: a first delta of one space is not the
    empty string, and yet no entry is created. *)
Lemma first_delta_rule_fails_on_blank :
  ~ first_delta_rule (Samples.delta_m1 " ") 1500%Z Samples.turn_m1.
Proof.
  unfold first_delta_rule. intros H.
  specialize (H eq_refl eq_refl). destruct H as [_ H].
  assert (Hne : delta (Samples.delta_m1 " ") <> [])
    by (vm_compute; discriminate).
  specialize (H Hne). vm_compute in H. discriminate.
Qed.

(** *** How a turn ends *)

Lemma error_deliver now cb t :
  error (hook (deliver now cb t)) =
  match cb with
  | OnError errorMsg => Some errorMsg
  | _ => error (hook t)
  end.
Proof.
  destruct cb as [e | e | e | m]; cbn [deliver]; try reflexivity.
  - unfold onDelta.
    destruct (negb (is_active _ _)); [reflexivity |].
    destruct (negb (existsb _ _)); [| reflexivity].
    destruct (is_empty _); reflexivity.
  - unfold onComplete. destruct (negb (is_active _ _)); reflexivity.
Qed.

Lemma map_snd_nil {A B} (l : list (A * B)) : map snd l = [] -> l = [].
Proof. destruct l; [reflexivity | discriminate]. Qed.

(** The error after the callbacks of a run: untouched, or the message of
    the [onError] that ended it. *)
Lemma error_deliver_all trace rejection t :
  error_is_final (map snd trace) rejection = true ->
  error (hook (deliver_all trace t)) = error (hook t)
  \/ exists m, rejection = Some (APIError m)
               /\ error (hook (deliver_all trace t)) = Some m.
Proof.
  revert t. induction trace as [| [now cb] trace IH]; intros t H.
  - left. reflexivity.
  - cbn [map snd error_is_final deliver_all] in *.
    destruct cb as [e | e | e | m].
    1-3: match goal with
         | |- context [deliver_all _ ?t'] =>
             destruct (IH t' H) as [E | E];
             [left; rewrite E, error_deliver; reflexivity | right; exact E]
         end.
    apply andb_true_iff in H. destruct H as [Hrest Hrej].
    destruct (map snd trace) eqn:Hm; [| discriminate].
    apply map_snd_nil in Hm. subst trace.
    destruct rejection as [[m' | | |] |]; try discriminate.
    apply text_eqb_eq in Hrej. subst m'.
    right. exists m. split; reflexivity.
Qed.

Lemma error_settle outcome t :
  error (sendChatMessage_settle outcome t) =
  if failed outcome
  then Some (message_of (txt "Failed to send message")
               match outcome with inl err => err | inr _ => NotAnError end)
  else error (hook t).
Proof.
  unfold sendChatMessage_settle.
  destruct outcome as [[m | m | m |] | u]; cbn; try reflexivity.
  destruct (streamFinished t); reflexivity.
Qed.

(** [finalized] says what it should: some [chat_complete] of the run met
    its message id as the active one when it was delivered. *)
Lemma finalized_iff trace t :
  finalized trace t = true <->
  exists before now event after,
    trace = before ++ (now, OnComplete event) :: after
    /\ activeChatMessageIdRef (hook (deliver_all before t))
       = Some (complete_message_id event).
Proof.
  revert t. induction trace as [| [now cb] trace IH]; intros t.
  - split; [discriminate |].
    intros (before & ? & ? & ? & H & _). destruct before; discriminate.
  - cbn [finalized]. rewrite orb_true_iff, IH. split.
    + intros [H | (before & now' & event & after & -> & H)].
      * destruct cb as [e | e | e | m]; try discriminate.
        exists [], now, e, trace. split; [reflexivity |].
        apply is_active_iff. exact H.
      * exists ((now, cb) :: before), now', event, after.
        split; [reflexivity | exact H].
    + intros (before & now' & event & after & Heq & H).
      destruct before as [| x before]; cbn [app] in Heq;
        inversion Heq; subst.
      * left. apply is_active_iff. exact H.
      * right. exists before, now', event, after.
        split; [reflexivity | exact H].
Qed.

(** The error once the call has settled, for any run shaped as the stream
    call shapes its runs: set exactly when the call failed. *)
Lemma settled_error_is_failure inFlight message now trace outcome s s1 req :
  sendChatMessage_call inFlight message now s = (s1, Some req) ->
  error_is_final (map snd trace) (rejection_of outcome) = true ->
  is_some (error (sendChatMessage_settle outcome
                    (deliver_all trace
                       {| hook := s1; streamFinished := false |})))
  = failed outcome.
Proof.
  intros Hc Hfinal.
  apply sendChatMessage_call_started in Hc as (threadId & _ & _ & _ & _ & Hs1).
  assert (Hclear : error s1 = None) by (subst s1; reflexivity).
  set (t0 := {| hook := s1; streamFinished := false |}).
  rewrite error_settle. destruct (failed outcome) eqn:Hf; [reflexivity |].
  destruct (@error_deliver_all trace _ t0 Hfinal) as [E | (m & Hr & E)].
  - rewrite E. cbn [t0 hook]. rewrite Hclear. reflexivity.
  - destruct outcome as [err | u]; [| discriminate].
    cbn [rejection_of] in Hr. injection Hr as ->. discriminate.
Qed.

(** Cancelling, by [closeChatStream] alone or within [reset], sets no
    error either. *)
Lemma cancel_sets_no_error s :
  error (closeChatStream s) = error s /\ error (reset s) = None.
Proof.
  unfold closeChatStream.
  destruct (chatAbortControllerRef s); split; reflexivity.
Qed.

(** C3, as the code has it.  For a call of [sendChatMessage] that starts a
    turn, on any run of the stream call (its callbacks, then resolved or
    rejected): the error is set exactly when the call is rejected by
    something other than an abort, which covers an [error] event, a payload
    that does not parse and a failed transport; an abort sets no error; so
    never both.  Whether the entry was finalized is a separate matter:
    exactly one of the three outcomes is seen exactly when either a
    [chat_complete] was accepted and the call resolved, or none was accepted
    and the call was rejected. *)
Theorem chat_turn_outcomes (inFlight : bool) (message : text) (now : Z)
    (trace : list (Z * callback)) (outcome : thrown + unit) (s : HookState) :
  turn_started inFlight message now s = true ->
  error_is_final (map snd trace) (rejection_of outcome) = true ->
  let '(f, e, c) := turn_observed inFlight message now trace outcome s in
  e = failed outcome
  /\ e && c = false
  /\ exactly_one f e c = xorb f (rejected outcome).
Proof.
  unfold turn_started, turn_observed, sendChatMessage.
  destruct (sendChatMessage_call inFlight message now s)
    as [s1 [req |]] eqn:Hc; [| discriminate].
  intros _ Hfinal. cbn [fst].
  rewrite (@settled_error_is_failure inFlight message now trace outcome s s1
             req Hc Hfinal).
  split; [reflexivity |].
  destruct (finalized trace _), outcome as [[m | m | m |] | u];
    split; reflexivity.
Qed.

Lemma chat_turn_outcomes_witness :
  let '(f, e, c) :=
    turn_observed false (txt "why?") 1000
      [(1001, OnStart {| start_message_id := txt "m1";
                         start_timestamp := 1000 |});
       (1002, OnDelta (Samples.delta_m1 "Be"));
       (1003, OnDelta (Samples.delta_m1 "cause"));
       (1004, OnComplete Samples.complete_m1)]%Z
      (inr tt) Samples.session in
  e = false /\ e && c = false /\ exactly_one f e c = xorb f false.
Proof.
  apply (@chat_turn_outcomes false (txt "why?") 1000
           [(1001, OnStart {| start_message_id := txt "m1";
                              start_timestamp := 1000 |});
            (1002, OnDelta (Samples.delta_m1 "Be"));
            (1003, OnDelta (Samples.delta_m1 "cause"));
            (1004, OnComplete Samples.complete_m1)]%Z
           (inr tt) Samples.session).
  - reflexivity.
  - reflexivity.
Defined.

(** Counterexample to C3 as stated, both ways.  A stream that closes
    without any event resolves the call: no entry is finalized, no error is
    set, nothing was cancelled.  And an [error] event after the accepted
    [chat_complete] leaves a finalized entry and the error set. *)
Lemma terminal_exclusivity_fails :
  ~ terminal_exclusivity false (txt "why?") 1000 [] (inr tt) Samples.session
  /\ ~ terminal_exclusivity false (txt "why?") 1000
         [(1001, OnStart {| start_message_id := txt "m1";
                            start_timestamp := 1000 |});
          (1002, OnComplete Samples.complete_m1);
          (1003, OnError (txt "late failure"))]%Z
         (inl (APIError (txt "late failure"))) Samples.session.
Proof.
  split; intros H; specialize (H eq_refl); vm_compute in H; discriminate.
Qed.

(** *** The theorems at sample turns *)

Lemma stale_delta_rejected_witness :
  onDelta {| delta_message_id := txt "m0"; delta := txt "late" |} 1500
    Samples.turn_m1 = Samples.turn_m1
  /\ onDelta (Samples.delta_m1 "late") 1500
       (on_hook closeChatStream Samples.turn_m1)
     = on_hook closeChatStream Samples.turn_m1.
Proof.
  destruct stale_delta_rejected as [Hother Hclosed].
  split.
  - apply (Hother {| delta_message_id := txt "m0"; delta := txt "late" |}
                  1500%Z Samples.turn_m1).
    vm_compute. discriminate.
  - apply (Hclosed (Samples.delta_m1 "late") 1500%Z Samples.turn_m1).
Defined.

(** The chat streaming scenario: deltas ["Be"] and ["cause"], then the final
    text ["Because of X"]. *)
Lemma chat_complete_is_authoritative_witness :
  chatMessages
    (hook (onComplete Samples.complete_m1
             (onDelta (Samples.delta_m1 "cause") 1002
                (onDelta (Samples.delta_m1 "Be") 1001 Samples.turn_m1))))
  = [{| id := txt "chat-1000-user"; role := user; content := txt "why?";
        timestamp := 1000%Z |};
     {| id := txt "m1"; role := assistant; content := txt "Because of X";
        timestamp := 2000%Z |}]
  /\ error
       (hook (onComplete Samples.complete_m1
                (onDelta (Samples.delta_m1 "cause") 1002
                   (onDelta (Samples.delta_m1 "Be") 1001 Samples.turn_m1))))
     = None.
Proof.
  destruct (@chat_complete_is_authoritative Samples.complete_m1
              (onDelta (Samples.delta_m1 "cause") 1002
                 (onDelta (Samples.delta_m1 "Be") 1001 Samples.turn_m1))
              eq_refl)
    as (_ & _ & Hmap & _ & _ & _ & Herr & _).
  split.
  - rewrite (Hmap eq_refl). reflexivity.
  - rewrite Herr. reflexivity.
Defined.

Lemma chat_complete_without_entry_witness :
  chatMessages
    (hook (onComplete Samples.complete_m1
             (onDelta (Samples.delta_m1 "") 1001 Samples.turn_m1)))
  = [{| id := txt "chat-1000-user"; role := user; content := txt "why?";
        timestamp := 1000%Z |};
     {| id := txt "m1"; role := assistant; content := txt "Because of X";
        timestamp := 2000%Z |}].
Proof.
  destruct (@chat_complete_without_entry Samples.complete_m1
              (onDelta (Samples.delta_m1 "") 1001 Samples.turn_m1)
              eq_refl eq_refl) as (Happ & _).
  rewrite Happ. reflexivity.
Defined.

End ChatTurnFacts.

(** ** Session operations *)

Module SessionFacts.

Import ApiClient Hook.

(** [uploadFiles] and [sendChatMessage] clear the error before their
    request goes out. *)
Lemma uploadFiles_clears_error files now s s1 req :
  uploadFiles_call files now s = (s1, Some req) -> error s1 = None.
Proof.
  unfold uploadFiles_call. destruct files as [| f files]; [discriminate |].
  intros H. injection H as <- _. reflexivity.
Qed.

Lemma sendChatMessage_clears_error inFlight message now s s1 req :
  sendChatMessage_call inFlight message now s = (s1, Some req) ->
  error s1 = None.
Proof.
  intros H. apply ChatTurnFacts.sendChatMessage_call_started in H.
  destruct H as (threadId & _ & _ & _ & _ & ->). reflexivity.
Qed.

(** With a thread id at hand, [generateReport] and [declineReport] send
    their request with the error as they found it. *)
Lemma generateReport_call_keeps_error s threadId :
  present (threadIdRef s) = Some threadId ->
  generateReport_call s =
  (setShowSplitView true (setState generating s),
   Some (SubmitReview threadId true))
  /\ error (fst (generateReport_call s)) = error s.
Proof.
  unfold generateReport_call. intros ->. split; reflexivity.
Qed.

Lemma declineReport_call_keeps_error s threadId :
  present (threadIdRef s) = Some threadId ->
  declineReport_call s = (s, Some (SubmitReview threadId false)).
Proof.
  unfold declineReport_call. intros ->. reflexivity.
Qed.

(** C8 on the code.  In a session whose last [declineReport] failed, the
    error is set.  [generateReport] and [declineReport] then issue their
    request with that error still in place, and it is still there when the
    request has succeeded; [uploadFiles] and [sendChatMessage] clear it
    first. *)
Theorem generateReport_keeps_lastError :
  let s := Samples.session_after_failure in
  let stale := Some (txt "HTTP 500: Internal Server Error") in
  let ok := {| review_status := txt "ok"; gamma_link := None |} in
  error s = stale
  /\ generateReport_call s
     = (setShowSplitView true (setState generating s),
        Some (SubmitReview (txt "t1") true))
  /\ error (fst (generateReport_call s)) = stale
  /\ error (generateReport (inr ok) s) = stale
  /\ state (generateReport (inr ok) s) = complete
  /\ declineReport_call s = (s, Some (SubmitReview (txt "t1") false))
  /\ error (declineReport (inr ok) s) = stale
  /\ error (fst (uploadFiles_call [{| name := txt "tor.pdf" |}] 5 s)) = None
  /\ error (fst (sendChatMessage_call (rendered s) (txt "why?") 5 s)) = None.
Proof.
  cbv zeta. repeat split.
Qed.

(** The request of [generateReport] goes out exactly when the thread id
    is at hand. *)
Lemma generateReport_call_request s threadId :
  snd (generateReport_call s) = Some (SubmitReview threadId true) ->
  present (threadIdRef s) = Some threadId
  /\ fst (generateReport_call s)
     = setShowSplitView true (setState generating s).
Proof.
  unfold generateReport_call.
  destruct (present (threadIdRef s)) as [t |]; [| discriminate].
  simpl. intros H. injection H as ->. split; reflexivity.
Qed.

(** C9.  Failure recovery of [generateReport].  With a thread id, when the
    [submitReview] it called fails, the session has the error of the failure,
    is back in state [verdict] (so neither [idle] nor left in [generating]),
    and keeps its verdict, its thread and its transcript.  With no thread id
    the call sets the error, sends nothing and changes nothing else. *)
Theorem generateReport_failure_recovery (s : HookState) :
  (forall threadId err,
     threadIdRef s = Some threadId ->
     snd (generateReport_call s) = Some (SubmitReview threadId true) ->
     state (fst (generateReport_call s)) = generating
     /\ generateReport (inl err) s
        = setState verdict
            (setError
               (Some (message_of (txt "Failed to generate report") err))
               (setShowSplitView true s))
     /\ state (generateReport (inl err) s) = verdict
     /\ error (generateReport (inl err) s)
        = Some (message_of (txt "Failed to generate report") err)
     /\ verdictData (generateReport (inl err) s) = verdictData s
     /\ threadIdRef (generateReport (inl err) s) = threadIdRef s
     /\ chatMessages (generateReport (inl err) s) = chatMessages s)
  /\ (forall outcome,
        threadIdRef s = None ->
        snd (generateReport_call s) = None
        /\ generateReport outcome s
           = setError (Some (txt "No analysis session found")) s).
Proof.
  split.
  - intros threadId err _ Hreq.
    apply generateReport_call_request in Hreq. destruct Hreq as [Hp Hs].
    unfold generateReport. rewrite Hs.
    unfold generateReport_call. rewrite Hp.
    repeat split.
  - intros outcome Hn. unfold generateReport, generateReport_call.
    rewrite Hn. split; reflexivity.
Qed.

Lemma generateReport_failure_recovery_witness :
  state (generateReport (inl (APIError (txt "HTTP 502: Bad Gateway")))
           Samples.session) = verdict
  /\ error (generateReport (inl (APIError (txt "HTTP 502: Bad Gateway")))
              Samples.session) = Some (txt "HTTP 502: Bad Gateway")
  /\ generateReport (inl NotAnError) initial
     = setError (Some (txt "No analysis session found")) initial.
Proof.
  destruct (generateReport_failure_recovery Samples.session) as [H _].
  destruct (generateReport_failure_recovery initial) as [_ H0].
  specialize (H (txt "t1") (APIError (txt "HTTP 502: Bad Gateway"))
                eq_refl eq_refl).
  specialize (H0 (inl NotAnError) eq_refl).
  destruct H as (_ & _ & Hs & He & _). destruct H0 as [_ H0].
  split; [exact Hs |]. split; [exact He | exact H0].
Defined.

End SessionFacts.

(** ** A turn on the stream call *)

Module StreamTurnFacts.

Import ApiClient Hook.

(** Every run of [sendChatMessageStream] has the shape the turn's outcomes
    were stated for, so they hold of every turn the hook runs on it,
    whatever [fetch] and the reader deliver and whenever the callbacks
    arrive. *)
Lemma chat_turn_on_stream (payload : Type)
    (JSON_parse : text -> option payload)
    (payload_error payload_detail : payload -> option text)
    (as_start : payload -> ChatStreamStartEvent)
    (as_delta : payload -> ChatStreamDeltaEvent)
    (as_complete : payload -> ChatStreamCompleteEvent)
    (r : fetch_outcome payload)
    (inFlight : bool) (message : text) (now : Z)
    (trace : list (Z * callback)) (s : HookState) :
  let run :=
    sendChatMessageStream JSON_parse payload_error payload_detail
      as_start as_delta as_complete r in
  turn_started inFlight message now s = true ->
  map snd trace = fst run ->
  let '(f, e, c) := turn_observed inFlight message now trace (snd run) s in
  e = failed (snd run)
  /\ e && c = false
  /\ exactly_one f e c = xorb f (rejected (snd run)).
Proof.
  intros run Hstart Htrace.
  assert (Hfinal : error_is_final (map snd trace) (rejection_of (snd run))
                   = true).
  { rewrite Htrace.
    apply (DecoderFacts.sendChatMessageStream_well_ended
             JSON_parse payload_error payload_detail
             as_start as_delta as_complete r). }
  revert Hstart. unfold turn_started, turn_observed, sendChatMessage.
  destruct (sendChatMessage_call inFlight message now s)
    as [s1 [req |]] eqn:Hc; [| discriminate].
  intros _. cbn [fst].
  rewrite (@ChatTurnFacts.settled_error_is_failure
             inFlight message now trace (snd run) s s1 req Hc Hfinal).
  split; [reflexivity |].
  destruct (finalized trace _), (snd run) as [[m | m | m |] | u];
    split; reflexivity.
Qed.

End StreamTurnFacts.

(** * Further properties *)

(** ** Frames of the chat stream *)

Module FrameFacts.

Import ApiClient.

Section Decoder.

Variable payload : Type.
Variable JSON_parse : text -> option payload.
Variable payload_error : payload -> option text.
Variable payload_detail : payload -> option text.
Variable as_start : payload -> ChatStreamStartEvent.
Variable as_delta : payload -> ChatStreamDeltaEvent.
Variable as_complete : payload -> ChatStreamCompleteEvent.

Local Abbreviation processSSEEvent :=
  (processSSEEvent JSON_parse payload_error as_start as_delta as_complete).
Local Abbreviation drain :=
  (drain JSON_parse payload_error as_start as_delta as_complete).
Local Abbreviation sendChatMessageStream :=
  (sendChatMessageStream JSON_parse payload_error payload_detail
     as_start as_delta as_complete).

Lemma error_is_final_split cbs rejection before m after :
  error_is_final cbs rejection = true ->
  cbs = before ++ OnError m :: after ->
  after = []
  /\ rejection = Some (APIError m)
  /\ forallb (fun cb => negb (is_OnError cb)) before = true.
Proof.
  revert cbs. induction before as [| b before IH]; intros cbs H ->.
  - cbn [app error_is_final] in H. apply andb_true_iff in H.
    destruct H as [Ha Hr]. destruct after; [| discriminate].
    destruct rejection as [[m' | | |] |]; try discriminate.
    apply text_eqb_eq in Hr. subst m'. auto.
  - cbn [app error_is_final] in H.
    destruct b as [e | e | e | m'].
    1-3: destruct (IH _ H eq_refl) as (Ha & Hr & Hq); auto.
    apply andb_true_iff in H. destruct H as [Ha _].
    destruct before; discriminate.
Qed.

(** X1.  An [onError] is the last thing the stream call does to its callbacks:
    nothing is invoked after it, none was invoked before it, and the call
    is rejected with an [APIError] that carries the same message. *)
Theorem onError_is_the_last_callback (r : fetch_outcome payload)
    (before after : list callback) (m : text) :
  fst (sendChatMessageStream r) = before ++ OnError m :: after ->
  after = []
  /\ snd (sendChatMessageStream r) = inl (APIError m)
  /\ forallb (fun cb => negb (is_OnError cb)) before = true.
Proof.
  intros H.
  pose proof (DecoderFacts.sendChatMessageStream_well_ended
                JSON_parse payload_error payload_detail
                as_start as_delta as_complete r) as Hw.
  unfold well_ended in Hw.
  destruct (@error_is_final_split _ _ before m after Hw H)
    as (Ha & Hr & Hq).
  repeat split; try assumption.
  destruct (snd (sendChatMessageStream r)) as [e | u]; [| discriminate].
  cbn [rejection_of] in Hr. congruence.
Qed.

Lemma scan_line_no_data acc rawLine :
  startsWith (txt "data:") (trimEnd rawLine) = false ->
  snd (scan_line acc rawLine) = snd acc.
Proof.
  intros H. unfold scan_line. rewrite H.
  destruct (is_empty _ || _); [reflexivity |].
  destruct (startsWith (txt "event:") _); reflexivity.
Qed.

Lemma fold_scan_no_data lines acc :
  Forall (fun l => startsWith (txt "data:") (trimEnd l) = false) lines ->
  snd (fold_left scan_line lines acc) = snd acc.
Proof.
  intros H. revert acc. induction H as [| l lines Hl _ IH]; intros acc.
  - reflexivity.
  - cbn [fold_left]. rewrite IH. apply scan_line_no_data, Hl.
Qed.

(** X2.  A frame without a [data:] line, such as a comment sent to keep the
    connection alive or a bare [event:] line, is passed over: no callback is
    invoked and nothing is thrown, whatever the frame's event name. *)
Theorem frame_without_data_is_ignored (rawEvent : text) :
  Forall (fun l => startsWith (txt "data:") (trimEnd l) = false)
    (split_lines rawEvent) ->
  processSSEEvent rawEvent = ret tt.
Proof.
  intros H. unfold ApiClient.processSSEEvent.
  pose proof (@fold_scan_no_data _ (txt "message", []) H) as Hs.
  destruct (fold_left scan_line _ _) as [eventName dataLines].
  cbn [snd] in Hs. subst dataLines. reflexivity.
Qed.

Lemma scan_line_no_event acc rawLine :
  startsWith (txt "event:") (trimEnd rawLine) = false ->
  fst (scan_line acc rawLine) = fst acc.
Proof.
  intros H. unfold scan_line. rewrite H.
  destruct (is_empty _ || _); [reflexivity |].
  destruct (startsWith (txt "data:") _); reflexivity.
Qed.

Lemma fold_scan_no_event lines acc :
  Forall (fun l => startsWith (txt "event:") (trimEnd l) = false) lines ->
  fst (fold_left scan_line lines acc) = fst acc.
Proof.
  intros H. revert acc. induction H as [| l lines Hl _ IH]; intros acc.
  - reflexivity.
  - cbn [fold_left]. rewrite IH. apply scan_line_no_event, Hl.
Qed.

(** X3.  A frame without an [event:] line has the default name [message], which
    the decoder does not dispatch: the frame reaches none of [onStart],
    [onDelta] and [onComplete].  Its data is still parsed, so it is either
    dropped without a trace or, when it does not parse, fatal to the turn. *)
Theorem frame_without_event_name_is_not_dispatched (rawEvent : text) :
  Forall (fun l => startsWith (txt "event:") (trimEnd l) = false)
    (split_lines rawEvent) ->
  processSSEEvent rawEvent = ret tt
  \/ processSSEEvent rawEvent
     = ([OnError (txt "Failed to parse stream payload")],
        inl (APIError (txt "Failed to parse stream payload"))).
Proof.
  intros H. unfold ApiClient.processSSEEvent.
  pose proof (@fold_scan_no_event _ (txt "message", []) H) as Hs.
  destruct (fold_left scan_line _ _) as [eventName dataLines].
  cbn [fst] in Hs. subst eventName.
  destruct dataLines as [| l ls]; [left; reflexivity |].
  destruct (JSON_parse _); [left | right]; reflexivity.
Qed.

(** X4.  What the inner loop leaves in the buffer holds no frame delimiter, and
    is the end of what it was given: the loop consumes whole frames from the
    front and nothing else. *)
Theorem drain_leaves_an_incomplete_frame (buffer rest : text)
    (cbs : list callback) :
  drain buffer = (cbs, inr rest) ->
  indexOf delimiter rest = None
  /\ exists consumed, buffer = consumed ++ rest.
Proof.
  remember (length buffer) as n eqn:Hn. revert buffer Hn cbs.
  induction n as [n IH] using lt_wf_ind. intros buffer Hn cbs.
  rewrite DecoderFacts.drain_step.
  destruct (indexOf delimiter buffer) as [i |] eqn:Hi.
  - pose proof (indexOf_bound _ _ Hi) as Hb. simpl in Hb.
    cbv zeta. unfold bind.
    destruct (if is_empty _ then _ else _) as [cbs1 [e | u]];
      [discriminate |].
    destruct (drain (slice_from (i + 2) buffer)) as [cbs2 r] eqn:Hd.
    intros H. injection H as _ ->.
    apply (IH (length (slice_from (i + 2) buffer))) in Hd;
      [| unfold slice_from; rewrite length_skipn; lia | reflexivity].
    destruct Hd as [Hnone [consumed Hc]]. split; [exact Hnone |].
    exists (firstn (i + 2) buffer ++ consumed).
    rewrite <- app_assoc, <- Hc. unfold slice_from.
    symmetry. apply firstn_skipn.
  - intros H. injection H as _ <-. split; [exact Hi |].
    exists []. reflexivity.
Qed.

End Decoder.

Lemma onError_is_the_last_callback_witness :
  snd (Samples.decode_sample
         {| chunks := [list_byte_of_string "data: oops" ++ [x0a; x0a]
                       ++ list_byte_of_string "event: chat_start" ++ [x0a]
                       ++ list_byte_of_string "data: {m1}" ++ [x0a; x0a]];
            closing := None |})
  = inl (APIError (txt "Failed to parse stream payload")).
Proof.
  refine (proj1 (proj2
    (@onError_is_the_last_callback _ Samples.braces (fun _ => None)
       (fun _ => None)
       (fun p => {| start_message_id := p; start_timestamp := 0%Z |})
       (fun p => {| delta_message_id := p; delta := p |})
       (fun p => {| complete_message_id := p; response := p;
                    complete_timestamp := 0%Z |})
       (Streaming _
          {| chunks := [list_byte_of_string "data: oops" ++ [x0a; x0a]
                        ++ list_byte_of_string "event: chat_start" ++ [x0a]
                        ++ list_byte_of_string "data: {m1}" ++ [x0a; x0a]];
             closing := None |})
       [] [] (txt "Failed to parse stream payload") _))).
  reflexivity.
Defined.

Lemma frame_without_data_is_ignored_witness :
  MoreSamples.frame_sample
    (txt ": keep-alive" ++ MoreSamples.line_feed ++ txt "event: chat_delta")
  = ret tt.
Proof.
  apply (@frame_without_data_is_ignored _ Samples.braces (fun _ => None)
           (fun p => {| start_message_id := p; start_timestamp := 0%Z |})
           (fun p => {| delta_message_id := p; delta := p |})
           (fun p => {| complete_message_id := p; response := p;
                        complete_timestamp := 0%Z |})
           (txt ": keep-alive" ++ MoreSamples.line_feed
            ++ txt "event: chat_delta")).
  vm_compute. repeat constructor.
Defined.

Lemma frame_without_event_name_is_not_dispatched_witness :
  MoreSamples.frame_sample (txt "data: {m1}") = ret tt
  \/ MoreSamples.frame_sample (txt "data: {m1}")
     = ([OnError (txt "Failed to parse stream payload")],
        inl (APIError (txt "Failed to parse stream payload"))).
Proof.
  apply (@frame_without_event_name_is_not_dispatched _ Samples.braces
           (fun _ => None)
           (fun p => {| start_message_id := p; start_timestamp := 0%Z |})
           (fun p => {| delta_message_id := p; delta := p |})
           (fun p => {| complete_message_id := p; response := p;
                        complete_timestamp := 0%Z |})
           (txt "data: {m1}")).
  vm_compute. repeat constructor.
Defined.

Lemma drain_leaves_an_incomplete_frame_witness :
  indexOf delimiter (txt "event: chat_de") = None
  /\ exists consumed,
       txt "event: chat_start" ++ MoreSamples.line_feed ++ txt "data: {m1}"
       ++ delimiter ++ txt "event: chat_de"
       = consumed ++ txt "event: chat_de".
Proof.
  apply (@drain_leaves_an_incomplete_frame _ Samples.braces (fun _ => None)
           (fun p => {| start_message_id := p; start_timestamp := 0%Z |})
           (fun p => {| delta_message_id := p; delta := p |})
           (fun p => {| complete_message_id := p; response := p;
                        complete_timestamp := 0%Z |})
           (txt "event: chat_start" ++ MoreSamples.line_feed
            ++ txt "data: {m1}" ++ delimiter ++ txt "event: chat_de")
           (txt "event: chat_de")
           [OnStart {| start_message_id := txt "{m1}";
                       start_timestamp := 0%Z |}]).
  reflexivity.
Defined.

End FrameFacts.

(** ** The progress log, as a whole *)

Module ProgressLogMore.

Import ApiClient Hook ProgressLogFacts.

Lemma known_before log x s :
  known x (onThinkingLog log s) = false -> known x s = false.
Proof.
  intros H. destruct (known x s) eqn:Hk; [| reflexivity].
  rewrite (@known_kept x log s Hk) in H. discriminate.
Qed.

Lemma onThinkingLog_only_log log s :
  onThinkingLog log s = setThinkingLogs (thinkingLogs (onThinkingLog log s)) s.
Proof. reflexivity. Qed.

Lemma deliver_logs_only_log logs s :
  deliver_logs logs s = setThinkingLogs (thinkingLogs (deliver_logs logs s)) s.
Proof.
  revert s. induction logs as [| l logs IH]; intros s.
  - symmetry. apply setThinkingLogs_same.
  - change (deliver_logs (l :: logs) s)
      with (deliver_logs logs (onThinkingLog l s)).
    rewrite IH at 1. reflexivity.
Qed.

(** X5.  Whatever [thinking_log] events arrive, the progress log only grows at
    its end: the entries that were there stay where they are, every event's
    id is in the log afterwards, and each entry that was added is the copy of
    one of the events and has an id the log did not have before.  No other
    part of the state changes. *)
Theorem progress_log_is_append_only
    (logs : list ThinkingLogEvent) (s : HookState) :
  exists added,
    deliver_logs logs s = setThinkingLogs (thinkingLogs s ++ added) s
    /\ (forall log, In log logs ->
                    known (ev_id log) (deliver_logs logs s) = true)
    /\ (forall entry, In entry added ->
          known (log_id entry) s = false
          /\ exists log,
               In log logs
               /\ entry = {| log_id := ev_id log; agent := ev_agent log;
                             log_message := ev_message log;
                             log_timestamp := ev_timestamp log;
                             log_status := ev_status log |}).
Proof.
  revert s. induction logs as [| l logs IH]; intros s.
  - exists []. rewrite app_nil_r. split; [| split].
    + symmetry. apply setThinkingLogs_same.
    + intros log [].
    + intros entry [].
  - destruct (IH (onThinkingLog l s)) as (added' & Heq & Hall & Hnew).
    change (deliver_logs (l :: logs) s)
      with (deliver_logs logs (onThinkingLog l s)).
    destruct (known (ev_id l) s) eqn:Hk.
    + rewrite (@onThinkingLog_known l s Hk) in *.
      exists added'. split; [exact Heq |]. split.
      * intros log [<- | Hin]; [| apply Hall, Hin].
        apply known_kept_all, Hk.
      * intros entry Hin.
        destruct (Hnew entry Hin) as (Hk' & log & Hlog & ->).
        split; [exact Hk' |].
        exists log. split; [right; exact Hlog | reflexivity].
    + exists ({| log_id := ev_id l; agent := ev_agent l;
                 log_message := ev_message l; log_timestamp := ev_timestamp l;
                 log_status := ev_status l |} :: added').
      split; [| split].
      * rewrite Heq, (@onThinkingLog_new l s Hk), <- app_assoc. reflexivity.
      * intros log [<- | Hin]; [| apply Hall, Hin].
        apply known_kept_all, known_after.
      * intros entry [<- | Hin].
        -- split; [exact Hk |]. exists l. split; [left |]; reflexivity.
        -- destruct (Hnew entry Hin) as (Hk' & log & Hlog & ->).
           split; [apply (@known_before l _ s), Hk' |].
           exists log. split; [right; exact Hlog | reflexivity].
Qed.

End ProgressLogMore.

(** ** What every reachable state satisfies *)

Module MachineFacts.

Import ApiClient Hook HookRest EventStream Machine.

Lemma run_invariant (P : HookState -> Prop) :
  P initial ->
  (forall o s, P s -> P (step o s)) ->
  forall ops, P (run ops initial).
Proof.
  intros H0 Hstep ops. unfold run.
  generalize initial H0. induction ops as [| o ops IH]; intros s Hs.
  - exact Hs.
  - cbn [fold_left]. apply IH, Hstep, Hs.
Qed.

(** Case analysis on everything a step branches on. *)
Ltac branches :=
  repeat match goal with
         | |- context [match ?x with _ => _ end] => destruct x eqn:?
         end.

Lemma deliver_keeps_session now cb t :
  eventSourceRef (hook (deliver now cb t)) = eventSourceRef (hook t)
  /\ isConnected (hook (deliver now cb t)) = isConnected (hook t)
  /\ thinkingLogs (hook (deliver now cb t)) = thinkingLogs (hook t)
  /\ threadIdRef (hook (deliver now cb t)) = threadIdRef (hook t).
Proof.
  destruct cb; cbn [deliver]; unfold onStart, onDelta, onComplete, onError;
    branches; repeat split.
Qed.

Lemma settle_keeps_session outcome t :
  eventSourceRef (sendChatMessage_settle outcome t) = eventSourceRef (hook t)
  /\ isConnected (sendChatMessage_settle outcome t) = isConnected (hook t)
  /\ thinkingLogs (sendChatMessage_settle outcome t) = thinkingLogs (hook t)
  /\ threadIdRef (sendChatMessage_settle outcome t) = threadIdRef (hook t).
Proof.
  unfold sendChatMessage_settle. branches; repeat split.
Qed.

Ltac open_step :=
  unfold uploadFiles_call, uploadFiles_resolved, uploadFiles_rejected,
    uploadFiles_connect_failed, handle, onThinkingLog, onVerdict,
    onStreamComplete, onGammaLink, onStreamError, generateReport_call,
    generateReport_resolved, generateReport_rejected, declineReport_call,
    declineReport_resolved, declineReport_rejected, sendChatMessage_call,
    deliver, onStart, onDelta, onComplete, onError, sendChatMessage_settle,
    closeSplitView, reset, unmount, closeChatStream, closeEventSource,
    on_hook, finish.

Lemma step_connection_consistent o s :
  connection_consistent s -> connection_consistent (step o s).
Proof.
  unfold connection_consistent.
  destruct o; cbn [step]; open_step; branches; cbn;
    intros H; try assumption; try reflexivity;
    repeat match goal with
           | E : eventSourceRef _ = _ |- _ => rewrite E
           end;
    cbn; congruence.
Qed.

Lemma not_known_not_In x logs :
  existsb (fun l => text_eqb (log_id l) x) logs = false ->
  ~ In x (map log_id logs).
Proof.
  intros H Hin. apply in_map_iff in Hin. destruct Hin as (l & <- & Hin).
  assert (existsb (fun l' => text_eqb (log_id l') (log_id l)) logs = true)
    as Hc; [| congruence].
  apply existsb_exists. exists l. split; [exact Hin | apply text_eqb_refl].
Qed.

Lemma onThinkingLog_unique log s :
  log_ids_unique s -> log_ids_unique (onThinkingLog log s).
Proof.
  unfold log_ids_unique, onThinkingLog. cbn [thinkingLogs setThinkingLogs].
  intros H. destruct (existsb _ (thinkingLogs s)) eqn:He; [exact H |].
  rewrite map_app. cbn [map log_id].
  apply NoDup_app; [exact H | repeat constructor; intros [] |].
  intros x Hx [<- | []]. exact (not_known_not_In _ _ He Hx).
Qed.

Lemma step_log_ids_unique o s :
  log_ids_unique s -> log_ids_unique (step o s).
Proof.
  intros H. destruct o; cbn [step];
    try (unfold log_ids_unique in *; open_step; branches; cbn in *;
         first [assumption | constructor]).
  destruct cb; cbn [handle]; try apply onThinkingLog_unique, H;
    unfold log_ids_unique in *; open_step; branches; cbn in *; assumption.
Qed.

Lemma present_is_some r threadId :
  present r = Some threadId -> is_some r = true.
Proof. destruct r as [[|] |]; simpl; congruence. Qed.

Lemma step_chat_flags_consistent o s :
  chat_flags_consistent s -> chat_flags_consistent (step o s).
Proof.
  unfold chat_flags_consistent. intros [Hl Hf].
  destruct o; cbn [step]; open_step; branches; cbn in *;
    try (split; [assumption | assumption]);
    try (split; intros; try discriminate; try reflexivity; auto;
         eauto using present_is_some; fail).
Qed.

(** X6.  In whatever order the operations of the hook, the callbacks of the two
    streams and the cleanup run, starting from the initial state, no two
    entries of the progress log share an id. *)
Theorem progress_log_ids_stay_unique (ops : list op) :
  NoDup (map log_id (thinkingLogs (run ops initial))).
Proof.
  apply (run_invariant log_ids_unique).
  - constructor.
  - apply step_log_ids_unique.
Qed.

(** X7.  In every state the hook can reach, [isConnected] is true exactly when
    the hook holds an [EventSource]. *)
Theorem connection_flag_tracks_the_stream (ops : list op) :
  isConnected (run ops initial) = is_some (eventSourceRef (run ops initial)).
Proof.
  apply (run_invariant connection_consistent).
  - reflexivity.
  - apply step_connection_consistent.
Qed.

(** X8.  In every state the hook can reach, the chat loading indicator is up
    only while a turn is in flight, and a turn is in flight only while the
    hook has a thread id. *)
Theorem chat_flags_stay_consistent (ops : list op) :
  (isChatLoading (run ops initial) = true ->
   isChatInFlight (run ops initial) = true)
  /\ (isChatInFlight (run ops initial) = true ->
      exists threadId, threadIdRef (run ops initial) = Some threadId).
Proof.
  destruct (run_invariant chat_flags_consistent) with (ops := ops)
    as [Hl Hf].
  - split; discriminate.
  - apply step_chat_flags_consistent.
  - split; [exact Hl |]. intros H. specialize (Hf H).
    destruct (threadIdRef (run ops initial)) as [t |]; [| discriminate].
    exists t. reflexivity.
Qed.

Lemma reset_of_consistent s :
  connection_consistent s -> reset s = initial.
Proof.
  unfold connection_consistent. destruct s as [? ? ? ? ? ? ? ? c ? ? e ? a ?].
  cbn. intros ->. destruct e, a; reflexivity.
Qed.

(** X9.  [reset] gives back the initial state from every state the hook can
    reach: state [idle], empty log, messages and transcript, no verdict, no
    link, no error, no thread, nothing connected and no turn in flight.  On
    any state at all, a second [reset] changes nothing, and a chat message
    sent next is turned down for want of a thread. *)
Theorem reset_restores_the_initial_state :
  (forall ops, reset (run ops initial) = initial)
  /\ (forall s, reset (reset s) = reset s)
  /\ (forall s inFlight message now,
        sendChatMessage_call inFlight message now (reset s)
        = (setError (Some (txt "No analysis session found")) (reset s),
           None)).
Proof.
  split; [| split].
  - intros ops. apply reset_of_consistent.
    apply (run_invariant connection_consistent);
      [reflexivity | apply step_connection_consistent].
  - intros s. destruct s as [? ? ? ? ? ? ? ? c ? ? e ? a ?].
    destruct e, a; vm_compute; reflexivity.
  - intros s inFlight message now. unfold sendChatMessage_call.
    cbn [threadIdRef reset set_threadIdRef present]. reflexivity.
Qed.

Lemma chat_flags_stay_consistent_witness :
  exists threadId,
    threadIdRef
      (run [UploadCall [{| name := txt "tor.pdf" |}] 900;
            UploadResolved {| thread_id := txt "t1";
                              analyze_status := txt "processing" |};
            ChatCall false (txt "why?") 1000] initial)
    = Some threadId.
Proof.
  apply (proj2 (chat_flags_stay_consistent
                  [UploadCall [{| name := txt "tor.pdf" |}] 900;
                   UploadResolved {| thread_id := txt "t1";
                                     analyze_status := txt "processing" |};
                   ChatCall false (txt "why?") 1000])).
  reflexivity.
Defined.


End MachineFacts.

(** ** Chat turns, as a whole *)

Module ChatTurnMore.

Import ApiClient Hook ChatRuns ChatTurnFacts.

Lemma onDelta_stale event now t :
  is_active (delta_message_id event) (hook t) = false ->
  onDelta event now t = t.
Proof. intros H. unfold onDelta. rewrite H. reflexivity. Qed.

Lemma onComplete_stale event t :
  is_active (complete_message_id event) (hook t) = false ->
  onComplete event t = t.
Proof. intros H. unfold onComplete. rewrite H. reflexivity. Qed.

Lemma onComplete_clears_active event t :
  is_active (complete_message_id event) (hook t) = true ->
  activeChatMessageIdRef (hook (onComplete event t)) = None.
Proof. intros H. unfold onComplete. rewrite H. reflexivity. Qed.

Lemma is_active_none message_id s :
  activeChatMessageIdRef s = None -> is_active message_id s = false.
Proof. unfold is_active. intros ->. reflexivity. Qed.

(** X10.  A [chat_complete] closes the turn to the rest of the stream.  Handling
    the same event a second time changes nothing, and once a [chat_complete]
    has been accepted every later [chat_delta] and [chat_complete], of
    whatever message id, is dropped: the final text stays as it is until a
    new [chat_start] names an active message. *)
Theorem chat_complete_closes_the_turn
    (event : ChatStreamCompleteEvent) (t : Turn) :
  onComplete event (onComplete event t) = onComplete event t
  /\ (activeChatMessageIdRef (hook t) = Some (complete_message_id event) ->
      forall now late_delta late_complete,
        onDelta late_delta now (onComplete event t) = onComplete event t
        /\ onComplete late_complete (onComplete event t)
           = onComplete event t).
Proof.
  split.
  - destruct (is_active (complete_message_id event) (hook t)) eqn:Ha.
    + apply onComplete_stale, is_active_none, onComplete_clears_active, Ha.
    + rewrite (onComplete_stale _ _ Ha). apply onComplete_stale, Ha.
  - intros Ha now late_delta late_complete. apply is_active_iff in Ha.
    pose proof (onComplete_clears_active _ _ Ha) as Hn.
    split.
    + apply onDelta_stale, is_active_none, Hn.
    + apply onComplete_stale, is_active_none, Hn.
Qed.

Lemma chat_complete_closes_the_turn_witness :
  onDelta (Samples.delta_m1 " and more") 2100
    (onComplete Samples.complete_m1 Samples.turn_m1)
  = onComplete Samples.complete_m1 Samples.turn_m1.
Proof.
  apply (proj2 (chat_complete_closes_the_turn Samples.complete_m1
                  Samples.turn_m1) eq_refl 2100%Z
           (Samples.delta_m1 " and more") Samples.complete_m1).
Defined.

Lemma extended_has_id message_id d x m :
  has_id x (extended message_id d m) = has_id x m.
Proof.
  unfold extended. destruct (has_id message_id m); reflexivity.
Qed.

Lemma extended_nil message_id m : extended message_id [] m = m.
Proof.
  unfold extended. destruct (has_id message_id m); [| reflexivity].
  destruct m. cbn. rewrite app_nil_r. reflexivity.
Qed.

Lemma extended_twice message_id d d' m :
  extended message_id d' (extended message_id d m)
  = extended message_id (d ++ d') m.
Proof.
  unfold extended at 2 3. destruct (has_id message_id m) eqn:Hh.
  - unfold extended, has_id in *. cbn. rewrite Hh, app_assoc. reflexivity.
  - unfold extended. rewrite Hh. reflexivity.
Qed.

Lemma onDelta_extends event now t :
  is_active (delta_message_id event) (hook t) = true ->
  existsb (has_id (delta_message_id event)) (chatMessages (hook t)) = true ->
  chatMessages (hook (onDelta event now t))
  = map (extended (delta_message_id event) (delta event))
      (chatMessages (hook t))
  /\ activeChatMessageIdRef (hook (onDelta event now t))
     = activeChatMessageIdRef (hook t).
Proof.
  intros Ha He. unfold onDelta. rewrite Ha, He. split; reflexivity.
Qed.

(** X11.  Deltas accumulate in arrival order.  Once the entry of the active
    message is in the transcript, any run of deltas for it leaves the entry
    with its earlier content followed by the deltas, one after the other, and
    leaves its id, role and timestamp and every other entry alone. *)
Theorem deltas_accumulate_in_order
    (message_id : text) (ds : list (Z * text)) (t : Turn) :
  activeChatMessageIdRef (hook t) = Some message_id ->
  existsb (has_id message_id) (chatMessages (hook t)) = true ->
  chatMessages (hook (deliver_all (delta_trace message_id ds) t))
  = map (extended message_id (concat (map snd ds))) (chatMessages (hook t)).
Proof.
  revert t. induction ds as [| [now d] ds IH]; intros t Ha He.
  - cbn. rewrite <- (map_id (chatMessages (hook t))) at 1.
    apply map_ext. intros m. symmetry. apply extended_nil.
  - change (delta_trace message_id ((now, d) :: ds))
      with ((now, OnDelta {| delta_message_id := message_id; delta := d |})
            :: delta_trace message_id ds).
    cbn [map deliver_all deliver fst snd concat].
    apply is_active_iff in Ha as Ha'.
    destruct (@onDelta_extends
                {| delta_message_id := message_id; delta := d |} now t
                Ha' He) as [Hm Hact].
    cbn [delta_message_id delta] in Hm, Hact.
    rewrite IH.
    + rewrite Hm, map_map. apply map_ext. intros m. apply extended_twice.
    + rewrite Hact. exact Ha.
    + rewrite Hm. rewrite existsb_exists in *.
      destruct He as (x & Hx & Hh). exists (extended message_id d x).
      split; [apply in_map, Hx | rewrite extended_has_id; exact Hh].
Qed.

Lemma deltas_accumulate_in_order_witness :
  chatMessages
    (hook (deliver_all
             (delta_trace (txt "m1")
                [(1002, txt "cau"); (1003, txt "se")]%Z)
             (onDelta (Samples.delta_m1 "Be") 1001 Samples.turn_m1)))
  = [{| id := txt "chat-1000-user"; role := user; content := txt "why?";
        timestamp := 1000%Z |};
     {| id := txt "m1"; role := assistant; content := txt "Because";
        timestamp := 1001%Z |}].
Proof.
  rewrite (@deltas_accumulate_in_order (txt "m1")
             [(1002, txt "cau"); (1003, txt "se")]%Z
             (onDelta (Samples.delta_m1 "Be") 1001 Samples.turn_m1)
             eq_refl eq_refl).
  reflexivity.
Defined.

(** *** What a turn does to the transcript and to the rest of the state *)

Lemma map_key_rewrite message_id (f : ChatMessage -> ChatMessage) prev :
  (forall x, key (f x) = key x) ->
  map key (map (fun x => if has_id message_id x then f x else x) prev)
  = map key prev.
Proof.
  intros Hf. rewrite map_map. apply map_ext. intros x.
  destruct (has_id message_id x); [apply Hf | reflexivity].
Qed.

Lemma deliver_transcript now cb t :
  exists added,
    map key (chatMessages (hook (deliver now cb t)))
    = map key (chatMessages (hook t)) ++ map key added
    /\ Forall (fun m => role m = assistant) added.
Proof.
  destruct cb as [e | e | e | m]; cbn [deliver].
  - exists []. rewrite app_nil_r. split; [reflexivity | constructor].
  - unfold onDelta.
    destruct (negb (is_active _ _));
      [exists []; rewrite app_nil_r; split; [reflexivity | constructor] |].
    destruct (negb (existsb _ _)).
    + destruct (is_empty _);
        [exists []; rewrite app_nil_r; split; [reflexivity | constructor] |].
      eexists [_]. cbn [hook on_hook chatMessages setChatMessages].
      rewrite map_app. split; [reflexivity | repeat constructor].
    + exists []. rewrite app_nil_r. split; [| constructor].
      cbn [hook on_hook chatMessages setChatMessages].
      apply map_key_rewrite. reflexivity.
  - unfold onComplete.
    destruct (negb (is_active _ _));
      [exists []; rewrite app_nil_r; split; [reflexivity | constructor] |].
    cbn [hook on_hook finish chatMessages setChatMessages setIsChatInFlight
         setIsChatLoading set_activeChatMessageIdRef].
    destruct (negb (existsb _ _)).
    + eexists [_]. rewrite map_app. split; [reflexivity | repeat constructor].
    + exists []. rewrite app_nil_r. split; [| constructor].
      apply map_key_rewrite. reflexivity.
  - exists []. rewrite app_nil_r. split; [reflexivity | constructor].
Qed.

(** X12.  The callbacks of a chat stream never remove an entry of the
    transcript, never move one and never change the id or the role of one:
    whatever the stream delivers, the transcript afterwards is the one
    before, entry for entry by id and role, followed by the entries that were
    added, and every added entry is an assistant entry. *)
Theorem chat_stream_only_adds_assistant_entries
    (trace : list (Z * callback)) (t : Turn) :
  exists added,
    map (fun m => (id m, role m)) (chatMessages (hook (deliver_all trace t)))
    = map (fun m => (id m, role m)) (chatMessages (hook t))
      ++ map (fun m => (id m, role m)) added
    /\ Forall (fun m => role m = assistant) added.
Proof.
  change (fun m => (id m, role m)) with key.
  revert t. induction trace as [| [now cb] trace IH]; intros t.
  - exists []. rewrite app_nil_r. split; [reflexivity | constructor].
  - cbn [deliver_all].
    destruct (IH (deliver now cb t)) as (added2 & H2 & A2).
    destruct (deliver_transcript now cb t) as (added1 & H1 & A1).
    exists (added1 ++ added2). split.
    + rewrite H2, H1, map_app, app_assoc. reflexivity.
    + apply Forall_app. split; assumption.
Qed.

Lemma deliver_frame now cb t :
  let s := hook t in
  let s' := hook (deliver now cb t) in
  state s' = state s /\ thinkingLogs s' = thinkingLogs s
  /\ verdictData s' = verdictData s /\ messages s' = messages s
  /\ showSplitView s' = showSplitView s /\ gammaLink s' = gammaLink s
  /\ isConnected s' = isConnected s /\ eventSourceRef s' = eventSourceRef s
  /\ threadIdRef s' = threadIdRef s.
Proof.
  destruct cb; cbn [deliver]; unfold onStart, onDelta, onComplete, onError;
    MachineFacts.branches; repeat split.
Qed.

Lemma deliver_all_frame trace t :
  let s := hook t in
  let s' := hook (deliver_all trace t) in
  state s' = state s /\ thinkingLogs s' = thinkingLogs s
  /\ verdictData s' = verdictData s /\ messages s' = messages s
  /\ showSplitView s' = showSplitView s /\ gammaLink s' = gammaLink s
  /\ isConnected s' = isConnected s /\ eventSourceRef s' = eventSourceRef s
  /\ threadIdRef s' = threadIdRef s.
Proof.
  revert t. induction trace as [| [now cb] trace IH]; intros t.
  - cbn. repeat split.
  - cbn [deliver_all]. specialize (IH (deliver now cb t)).
    pose proof (deliver_frame now cb t) as H. cbv zeta in *.
    destruct IH as (I1 & I2 & I3 & I4 & I5 & I6 & I7 & I8 & I9).
    destruct H as (H1 & H2 & H3 & H4 & H5 & H6 & H7 & H8 & H9).
    repeat split; congruence.
Qed.

Lemma settle_frame outcome t :
  let s := hook t in
  let s' := sendChatMessage_settle outcome t in
  state s' = state s /\ thinkingLogs s' = thinkingLogs s
  /\ verdictData s' = verdictData s /\ messages s' = messages s
  /\ showSplitView s' = showSplitView s /\ gammaLink s' = gammaLink s
  /\ isConnected s' = isConnected s /\ eventSourceRef s' = eventSourceRef s
  /\ threadIdRef s' = threadIdRef s.
Proof.
  unfold sendChatMessage_settle. MachineFacts.branches; repeat split.
Qed.

(** X13.  A chat turn stays out of the analysis.  Whatever the message, the
    stream and the outcome, a call of [sendChatMessage] leaves the session
    state, the progress log, the verdict, the upload messages, the split
    view, the report link, the analysis stream and the thread id exactly as
    it found them. *)
Theorem chat_turn_leaves_the_analysis_alone (inFlight : bool)
    (message : text) (now : Z) (trace : list (Z * callback))
    (outcome : thrown + unit) (s : HookState) :
  let s' := sendChatMessage inFlight message now trace outcome s in
  state s' = state s /\ thinkingLogs s' = thinkingLogs s
  /\ verdictData s' = verdictData s /\ messages s' = messages s
  /\ showSplitView s' = showSplitView s /\ gammaLink s' = gammaLink s
  /\ isConnected s' = isConnected s /\ eventSourceRef s' = eventSourceRef s
  /\ threadIdRef s' = threadIdRef s.
Proof.
  cbv zeta. unfold sendChatMessage.
  destruct (sendChatMessage_call inFlight message now s)
    as [s1 [req |]] eqn:Hc.
  - apply sendChatMessage_call_started in Hc
      as (threadId & _ & _ & _ & _ & ->).
    match goal with
    | |- context [sendChatMessage_settle outcome (deliver_all trace ?t0)] =>
        pose proof (settle_frame outcome (deliver_all trace t0)) as Hs;
        pose proof (deliver_all_frame trace t0) as Hd
    end.
    cbv zeta in *. cbn [hook] in Hd.
    destruct Hs as (S1 & S2 & S3 & S4 & S5 & S6 & S7 & S8 & S9).
    destruct Hd as (D1 & D2 & D3 & D4 & D5 & D6 & D7 & D8 & D9).
    cbn [state thinkingLogs verdictData messages showSplitView gammaLink
         isConnected eventSourceRef threadIdRef set_chatAbortControllerRef
         setIsChatInFlight setIsChatLoading setChatMessages setError]
      in D1, D2, D3, D4, D5, D6, D7, D8, D9.
    repeat split; congruence.
  - revert Hc. unfold sendChatMessage_call.
    MachineFacts.branches; intros Hc; inversion Hc; repeat split.
Qed.

Lemma deliver_finished_means_idle now cb t :
  finished_means_idle t -> finished_means_idle (deliver now cb t).
Proof.
  unfold finished_means_idle. intros H.
  destruct cb; cbn [deliver]; unfold onStart, onDelta, onComplete, onError;
    MachineFacts.branches; cbn; intros Hf;
    first [ split; reflexivity
          | destruct (H Hf) as [H1 H2]; split;
            first [assumption | reflexivity] ].
Qed.

Lemma deliver_all_finished_means_idle trace t :
  finished_means_idle t -> finished_means_idle (deliver_all trace t).
Proof.
  revert t. induction trace as [| [now cb] trace IH]; intros t H;
    [exact H |].
  apply IH, deliver_finished_means_idle, H.
Qed.

(** X14.  A turn is never left in flight.  When the stream call of a started
    turn resolves or fails, whatever it delivered, the turn is out of flight,
    the loading indicator is down and the abort controller is dropped.  The
    function of the render that follows then starts a new turn for the next
    message, while a function that closed over the raised flag is still
    turned away, though nothing is in flight any more.  (After an abort it
    is [closeChatStream], which raised it, that has taken the flags down.) *)
Theorem settled_turn_is_not_in_flight (inFlight : bool) (message : text)
    (now : Z) (trace : list (Z * callback)) (outcome : thrown + unit)
    (s : HookState) :
  turn_started inFlight message now s = true ->
  cancelled outcome = false ->
  let s' := sendChatMessage inFlight message now trace outcome s in
  isChatInFlight s' = false
  /\ isChatLoading s' = false
  /\ chatAbortControllerRef s' = None
  /\ (forall message' now',
        turn_started (rendered s') message' now' s' = true)
  /\ (forall message' now',
        sendChatMessage_call true message' now' s' = (s', None)).
Proof.
  intros Hstart Hc. cbv zeta. unfold turn_started in Hstart.
  unfold sendChatMessage.
  destruct (sendChatMessage_call inFlight message now s)
    as [s1 [req |]] eqn:Hcall; [| discriminate].
  apply sendChatMessage_call_started in Hcall
    as (threadId & _ & Hp & _ & _ & Hs1).
  pose proof (deliver_all_frame trace
                {| hook := s1; streamFinished := false |}) as Hd.
  set (t := deliver_all trace {| hook := s1; streamFinished := false |})
    in *.
  assert (Hthread : threadIdRef (sendChatMessage_settle outcome t)
                    = threadIdRef s).
  { destruct (settle_frame outcome t) as (_ & _ & _ & _ & _ & _ & _ & _ & S9).
    destruct Hd as (_ & _ & _ & _ & _ & _ & _ & _ & D9).
    rewrite S9, D9. subst s1. reflexivity. }
  assert (Hinv : finished_means_idle t).
  { apply deliver_all_finished_means_idle. intros Hf. discriminate. }
  assert (Hflags : isChatInFlight (sendChatMessage_settle outcome t) = false
                   /\ isChatLoading (sendChatMessage_settle outcome t) = false
                   /\ chatAbortControllerRef (sendChatMessage_settle outcome t)
                      = None).
  { unfold sendChatMessage_settle.
    destruct outcome as [[m | m | m |] | u]; try discriminate;
      try (repeat split; fail).
    destruct (streamFinished t) eqn:Hf; cbn [negb]; [| repeat split].
    destruct (Hinv Hf) as [H1 H2]. repeat split; assumption. }
  destruct Hflags as (H1 & H2 & H3).
  split; [exact H1 |]. split; [exact H2 |]. split; [exact H3 |].
  split; intros message' now'.
  - unfold turn_started, sendChatMessage_call, rendered.
    rewrite Hthread, Hp, H1. reflexivity.
  - unfold sendChatMessage_call. rewrite Hthread, Hp. reflexivity.
Qed.

Lemma settled_turn_is_not_in_flight_witness :
  isChatInFlight
    (sendChatMessage false (txt "why?") 1000 []
       (inl (OtherError (txt "Failed to fetch"))) Samples.session)
  = false.
Proof.
  apply (proj1 (@settled_turn_is_not_in_flight false (txt "why?") 1000%Z []
                  (inl (OtherError (txt "Failed to fetch")))
                  Samples.session eq_refl eq_refl)).
Defined.

End ChatTurnMore.

(** ** Uploading, reviewing and the verdict *)

Module SessionMore.

Import ApiClient Hook HookRest.

Lemma present_none r : present r = None <-> r = None \/ r = Some [].
Proof.
  destruct r as [[| c t] |]; simpl; split; intros H;
    try reflexivity; try discriminate; auto;
    destruct H as [H | H]; discriminate.
Qed.

(** X15.  The operations that need a thread do nothing without one.  When the
    thread id is [null], or the empty string, [sendChatMessage],
    [generateReport] and [declineReport] send no request, and a whole call of
    any of them, whatever the network would have answered, leaves the
    state as it was but for the error, which says that no analysis session
    was found. *)
Theorem operations_without_a_thread_only_set_the_error (s : HookState) :
  threadIdRef s = None \/ threadIdRef s = Some [] ->
  snd (generateReport_call s) = None
  /\ snd (declineReport_call s) = None
  /\ (forall inFlight message now,
        snd (sendChatMessage_call inFlight message now s) = None)
  /\ (forall outcome,
        generateReport outcome s
        = setError (Some (txt "No analysis session found")) s)
  /\ (forall outcome,
        declineReport outcome s
        = setError (Some (txt "No analysis session found")) s)
  /\ (forall inFlight message now trace outcome,
        sendChatMessage inFlight message now trace outcome s
        = setError (Some (txt "No analysis session found")) s).
Proof.
  intros H. apply present_none in H.
  unfold generateReport, declineReport, sendChatMessage,
    generateReport_call, declineReport_call, sendChatMessage_call.
  rewrite H. repeat split.
Qed.

Lemma operations_without_a_thread_only_set_the_error_witness :
  sendChatMessage false (txt "why?") 1000 [] (inr tt) initial
  = setError (Some (txt "No analysis session found")) initial.
Proof.
  apply (proj2 (proj2 (proj2 (proj2 (proj2
    (@operations_without_a_thread_only_set_the_error initial
       (or_introl eq_refl))))))).
Defined.

(** X16.  [declineReport] on a thread sends one review request that asks for no
    report.  When the request succeeds the session is [complete] and nothing
    else has changed; when it fails the error is set and the session stays
    in the state it was in, verdict and all. *)
Theorem declineReport_outcomes (s : HookState) (threadId : text) :
  present (threadIdRef s) = Some threadId ->
  declineReport_call s = (s, Some (SubmitReview threadId false))
  /\ (forall r, declineReport (inr r) s = setState complete s)
  /\ (forall err,
        declineReport (inl err) s
        = setError (Some (message_of (txt "Failed to submit review") err)) s
        /\ state (declineReport (inl err) s) = state s).
Proof.
  intros H. unfold declineReport, declineReport_call. rewrite H.
  repeat split.
Qed.

Lemma declineReport_outcomes_witness :
  state (declineReport (inl NotAnError) Samples.session) = verdict.
Proof.
  apply (proj2 (proj2 (proj2
    (@declineReport_outcomes Samples.session (txt "t1") eq_refl))
    NotAnError)).
Defined.

(** X17.  [generateReport] on a thread, when the review request succeeds: the
    session is [complete] with the split view open; the link of the response
    is stored when it is a non-empty string, and when the response has no
    link, or an empty one, the link the session already had is kept.  The
    error, the verdict and the transcript are not touched. *)
Theorem generateReport_success (s : HookState) (threadId : text)
    (r : ReviewResponse) :
  present (threadIdRef s) = Some threadId ->
  state (generateReport (inr r) s) = complete
  /\ showSplitView (generateReport (inr r) s) = true
  /\ gammaLink (generateReport (inr r) s)
     = match gamma_link r with
       | Some (c :: link) => Some (c :: link)
       | _ => gammaLink s
       end
  /\ error (generateReport (inr r) s) = error s
  /\ verdictData (generateReport (inr r) s) = verdictData s
  /\ chatMessages (generateReport (inr r) s) = chatMessages s.
Proof.
  intros H. unfold generateReport, generateReport_call. rewrite H.
  unfold generateReport_resolved.
  destruct (gamma_link r) as [[| c link] |]; repeat split.
Qed.

Lemma generateReport_success_witness :
  gammaLink
    (generateReport
       (inr {| review_status := txt "ok"; gamma_link := Some [] |})
       (onGammaLink (txt "https://gamma.app/docs/1") Samples.session))
  = Some (txt "https://gamma.app/docs/1").
Proof.
  apply (proj1 (proj2 (proj2
    (@generateReport_success
       (onGammaLink (txt "https://gamma.app/docs/1") Samples.session)
       (txt "t1")
       {| review_status := txt "ok"; gamma_link := Some [] |}
       eq_refl)))).
Defined.

(** X18.  [uploadFiles]: an empty selection never reaches the network and only
    sets the error.  With files, a failed upload brings the session to [idle]
    with the error of the failure and without a thread id it did not have
    before; a successful one stores the thread id, moves to [thinking] with
    the stream connected and no error.  Either way the progress log, the
    verdict and the chat transcript of an earlier analysis are still there. *)
Theorem uploadFiles_outcomes (now : Z) (s : HookState) :
  (forall outcome,
     uploadFiles [] now outcome s
     = setError (Some (txt "No PDF files selected")) s)
  /\ (forall file files err,
        let s' := uploadFiles (file :: files) now (inl err) s in
        state s' = idle
        /\ error s' = Some (message_of (txt "Upload failed") err)
        /\ threadIdRef s' = threadIdRef s
        /\ eventSourceRef s' = eventSourceRef s)
  /\ (forall file files r,
        let s' := uploadFiles (file :: files) now (inr r) s in
        state s' = thinking
        /\ error s' = None
        /\ threadIdRef s' = Some (thread_id r)
        /\ eventSourceRef s' = Some {| stream_thread := thread_id r |}
        /\ isConnected s' = true)
  /\ (forall file files outcome,
        let s' := uploadFiles (file :: files) now outcome s in
        thinkingLogs s' = thinkingLogs s
        /\ verdictData s' = verdictData s
        /\ chatMessages s' = chatMessages s
        /\ exists m, messages s' = [m] /\ msg_timestamp m = now).
Proof.
  split; [| split; [| split]].
  - intros outcome. reflexivity.
  - intros file files err. cbv zeta. repeat split.
  - intros file files r. cbv zeta. repeat split.
  - intros file files [err | r]; cbv zeta; repeat split;
      eexists; split; reflexivity.
Qed.

(** X19.  The introduction to a verdict names the non-empty categories
    among the first two findings, whatever comes after them: both, joined by
    [and], or the one there is.  When the first two findings carry no
    category it offers a walk through the findings instead, even if a later
    finding has one.  The confidence is printed as the number prints. *)
Theorem intro_message_reads_the_first_two_findings (v : VerdictData) :
  let opening :=
    txt "Analysis complete: " ++ status_text (verdict_status v)
    ++ txt " with " ++ Number_toString (confidence v)
    ++ txt "% confidence. " in
  let areas (names : text) := txt "Key risk areas: " ++ names ++ txt "." in
  let question := txt " Which part should we review first?" in
  buildVerdictIntroMessage v
  = buildVerdictIntroMessage
      {| verdict_status := verdict_status v; title := title v;
         findings := firstn 2 (findings v); confidence := confidence v |}
  /\ (Forall (fun f => category f = []) (firstn 2 (findings v)) ->
      buildVerdictIntroMessage v
      = opening ++ txt "I can walk you through the key findings."
        ++ question)
  /\ (forall f1 f2 rest,
        findings v = f1 :: f2 :: rest ->
        category f1 <> [] -> category f2 <> [] ->
        buildVerdictIntroMessage v
        = opening ++ areas (category f1 ++ txt " and " ++ category f2)
          ++ question)
  /\ (forall f1 f2 rest,
        findings v = f1 :: f2 :: rest ->
        category f1 <> [] -> category f2 = [] ->
        buildVerdictIntroMessage v = opening ++ areas (category f1)
                                     ++ question)
  /\ (forall f1 f2 rest,
        findings v = f1 :: f2 :: rest ->
        category f1 = [] -> category f2 <> [] ->
        buildVerdictIntroMessage v = opening ++ areas (category f2)
                                     ++ question)
  /\ (forall f1,
        findings v = [f1] -> category f1 <> [] ->
        buildVerdictIntroMessage v = opening ++ areas (category f1)
                                     ++ question).
Proof.
  cbv zeta. split; [| split; [| split; [| split; [| split]]]].
  - unfold buildVerdictIntroMessage. cbn [findings verdict_status confidence].
    rewrite firstn_firstn. reflexivity.
  - intros H. unfold buildVerdictIntroMessage.
    replace (filter truthy (map category (firstn 2 (findings v))))
      with (@nil text); [rewrite <- ?app_assoc; reflexivity |].
    induction H as [| f fs Hf _ IH]; [reflexivity |].
    cbn [map filter]. rewrite Hf. exact IH.
  - intros f1 f2 rest Hf H1 H2. unfold buildVerdictIntroMessage.
    rewrite Hf. cbn [firstn map filter].
    unfold truthy. destruct (category f1); [congruence |].
    destruct (category f2); [congruence |].
    cbn [is_empty negb join]. rewrite <- ?app_assoc. reflexivity.
  - intros f1 f2 rest Hf H1 H2. unfold buildVerdictIntroMessage.
    rewrite Hf. cbn [firstn map filter]. rewrite H2.
    unfold truthy. destruct (category f1); [congruence |].
    cbn [is_empty negb join]. rewrite <- ?app_assoc. reflexivity.
  - intros f1 f2 rest Hf H1 H2. unfold buildVerdictIntroMessage.
    rewrite Hf. cbn [firstn map filter]. rewrite H1.
    unfold truthy. destruct (category f2); [congruence |].
    cbn [is_empty negb join]. rewrite <- ?app_assoc. reflexivity.
  - intros f1 Hf H1. unfold buildVerdictIntroMessage.
    rewrite Hf. cbn [firstn map filter].
    unfold truthy. destruct (category f1); [congruence |].
    cbn [is_empty negb join]. rewrite <- ?app_assoc. reflexivity.
Qed.

(** The verdict with one finding, of category [Budget], and a confidence
    of 87.5. *)
Lemma intro_message_reads_the_first_two_findings_witness :
  buildVerdictIntroMessage
    {| verdict_status := FAIL; title := txt "Non-compliant";
       findings := [{| category := txt "Budget"; items := [];
                       severity := high |}];
       confidence := Printed (txt "87.5") |}
  = (txt "Analysis complete: FAIL with 87.5% confidence. "
     ++ txt "Key risk areas: Budget.")
    ++ txt " Which part should we review first?".
Proof.
  rewrite (proj2 (proj2 (proj2 (proj2 (proj2
    (intro_message_reads_the_first_two_findings
       {| verdict_status := FAIL; title := txt "Non-compliant";
          findings := [{| category := txt "Budget"; items := [];
                          severity := high |}];
          confidence := Printed (txt "87.5") |})))))
    {| category := txt "Budget"; items := []; severity := high |}).
  - reflexivity.
  - reflexivity.
  - discriminate.
Defined.

End SessionMore.

(** ** The analysis stream *)

Module EventStreamFacts.

Import ApiClient Hook HookRest EventStream.

(** Comparing two literal event names. *)
Ltac names :=
  repeat match goal with
         | |- context [text_eqb (txt ?a) (txt ?b)] =>
             let r := eval vm_compute in (text_eqb (txt a) (txt b)) in
             change (text_eqb (txt a) (txt b)) with r
         end;
  cbv iota.

Lemma onStreamError_twice m m' s :
  onStreamError m' (onStreamError m s) = onStreamError m' s.
Proof.
  destruct s as [? ? ? ? ? ? ? ? c ? ? e ? a ?].
  destruct e; vm_compute; reflexivity.
Qed.

Section Listeners.

Variable payload : Type.
Variable JSON_parse : text -> option payload.
Variable payload_null : payload -> bool.
Variable payload_error : payload -> option text.
Variable payload_link : payload -> option text.
Variable as_log : payload -> ThinkingLogEvent.
Variable as_verdict : payload -> VerdictData.

Local Abbreviation parse_data := (parse_data JSON_parse).
Local Abbreviation log_events := (log_events JSON_parse payload_null).
Local Abbreviation dispatch :=
  (dispatch JSON_parse payload_null payload_error payload_link
     as_log as_verdict).
Local Abbreviation on_event :=
  (on_event JSON_parse payload_null payload_error payload_link
     as_log as_verdict).
Local Abbreviation run_stream :=
  (run_stream JSON_parse payload_null payload_error payload_link
     as_log as_verdict).

Lemma dispatch_error e :
  event_type e = txt "error" ->
  exists m,
    dispatch e
    = ([Typed (OnStreamError m);
        Typed (OnStreamError (txt "Connection to server lost"))],
       true).
Proof.
  intros Hty. unfold EventStream.dispatch, listeners.
  cbn [run_listeners]. rewrite Hty. names.
  unfold error_listener, onerror.
  destruct (present (event_data e)) as [d |]; [| eexists; reflexivity].
  destruct (JSON_parse d) as [p |]; [| eexists; reflexivity].
  destruct (payload_null p); eexists; reflexivity.
Qed.

(** X20.  An event of type [error] on the analysis stream, whether the server
    sent it with a message of its own or the connection failed, runs both
    error listeners: [onError] is invoked twice and the stream is closed.
    The hook ends [idle] and disconnected, and the error it shows is always
    that the connection to the server was lost; a message the server sent
    does not survive. *)
Theorem error_event_reports_a_lost_connection
    (e : StreamEvent) (now : Z) (s : HookState) :
  event_type e = txt "error" ->
  (exists m,
     dispatch e
     = ([Typed (OnStreamError m);
         Typed (OnStreamError (txt "Connection to server lost"))],
        true))
  /\ on_event now e s
     = Some (onStreamError (txt "Connection to server lost") s)
  /\ option_map error (on_event now e s)
     = Some (Some (txt "Connection to server lost"))
  /\ option_map state (on_event now e s) = Some idle
  /\ option_map eventSourceRef (on_event now e s) = Some None.
Proof.
  intros Hty. destruct (dispatch_error e Hty) as [m Hd].
  split; [exists m; exact Hd |].
  assert (He : on_event now e s
               = Some (onStreamError (txt "Connection to server lost") s)).
  { unfold EventStream.on_event. rewrite Hd.
    cbn [fst handle_all handle_invocation handle].
    rewrite onStreamError_twice. reflexivity. }
  rewrite He. split; [reflexivity |]. cbn [option_map].
  unfold onStreamError, closeEventSource.
  cbn [eventSourceRef setState setError].
  destruct (eventSourceRef s) eqn:Hr; repeat split;
    try (do 2 f_equal; exact Hr); f_equal; exact Hr.
Qed.

(** X21.  An event whose data does not parse is dropped, unless it is an
    [error]: no callback is invoked, the stream stays open and the hook
    state is untouched.  That holds for [complete] too, so a [complete] with
    bad data does not end the stream.  An event of a type no listener was
    registered for is dropped whatever its data. *)
Theorem unreadable_or_unknown_event_is_dropped
    (e : StreamEvent) (now : Z) (s : HookState) :
  (event_type e <> txt "error" ->
   parse_data e = None ->
   dispatch e = ([], false) /\ on_event now e s = Some s)
  /\ (event_type e <> txt "thinking_log" ->
      event_type e <> txt "verdict" ->
      event_type e <> txt "complete" ->
      event_type e <> txt "gamma_link" ->
      event_type e <> txt "error" ->
      dispatch e = ([], false) /\ on_event now e s = Some s).
Proof.
  split.
  - intros Hne Hp.
    assert (Hd : dispatch e = ([], false)).
    { unfold EventStream.dispatch, listeners. cbn [run_listeners].
      replace (text_eqb (txt "error") (event_type e)) with false
        by (symmetry; apply text_eqb_neq; congruence).
      unfold thinking_log_listener, verdict_listener, complete_listener,
        gamma_link_listener.
      rewrite Hp.
      repeat match goal with
             | |- context [text_eqb ?a (event_type e)] =>
                 destruct (text_eqb a (event_type e))
             end; reflexivity. }
    split; [exact Hd |]. unfold EventStream.on_event. rewrite Hd. reflexivity.
  - intros H1 H2 H3 H4 H5.
    assert (Hd : dispatch e = ([], false)).
    { unfold EventStream.dispatch, listeners. cbn [run_listeners].
      repeat match goal with
             | |- context [text_eqb ?a (event_type e)] =>
                 replace (text_eqb a (event_type e)) with false
                   by (symmetry; apply text_eqb_neq; congruence)
             end.
      reflexivity. }
    split; [exact Hd |]. unfold EventStream.on_event. rewrite Hd. reflexivity.
Qed.

Lemma dispatch_complete e p :
  event_type e = txt "complete" -> parse_data e = Some p ->
  dispatch e = ([Typed OnStreamComplete], true).
Proof.
  intros Hty Hp. unfold EventStream.dispatch, listeners.
  cbn [run_listeners]. rewrite Hty. names.
  unfold complete_listener. rewrite Hp. reflexivity.
Qed.

Lemma dispatch_thinking_log e p :
  event_type e = txt "thinking_log" -> parse_data e = Some p ->
  dispatch e
  = ([if payload_null p then OnThinkingLog_null
      else Typed (OnThinkingLog (as_log p))], false).
Proof.
  intros Hty Hp. unfold EventStream.dispatch, listeners.
  cbn [run_listeners]. rewrite Hty. names.
  unfold thinking_log_listener. rewrite Hp.
  destruct (payload_null p); reflexivity.
Qed.

Lemma dispatch_verdict e p :
  event_type e = txt "verdict" -> parse_data e = Some p ->
  dispatch e
  = ([if payload_null p then OnVerdict_null
      else Typed (OnVerdict (as_verdict p))], false).
Proof.
  intros Hty Hp. unfold EventStream.dispatch, listeners.
  cbn [run_listeners]. rewrite Hty. names.
  unfold verdict_listener. rewrite Hp.
  destruct (payload_null p); reflexivity.
Qed.

(** X22.  A [complete] event with readable data ends the stream: the hook drops
    its [EventSource] and changes nothing else, and no event that follows is
    handled. *)
Theorem complete_event_ends_the_stream
    (e : StreamEvent) (p : payload) (now : Z)
    (rest : list (Z * StreamEvent)) (s : HookState) :
  event_type e = txt "complete" ->
  parse_data e = Some p ->
  run_stream ((now, e) :: rest) s = Some (closeEventSource s)
  /\ option_map eventSourceRef (run_stream ((now, e) :: rest) s)
     = Some None
  /\ option_map state (run_stream ((now, e) :: rest) s) = Some (state s)
  /\ option_map thinkingLogs (run_stream ((now, e) :: rest) s)
     = Some (thinkingLogs s)
  /\ option_map verdictData (run_stream ((now, e) :: rest) s)
     = Some (verdictData s)
  /\ option_map error (run_stream ((now, e) :: rest) s) = Some (error s).
Proof.
  intros Hty Hp.
  assert (Hr : run_stream ((now, e) :: rest) s = Some (closeEventSource s)).
  { cbn [EventStream.run_stream]. unfold EventStream.on_event.
    rewrite (dispatch_complete e Hty Hp). reflexivity. }
  rewrite Hr. split; [reflexivity |]. cbn [option_map].
  unfold closeEventSource. destruct (eventSourceRef s) eqn:He;
    repeat split; f_equal; exact He.
Qed.

Lemma run_stream_logs events ps rest s :
  log_events events ps ->
  run_stream (events ++ rest) s
  = run_stream rest (deliver_logs (map as_log ps) s).
Proof.
  intros H. revert s.
  induction H as [| [now e] p events ps (Hty & Hp & Hn) _ IH]; intros s.
  - reflexivity.
  - cbn [app EventStream.run_stream map]. unfold EventStream.on_event.
    cbn [snd] in Hty, Hp.
    rewrite (dispatch_thinking_log e Hty Hp), Hn.
    cbn [snd fst handle_all handle_invocation handle]. rewrite IH.
    reflexivity.
Qed.


End Listeners.

Lemma error_event_reports_a_lost_connection_witness :
  option_map error
    (MoreSamples.on_event_sample 1200
       (MoreSamples.event "error" "{model overloaded}")
       MoreSamples.analysing)
  = Some (Some (txt "Connection to server lost")).
Proof.
  apply (proj1 (proj2 (proj2
    (@error_event_reports_a_lost_connection _ MoreSamples.stream_parse
       MoreSamples.is_null MoreSamples.field MoreSamples.field
       MoreSamples.log_of MoreSamples.verdict_of
       (MoreSamples.event "error" "{model overloaded}") 1200%Z
       MoreSamples.analysing eq_refl)))).
Defined.

Lemma unreadable_or_unknown_event_is_dropped_witness :
  MoreSamples.on_event_sample 1200
    (MoreSamples.event "complete" "done") MoreSamples.analysing
  = Some MoreSamples.analysing
  /\ MoreSamples.on_event_sample 1200
       (MoreSamples.event "ping" "{}") MoreSamples.analysing
     = Some MoreSamples.analysing.
Proof.
  split.
  - refine (proj2 (proj1
      (@unreadable_or_unknown_event_is_dropped _ MoreSamples.stream_parse
         MoreSamples.is_null MoreSamples.field MoreSamples.field
         MoreSamples.log_of MoreSamples.verdict_of
         (MoreSamples.event "complete" "done") 1200%Z
         MoreSamples.analysing) _ _)).
    + vm_compute. discriminate.
    + reflexivity.
  - refine (proj2 (proj2
      (@unreadable_or_unknown_event_is_dropped _ MoreSamples.stream_parse
         MoreSamples.is_null MoreSamples.field MoreSamples.field
         MoreSamples.log_of MoreSamples.verdict_of
         (MoreSamples.event "ping" "{}") 1200%Z
         MoreSamples.analysing) _ _ _ _ _));
      vm_compute; discriminate.
Defined.

Lemma complete_event_ends_the_stream_witness :
  MoreSamples.run_stream_sample
    [(1200, MoreSamples.event "complete" "{}");
     (1300, MoreSamples.event "thinking_log" "{late}")]%Z
    MoreSamples.analysing
  = Some (closeEventSource MoreSamples.analysing).
Proof.
  apply (proj1
    (@complete_event_ends_the_stream _ MoreSamples.stream_parse
       MoreSamples.is_null MoreSamples.field MoreSamples.field
       MoreSamples.log_of MoreSamples.verdict_of
       (MoreSamples.event "complete" "{}") (txt "{}") 1200%Z
       [(1300, MoreSamples.event "thinking_log" "{late}")]%Z
       MoreSamples.analysing eq_refl eq_refl)).
Defined.


(** The sample analysis: three progress events, one of them delivered
    twice, leave two entries; a progress event with [null] among them
    changes nothing. *)
Example analysis_sample_log :
  option_map (fun s => map log_id (thinkingLogs s))
    (MoreSamples.run_stream_sample
       [(1001, MoreSamples.event "thinking_log" "{l1}");
        (1002, MoreSamples.event "thinking_log" "null");
        (1003, MoreSamples.event "thinking_log" "{l2}");
        (1004, MoreSamples.event "thinking_log" "{l2}");
        (1005, MoreSamples.event "verdict" "{Compliant}");
        (1006, MoreSamples.event "complete" "{}")]%Z
       MoreSamples.analysing)
  = Some [txt "{l1}"; txt "{l2}"].
Proof. vm_compute. reflexivity. Qed.

End EventStreamFacts.

(** ** The progress widget *)

Module WidgetFacts.

Import ApiClient Hook Widget.

Lemma text_eqb_sym a b : text_eqb a b = text_eqb b a.
Proof.
  destruct (text_eqb a b) eqn:H.
  - apply text_eqb_eq in H. subst. symmetry. apply text_eqb_refl.
  - apply text_eqb_neq in H. symmetry. apply text_eqb_neq. congruence.
Qed.

Lemma get_put_same {A} name (v : A) record :
  get name (put name v record) = Some v.
Proof.
  induction record as [| [k v'] record IH]; cbn.
  - rewrite text_eqb_refl. reflexivity.
  - destruct (text_eqb k name) eqn:H; cbn; rewrite H; [reflexivity | exact IH].
Qed.

Lemma get_put_other {A} name other (v : A) record :
  text_eqb other name = false ->
  get name (put other v record) = get name record.
Proof.
  intros Hne. induction record as [| [k v'] record IH]; cbn.
  - rewrite Hne. reflexivity.
  - destruct (text_eqb k other) eqn:H; cbn.
    + apply text_eqb_eq in H. subst k. rewrite Hne. reflexivity.
    + destruct (text_eqb k name); [reflexivity | exact IH].
Qed.

Lemma visit_order c acc log isLast :
  keyed acc ->
  fst (visit c acc log isLast)
  = fst acc ++ (if existsb (text_eqb (agent log)) (fst acc) then []
                else [agent log]).
Proof.
  intros Hk. destruct acc as [order data]. unfold visit.
  specialize (Hk (agent log)). cbn [fst snd] in *.
  destruct (get (agent log) data) as [cur |] eqn:Hg.
  - destruct (existsb _ order); [cbn; rewrite app_nil_r; reflexivity |].
    destruct Hk as [_ Hk]. discriminate (Hk eq_refl).
  - destruct Hk as [Hk _]. rewrite (Hk eq_refl). reflexivity.
Qed.

Lemma visit_keyed c acc log isLast :
  keyed acc -> keyed (visit c acc log isLast).
Proof.
  intros Hk name. rewrite (visit_order c log isLast Hk).
  destruct acc as [order data]. pose proof (Hk (agent log)) as Ha.
  specialize (Hk name). cbn [fst snd] in *.
  assert (Hget : get name (snd (visit c (order, data) log isLast))
                 = if text_eqb (agent log) name
                   then get name (snd (visit c (order, data) log isLast))
                   else get name data).
  { destruct (text_eqb (agent log) name) eqn:He; [reflexivity |].
    unfold visit. destruct (get (agent log) data); cbn [snd];
      apply get_put_other, He. }
  rewrite Hget. clear Hget.
  destruct (text_eqb (agent log) name) eqn:He.
  - apply text_eqb_eq in He. subst name.
    unfold visit. destruct (get (agent log) data) eqn:Hg; cbn [snd];
      rewrite get_put_same.
    + split; [discriminate |]. intros H. exfalso.
      rewrite existsb_app in H. apply orb_false_iff in H.
      destruct H as [H _]. apply Ha in H. discriminate.
    + split; [discriminate |]. intros H. exfalso.
      destruct Ha as [Ha _]. rewrite (Ha eq_refl) in H.
      rewrite existsb_app in H. cbn in H.
      rewrite text_eqb_refl in H. rewrite orb_true_r in H. discriminate.
  - rewrite Hk. rewrite existsb_app.
    destruct (existsb (text_eqb (agent log)) order); cbn [existsb];
      try rewrite (text_eqb_sym name (agent log)); try rewrite He;
      cbn [orb]; rewrite ?orb_false_r; reflexivity.
Qed.

Lemma visit_all_order c acc logs :
  keyed acc ->
  fst (visit_all c acc logs)
  = fst acc ++ first_occurrences (fst acc) (map agent logs).
Proof.
  revert acc. induction logs as [| log rest IH]; intros acc Hk.
  - cbn. rewrite app_nil_r. reflexivity.
  - cbn [visit_all map first_occurrences].
    rewrite IH by (apply visit_keyed, Hk).
    rewrite (visit_order c log _ Hk).
    destruct (existsb (text_eqb (agent log)) (fst acc)).
    + rewrite app_nil_r. reflexivity.
    + rewrite <- app_assoc. reflexivity.
Qed.

Lemma last_cons {A} (x : A) xs d : last (x :: xs) d = last xs x.
Proof.
  revert x d. induction xs as [| y ys IH]; intros x d; [reflexivity |].
  change (last (x :: y :: ys) d) with (last (y :: ys) d).
  rewrite (IH y d), (IH y x). reflexivity.
Qed.

Lemma is_last_agent_cons name log rest :
  rest <> [] -> is_last_agent name (log :: rest) = is_last_agent name rest.
Proof.
  intros H. unfold is_last_agent. destruct rest as [| l rest]; [congruence |].
  reflexivity.
Qed.

Lemma is_last_agent_absent name logs :
  logs_of name logs = [] -> is_last_agent name logs = false.
Proof.
  induction logs as [| l rest IH]; [reflexivity |].
  unfold logs_of. cbn [filter]. fold (logs_of name rest).
  destruct (text_eqb (agent l) name) eqn:He; [discriminate |].
  intros H. destruct rest as [| l' rest'].
  - unfold is_last_agent. cbn. exact He.
  - rewrite is_last_agent_cons by discriminate. apply IH, H.
Qed.

Lemma logs_of_nonempty name logs x xs :
  logs_of name logs = x :: xs -> logs <> [].
Proof. destruct logs; [discriminate | discriminate]. Qed.

Lemma visit_get c acc log isLast name :
  get name (snd (visit c acc log isLast))
  = if text_eqb (agent log) name
    then Some {| agentName :=
                   match get name (snd acc) with
                   | Some cur => agentName cur
                   | None => name
                   end;
                 displayName :=
                   match get name (snd acc) with
                   | Some cur => displayName cur
                   | None => match get name AGENT_DISPLAY_NAMES with
                             | Some d => d
                             | None => name
                             end
                   end;
                 lane_status := status_at c isLast;
                 lane_message := log_message log;
                 lane_timestamp := log_timestamp log;
                 firstSeenTimestamp :=
                   match get name (snd acc) with
                   | Some cur => firstSeenTimestamp cur
                   | None => log_timestamp log
                   end |}
    else get name (snd acc).
Proof.
  destruct acc as [order data]. cbn [snd].
  destruct (text_eqb (agent log) name) eqn:He.
  - apply text_eqb_eq in He. subst name. unfold visit.
    destruct (get (agent log) data); cbn [snd]; apply get_put_same.
  - unfold visit. destruct (get (agent log) data); cbn [snd];
      apply get_put_other, He.
Qed.

Lemma visit_all_get c acc logs name :
  get name (snd (visit_all c acc logs))
  = merged c logs name (get name (snd acc)).
Proof.
  revert acc. induction logs as [| l rest IH]; intros acc; [reflexivity |].
  cbn [visit_all]. rewrite IH, visit_get. unfold merged.
  unfold logs_of at 2. cbn [filter]. fold (logs_of name rest).
  destruct (text_eqb (agent l) name) eqn:He.
  - destruct (logs_of name rest) as [| f m] eqn:Hr.
    + destruct rest as [| l' rest'].
      * unfold is_last_agent. cbn. rewrite He.
        unfold status_at. destruct c; reflexivity.
      * rewrite is_last_agent_cons by discriminate.
        rewrite (@is_last_agent_absent name (l' :: rest') Hr).
        unfold status_at. destruct c; reflexivity.
    + rewrite (@is_last_agent_cons name l rest
                 (@logs_of_nonempty name rest f m Hr)).
      cbn [agentName displayName firstSeenTimestamp].
      rewrite (last_cons f m l). reflexivity.
  - destruct (logs_of name rest) as [| f m] eqn:Hr; [reflexivity |].
    rewrite (@is_last_agent_cons name l rest
               (@logs_of_nonempty name rest f m Hr)).
    reflexivity.
Qed.

Lemma first_occurrences_inherited seen names :
  existsb inherited names = false ->
  existsb inherited (first_occurrences seen names) = false.
Proof.
  revert seen. induction names as [| a rest IH]; intros seen; [reflexivity |].
  cbn [existsb first_occurrences]. intros H. apply orb_false_iff in H.
  destruct H as [Ha Hr].
  destruct (existsb (text_eqb a) seen); [apply IH, Hr |].
  cbn [existsb]. rewrite Ha. apply IH, Hr.
Qed.

(** [sequentialAgents], said directly: the agents at their first
    occurrence, each with its lane. *)
Lemma sequentialAgents_spec logs isComplete :
  existsb (fun log => inherited (agent log)) logs = false ->
  sequentialAgents logs isComplete
  = Some (map (lane_of logs isComplete)
            (first_occurrences [] (map agent logs))).
Proof.
  intros H. unfold sequentialAgents. rewrite H.
  assert (Hk : keyed ([], [])) by (intros name; split; reflexivity).
  pose proof (visit_all_order isComplete logs Hk) as Ho.
  destruct (visit_all isComplete ([], []) logs) as [order data] eqn:Hv.
  cbn [fst app] in Ho. subst order. f_equal. apply map_ext.
  intros name.
  pose proof (visit_all_get isComplete ([], []) logs name) as Hg.
  rewrite Hv in Hg. cbn [snd] in Hg. exact Hg.
Qed.

Lemma first_occurrences_fresh seen names a :
  In a (first_occurrences seen names) -> existsb (text_eqb a) seen = false.
Proof.
  revert seen. induction names as [| b rest IH]; intros seen; [intros [] |].
  cbn [first_occurrences].
  destruct (existsb (text_eqb b) seen) eqn:Hb; [apply IH |].
  intros [<- | H]; [exact Hb |].
  apply IH in H. rewrite existsb_app in H. apply orb_false_iff in H.
  apply H.
Qed.

Lemma first_occurrences_NoDup seen names :
  NoDup (first_occurrences seen names).
Proof.
  revert seen. induction names as [| b rest IH]; intros seen; [constructor |].
  cbn [first_occurrences].
  destruct (existsb (text_eqb b) seen); [apply IH |].
  constructor; [| apply IH].
  intros H. apply first_occurrences_fresh in H.
  rewrite existsb_app in H. apply orb_false_iff in H. destruct H as [_ H].
  cbn in H. rewrite text_eqb_refl in H. discriminate.
Qed.

Lemma existsb_text_eqb_In a seen :
  existsb (text_eqb a) seen = true <-> In a seen.
Proof.
  rewrite existsb_exists. split.
  - intros [x [Hx He]]. apply text_eqb_eq in He. subst. exact Hx.
  - intros H. exists a. split; [exact H | apply text_eqb_refl].
Qed.

Lemma first_occurrences_covers seen names a :
  In a names -> In a seen \/ In a (first_occurrences seen names).
Proof.
  revert seen. induction names as [| b rest IH]; intros seen; [intros [] |].
  cbn [first_occurrences]. intros [<- | H].
  - destruct (existsb (text_eqb b) seen) eqn:Hb.
    + left. apply existsb_text_eqb_In, Hb.
    + right. left. reflexivity.
  - destruct (existsb (text_eqb b) seen) eqn:Hb; [apply IH, H |].
    destruct (IH (seen ++ [b]) H) as [Hs | Hf].
    + apply in_app_or in Hs. destruct Hs as [Hs | [<- | []]].
      * left. exact Hs.
      * right. left. reflexivity.
    + right. right. exact Hf.
Qed.

Lemma first_occurrences_sound seen names a :
  In a (first_occurrences seen names) -> In a names.
Proof.
  revert seen. induction names as [| b rest IH]; intros seen; [intros [] |].
  cbn [first_occurrences].
  destruct (existsb (text_eqb b) seen).
  - intros H. right. apply (IH seen), H.
  - intros [<- | H]; [left; reflexivity | right; apply (IH _ H)].
Qed.

Lemma logs_of_present name logs :
  In name (map agent logs) -> logs_of name logs <> [].
Proof.
  intros H. apply in_map_iff in H. destruct H as [log [<- Hin]].
  intros He.
  assert (Hf : In log (logs_of (agent log) logs)).
  { apply filter_In. split; [exact Hin | apply text_eqb_refl]. }
  rewrite He in Hf. exact Hf.
Qed.

Lemma lane_of_name logs c name lane :
  lane_of logs c name = Some lane -> agentName lane = name.
Proof.
  unfold lane_of. destruct (logs_of name logs); [discriminate |].
  intros H. inversion H. reflexivity.
Qed.

Lemma lane_of_present logs c name :
  In name (map agent logs) -> exists lane, lane_of logs c name = Some lane.
Proof.
  intros H. apply logs_of_present in H. unfold lane_of.
  destruct (logs_of name logs); [congruence |]. eexists. reflexivity.
Qed.

Lemma lane_of_status logs c name lane :
  lane_of logs c name = Some lane ->
  lane_status lane
  = if c then log_complete
    else if is_last_agent name logs then log_active else log_complete.
Proof.
  unfold lane_of. destruct (logs_of name logs); [discriminate |].
  intros H. inversion H. reflexivity.
Qed.

(** The lanes of [names], when each name has a log. *)
Lemma lanes_present logs c names :
  (forall name, In name names -> In name (map agent logs)) ->
  exists lanes,
    map (lane_of logs c) names = map Some lanes
    /\ map agentName lanes = names.
Proof.
  induction names as [| a rest IH]; intros H.
  - exists []. split; reflexivity.
  - destruct IH as [lanes [H1 H2]].
    { intros name Hn. apply H. right. exact Hn. }
    destruct (@lane_of_present logs c a (H a (or_introl eq_refl)))
      as [lane Hl].
    exists (lane :: lanes). cbn [map]. rewrite Hl, H1, H2.
    rewrite (@lane_of_name logs c a lane Hl). split; reflexivity.
Qed.

(** A lane of the result is the lane of its agent. *)
Lemma lane_in_result logs c lanes lane :
  sequentialAgents logs c = Some lanes ->
  In (Some lane) lanes ->
  lane_of logs c (agentName lane) = Some lane.
Proof.
  intros Hs Hin.
  assert (Hi : existsb (fun log => inherited (agent log)) logs = false).
  { unfold sequentialAgents in Hs.
    destruct (existsb (fun log => inherited (agent log)) logs);
      [discriminate | reflexivity]. }
  rewrite (sequentialAgents_spec logs c Hi) in Hs. inversion Hs; subst lanes.
  apply in_map_iff in Hin. destruct Hin as [name [Hl _]].
  rewrite <- (@lane_of_name logs c name lane Hl) in Hl. exact Hl.
Qed.

(** X24.  One lane per agent, none undefined, in the order in which the agents
    first appear in the log. *)
Theorem lanes_follow_first_appearance logs isComplete :
  existsb (fun log => inherited (agent log)) logs = false ->
  exists lanes,
    sequentialAgents logs isComplete = Some (map Some lanes)
    /\ map agentName lanes = first_occurrences [] (map agent logs)
    /\ NoDup (map agentName lanes)
    /\ (forall log, In log logs -> In (agent log) (map agentName lanes)).
Proof.
  intros Hi. rewrite (sequentialAgents_spec logs isComplete Hi).
  destruct (@lanes_present logs isComplete
              (first_occurrences [] (map agent logs)))
    as [lanes [H1 H2]].
  { intros name Hn.
    apply (@first_occurrences_sound [] (map agent logs) name Hn). }
  exists lanes. rewrite H1, H2. split; [reflexivity |].
  split; [reflexivity |]. split; [apply first_occurrences_NoDup |].
  intros log Hin.
  destruct (@first_occurrences_covers [] (map agent logs) (agent log)
              (in_map agent logs log Hin)) as [[] | H].
  exact H.
Qed.

Lemma lanes_follow_first_appearance_witness :
  exists lanes,
    sequentialAgents MoreSamples.widget_logs false = Some (map Some lanes)
    /\ map agentName lanes
       = first_occurrences [] (map agent MoreSamples.widget_logs)
    /\ NoDup (map agentName lanes)
    /\ (forall log, In log MoreSamples.widget_logs ->
        In (agent log) (map agentName lanes)).
Proof.
  apply (lanes_follow_first_appearance MoreSamples.widget_logs false).
  vm_compute. reflexivity.
Defined.

(** X25.  A lane shows the message and the time of its agent's latest log,
    keeps the time of the agent's first log, and is titled by the table of
    display names, or by the agent's own name when the table lacks it. *)
Theorem lane_reports_the_latest_log logs isComplete lanes lane :
  sequentialAgents logs isComplete = Some lanes ->
  In (Some lane) lanes ->
  exists first more,
    logs_of (agentName lane) logs = first :: more
    /\ lane_message lane = log_message (last more first)
    /\ lane_timestamp lane = log_timestamp (last more first)
    /\ firstSeenTimestamp lane = log_timestamp first
    /\ displayName lane
       = match get (agentName lane) AGENT_DISPLAY_NAMES with
         | Some title => title
         | None => agentName lane
         end.
Proof.
  intros Hs Hin.
  pose proof (@lane_in_result logs isComplete lanes lane Hs Hin) as Hl.
  unfold lane_of in Hl.
  destruct (logs_of (agentName lane) logs) as [| first more];
    [discriminate |].
  exists first, more. split; [reflexivity |].
  inversion Hl as [He]. rewrite <- He at 1 2 3 4. cbn.
  repeat split; reflexivity.
Qed.

(** X26.  No lane is ever pending; once the analysis is complete every lane is
    complete, and before that the one active lane is that of the agent of
    the last log. *)
Theorem only_the_latest_agent_is_active logs isComplete lanes lane :
  sequentialAgents logs isComplete = Some lanes ->
  In (Some lane) lanes ->
  lane_status lane <> log_pending
  /\ (lane_status lane = log_active
      <-> isComplete = false /\ is_last_agent (agentName lane) logs = true).
Proof.
  intros Hs Hin.
  pose proof (@lane_in_result logs isComplete lanes lane Hs Hin) as Hl.
  apply lane_of_status in Hl. rewrite Hl.
  destruct isComplete, (is_last_agent (agentName lane) logs);
    (split; [discriminate |]); split;
    try discriminate; try (intros [? ?]; discriminate);
    try (intros _; split; reflexivity); intros _; reflexivity.
Qed.

Lemma lane_reports_the_latest_log_witness :
  exists first more,
    logs_of (agentName MoreSamples.parser_lane) MoreSamples.widget_logs
    = first :: more
    /\ lane_message MoreSamples.parser_lane = log_message (last more first)
    /\ lane_timestamp MoreSamples.parser_lane
       = log_timestamp (last more first)
    /\ firstSeenTimestamp MoreSamples.parser_lane = log_timestamp first
    /\ displayName MoreSamples.parser_lane
       = match get (agentName MoreSamples.parser_lane) AGENT_DISPLAY_NAMES
         with
         | Some title => title
         | None => agentName MoreSamples.parser_lane
         end.
Proof.
  apply (@lane_reports_the_latest_log MoreSamples.widget_logs false
           [Some MoreSamples.parser_lane; Some MoreSamples.researcher_lane]
           MoreSamples.parser_lane).
  - vm_compute. reflexivity.
  - left. reflexivity.
Defined.

Lemma only_the_latest_agent_is_active_witness :
  lane_status MoreSamples.researcher_lane <> log_pending
  /\ (lane_status MoreSamples.researcher_lane = log_active
      <-> false = false
          /\ is_last_agent (agentName MoreSamples.researcher_lane)
               MoreSamples.widget_logs = true).
Proof.
  apply (@only_the_latest_agent_is_active MoreSamples.widget_logs false
           [Some MoreSamples.parser_lane; Some MoreSamples.researcher_lane]
           MoreSamples.researcher_lane).
  - vm_compute. reflexivity.
  - right. left. reflexivity.
Defined.

End WidgetFacts.

(** ** The plain calls *)

Module ApiCallsFacts.

Import ApiClient Hook HookRest ApiCalls.

Section Calls.

Variable payload : Type.
Variable JSON_parse : text -> option payload.
Variables payload_error payload_detail : payload -> option text.
Variable as_start : payload -> ChatStreamStartEvent.
Variable as_delta : payload -> ChatStreamDeltaEvent.
Variable as_complete : payload -> ChatStreamCompleteEvent.
Variable as_AnalyzeResponse : payload -> AnalyzeResponse.
Variable as_ReviewResponse : payload -> ReviewResponse.

Local Abbreviation handleResponse' :=
  (handleResponse payload_error payload_detail).

(** X27.  A failed response is reported alike by the plain calls and by the
    chat stream.  For a response that is not [ok], [handleResponse] and
    [sendChatMessageStream] reject with an [APIError] of the same message,
    the stream call without a callback; the message is never that of the
    failure of [json()]: when the body is no JSON it is the status line. *)
Theorem failed_response_is_reported_alike (response : Response payload) :
  ok response = false ->
  exists m,
    handleResponse' response = inl (APIError m)
    /\ sendChatMessageStream JSON_parse payload_error payload_detail
         as_start as_delta as_complete (not_ok response)
       = ([], inl (APIError m))
    /\ (forall e, json response = inl e ->
        m = txt "HTTP " ++ Z_text (Z.of_N (status response)) ++ txt ": "
            ++ statusText response).
Proof.
  intros Hok. unfold handleResponse, not_ok, sendChatMessageStream.
  rewrite Hok. cbn [negb].
  destruct (json response) as [e | d]; eexists; split; try reflexivity;
    split; try reflexivity; intros e' He'; congruence.
Qed.

(** X28.  The session shows what the server said.  When the response to the
    upload or to the review is not [ok], the session's error is the
    [error] of the response's body when it has one, else its [detail], else
    the status line, which it also is when the body is no JSON; it is not
    the fallback text of the operation.  The upload goes back to idle, the
    report to the verdict, and a declined report leaves the state alone. *)
Theorem failed_request_shows_the_server_message
    (response : Response payload) (s : HookState) (t : text)
    (file : File) (files : list File) (now : Z) :
  ok response = false ->
  present (threadIdRef s) = Some t ->
  let status_line :=
    txt "HTTP " ++ Z_text (Z.of_N (status response)) ++ txt ": "
    ++ statusText response in
  let m :=
    match json response with
    | inr errorData =>
        match payload_error errorData, payload_detail errorData with
        | Some e, _ => e
        | None, Some d => d
        | None, None => status_line
        end
    | inl _ => status_line
    end in
  handleResponse' response = inl (APIError m)
  /\ (let s' :=
        generateReport
          (submitReview payload_error payload_detail as_ReviewResponse
             (inr response)) s in
      error s' = Some m /\ state s' = verdict)
  /\ (let s' :=
        declineReport
          (submitReview payload_error payload_detail as_ReviewResponse
             (inr response)) s in
      error s' = Some m /\ state s' = state s)
  /\ (let s' :=
        uploadFiles (file :: files) now
          (uploadDocuments payload_error payload_detail
             as_AnalyzeResponse (inr response)) s in
      error s' = Some m /\ state s' = idle).
Proof.
  intros Hok Ht status_line m.
  assert (Hm : handleResponse' response = inl (APIError m)).
  { unfold handleResponse. rewrite Hok. cbn [negb]. subst m status_line.
    destruct (json response) as [e | d]; [reflexivity |].
    unfold first_truthy.
    destruct (payload_error d), (payload_detail d); reflexivity. }
  split; [exact Hm |].
  unfold generateReport, declineReport, uploadFiles, generateReport_call,
    declineReport_call, submitReview, uploadDocuments, handled, cast.
  rewrite Ht, Hm. cbn [uploadFiles_call].
  repeat split.
Qed.

End Calls.

Lemma failed_response_is_reported_alike_witness :
  exists m,
    handleResponse (fun _ : unit => None) (fun _ => None)
      MoreSamples.server_error
    = inl (APIError m)
    /\ sendChatMessageStream (fun _ => None) (fun _ : unit => None)
         (fun _ => None)
         (fun _ => {| start_message_id := []; start_timestamp := 0%Z |})
         (fun _ => {| delta_message_id := []; delta := [] |})
         (fun _ => {| complete_message_id := []; response := [];
                      complete_timestamp := 0%Z |})
         (not_ok MoreSamples.server_error)
       = ([], inl (APIError m))
    /\ (forall e, json MoreSamples.server_error = inl e ->
        m = txt "HTTP " ++ Z_text (Z.of_N (status MoreSamples.server_error))
            ++ txt ": " ++ statusText MoreSamples.server_error).
Proof.
  apply (@failed_response_is_reported_alike unit (fun _ => None)
           (fun _ => None) (fun _ => None)
           (fun _ => {| start_message_id := []; start_timestamp := 0%Z |})
           (fun _ => {| delta_message_id := []; delta := [] |})
           (fun _ => {| complete_message_id := []; response := [];
                        complete_timestamp := 0%Z |})
           MoreSamples.server_error).
  reflexivity.
Defined.

Lemma failed_request_shows_the_server_message_witness :
  let m := txt "HTTP 500: Internal Server Error" in
  handleResponse (fun _ : unit => None) (fun _ => None)
    MoreSamples.server_error
  = inl (APIError m)
  /\ (let s' :=
        generateReport
          (submitReview (fun _ : unit => None) (fun _ => None)
             (fun _ => {| review_status := []; gamma_link := None |})
             (inr MoreSamples.server_error)) Samples.session in
      error s' = Some m /\ state s' = verdict)
  /\ (let s' :=
        declineReport
          (submitReview (fun _ : unit => None) (fun _ => None)
             (fun _ => {| review_status := []; gamma_link := None |})
             (inr MoreSamples.server_error)) Samples.session in
      error s' = Some m /\ state s' = state Samples.session)
  /\ (let s' :=
        uploadFiles [{| name := txt "tor.pdf" |}] 900
          (uploadDocuments (fun _ : unit => None) (fun _ => None)
             (fun _ => {| thread_id := []; analyze_status := [] |})
             (inr MoreSamples.server_error)) Samples.session in
      error s' = Some m /\ state s' = idle).
Proof.
  apply (@failed_request_shows_the_server_message unit (fun _ => None)
           (fun _ => None)
           (fun _ => {| thread_id := []; analyze_status := [] |})
           (fun _ => {| review_status := []; gamma_link := None |})
           MoreSamples.server_error Samples.session (txt "t1")
           {| name := txt "tor.pdf" |} [] 900%Z).
  - reflexivity.
  - reflexivity.
Defined.

End ApiCallsFacts.
